(** * Diff strategies of the patch-application engine

    A shallow embedding of the strategy selector ([getDiffStrategy]), of the
    Search-Replace, Optimized Unified, Parallel and Smart Hybrid strategies
    and of the language gate and the cache of the AST-Aware strategy,
    followed by the properties proved about them.

    Conventions of the embedding.
    - A JavaScript string is a [string]: a sequence of code units, here
      restricted to the 8-bit range (ASCII / Latin-1 text).
    - A JavaScript number that holds an index, a size or a line number is a
      [Z]. A similarity score or a threshold is a rational [Q], and the
      arithmetic on scores and thresholds is that of binary64 numbers:
      every operator rounds its exact result to the nearest binary64
      number ([JS.double]), and a threshold that the caller writes in
      decimal stands for the binary64 number nearest to it.
    - [undefined] is [None]; an exception is the [Throw] completion.
    - Timer and heap readings ([performance.now], [process.memoryUsage]) are
      left out of [DiffMetrics]; only [accuracyScore] is kept. *)

From Stdlib Require Import ZArith QArith Qabs Qround Lia Lqa Ascii Floats.
From stdpp Require Import base option list strings gmap pretty.

(* ===================================================================== *)
(** * Part I: the embedding                                               *)
(* ===================================================================== *)

(** ** JavaScript primitives used by the strategies *)

Module JS.

(** A completion: a value, or an exception carrying [error.message]. *)
Inductive completion (A : Type) : Type :=
| Normal (a : A)
| Throw (message : string).
Global Arguments Normal {A} a.
Global Arguments Throw {A} message.

Global Instance completion_ret : MRet completion := fun A a => Normal a.
Global Instance completion_bind : MBind completion := fun A B f m =>
  match m with
  | Normal a => f a
  | Throw msg => Throw msg
  end.

(** Truthiness of a number that may be [undefined]. *)
Definition truthy (n : option Z) : bool :=
  match n with
  | Some k => negb (k =? 0)%Z
  | None => false
  end.

(** [s.startsWith(p)] *)
Definition startsWith (s p : string) : bool := String.prefix p s.

(** [s.includes(sub)] *)
Fixpoint includes (s sub : string) : bool :=
  String.prefix sub s ||
  match s with
  | EmptyString => false
  | String _ s' => includes s' sub
  end.

(** [s.split(sep)] for a separator of one code unit. *)
Fixpoint split (sep : ascii) (s : string) : list string :=
  match s with
  | EmptyString => [EmptyString]
  | String c s' =>
      if Ascii.eqb c sep then EmptyString :: split sep s'
      else match split sep s' with
           | [] => [String c EmptyString]
           | l :: ls => String c l :: ls
           end
  end.

(** [s.split("")] *)
Fixpoint chars (s : string) : list string :=
  match s with
  | EmptyString => []
  | String c s' => String c EmptyString :: chars s'
  end.

(** [s.split(/\r?\n/)] *)
Fixpoint splitLines (s : string) : list string :=
  match s with
  | EmptyString => [EmptyString]
  | String c s' =>
      if Ascii.eqb c "010"%char then EmptyString :: splitLines s'
      else if Ascii.eqb c "013"%char
              && String.prefix (String "010"%char EmptyString) s'
      then splitLines s'
      else match splitLines s' with
           | [] => [String c EmptyString]
           | l :: ls => String c l :: ls
           end
  end.

(** [arr.join(sep)] *)
Definition join (sep : string) (l : list string) : string := String.concat sep l.

(** White space and line terminators of the 8-bit range, as matched by
    [\s] and removed by [trim]. *)
Definition isWhite (c : ascii) : bool :=
  match c with
  | "009" | "010" | "011" | "012" | "013" | " " | "160" => true
  | _ => false
  end%char.

(** [s.replace(/\s+/g, "")] *)
Fixpoint removeWhite (s : string) : string :=
  match s with
  | EmptyString => EmptyString
  | String c s' => if isWhite c then removeWhite s' else String c (removeWhite s')
  end.

Fixpoint trimStart (s : string) : string :=
  match s with
  | EmptyString => EmptyString
  | String c s' => if isWhite c then trimStart s' else s
  end.

Definition trimEnd (s : string) : string :=
  String.rev (trimStart (String.rev s)).

(** [s.trim()] *)
Definition trim (s : string) : string := trimEnd (trimStart s).

Definition lowerChar (c : ascii) : ascii :=
  let n := Ascii.N_of_ascii c in
  if ((65 <=? n) && (n <=? 90))%N then Ascii.ascii_of_N (n + 32)
  else if ((192 <=? n) && (n <=? 222) && negb (n =? 215))%N
  then Ascii.ascii_of_N (n + 32)
  else c.

(** [s.toLowerCase()] *)
Fixpoint toLowerCase (s : string) : string :=
  match s with
  | EmptyString => EmptyString
  | String c s' => String (lowerChar c) (toLowerCase s')
  end.

(** Relative index of [slice] and [splice]: a negative index counts from
    the end, and the result is clamped to [0 .. len]. *)
Definition relIndex (len : nat) (k : Z) : nat :=
  Z.to_nat (if (k <? 0)%Z then Z.max (Z.of_nat len + k) 0
            else Z.min k (Z.of_nat len)).

(** [arr.slice(s, e)] *)
Definition slice {A} (l : list A) (s e : Z) : list A :=
  let from := relIndex (length l) s in
  let to := relIndex (length l) e in
  take (to - from) (drop from l).

(** [arr.slice(s)] *)
Definition sliceFrom {A} (l : list A) (s : Z) : list A :=
  drop (relIndex (length l) s) l.

(** [arr.splice(start, deleteCount, ...items)], as the updated array. *)
Definition splice {A} (l : list A) (start deleteCount : Z) (items : list A)
  : list A :=
  let st := relIndex (length l) start in
  let dc := Z.to_nat (Z.min (Z.max deleteCount 0)
                            (Z.of_nat (length l) - Z.of_nat st)) in
  take st l ++ items ++ drop (st + dc) l.

(** [str.slice(s, e)] and [str.slice(s)] *)
Fixpoint strDrop (n : nat) (s : string) : string :=
  match n, s with
  | O, _ => s
  | S n', String _ s' => strDrop n' s'
  | S _, EmptyString => EmptyString
  end.

Fixpoint strTake (n : nat) (s : string) : string :=
  match n, s with
  | O, _ => EmptyString
  | S n', String c s' => String c (strTake n' s')
  | S _, EmptyString => EmptyString
  end.

Definition strSlice (str : string) (s e : Z) : string :=
  let from := relIndex (String.length str) s in
  let to := relIndex (String.length str) e in
  strTake (to - from) (strDrop from str).

Definition strSliceFrom (str : string) (s : Z) : string :=
  strDrop (relIndex (String.length str) s) str.

(** [str.length] *)
Definition strLength (s : string) : Z := Z.of_nat (String.length s).

(** ToInt32 and ToUint32 *)
Definition int32 (z : Z) : Z := ((z + 2 ^ 31) mod 2 ^ 32 - 2 ^ 31)%Z.
Definition uint32 (z : Z) : Z := (z mod 2 ^ 32)%Z.

(** The 32-bit operators: [a ^ b], [a | b], [a & b], [a << n], [a >>> n]
    and [Math.imul(a, b)]. *)
Definition xor (a b : Z) : Z := Z.lxor (int32 a) (int32 b).
Definition bor (a b : Z) : Z := Z.lor (int32 a) (int32 b).
Definition band (a b : Z) : Z := Z.land (int32 a) (int32 b).
Definition shl (a n : Z) : Z := int32 (Z.shiftl (int32 a) (n mod 32)).
Definition shru (a n : Z) : Z := Z.shiftr (uint32 a) (n mod 32).
Definition imul (a b : Z) : Z := int32 (int32 a * int32 b).

(** [str.charCodeAt(i)] of a code unit *)
Definition charCode (c : ascii) : Z := Z.of_N (Ascii.N_of_ascii c).

Definition isDigit (c : ascii) : bool :=
  let n := Ascii.N_of_ascii c in ((48 <=? n) && (n <=? 57))%N.

(** [parseInt(digits, 10)] on a string of decimal digits. *)
Fixpoint parseDigits (acc : Z) (s : string) : Z :=
  match s with
  | EmptyString => acc
  | String c s' => parseDigits (10 * acc + (charCode c - 48))%Z s'
  end.

Definition parseInt (s : string) : Z := parseDigits 0 s.

(** *** Numbers with a fraction

    A binary64 number is kept as the rational that it is. The result of
    an arithmetic operator is the [double] of its exact result, and a
    decimal literal is the [double] of its exact value. Magnitudes from
    [2 ** 1024] on, [NaN] and the sign of zero are outside the
    embedding. *)

(** [2 ** e] *)
Definition pow2 (e : Z) : Q :=
  if (0 <=? e)%Z then inject_Z (2 ^ e) else 1 # Z.to_pos (2 ^ (- e)).

(** The exponent [e] with [2 ** e <= x < 2 ** (e + 1)], for a positive
    [x]. *)
Definition log2floor (x : Q) : Z :=
  let e := (Z.log2 (Qnum x) - Z.log2 (Zpos (Qden x)))%Z in
  match (x ?= pow2 e)%Q with
  | Lt => (e - 1)%Z
  | _ => e
  end.

(** The integer nearest to [x], the even one of two that are equally
    near. *)
Definition roundHalfEven (x : Q) : Z :=
  let f := Qfloor x in
  match (x - inject_Z f ?= 1 # 2)%Q with
  | Lt => f
  | Gt => (f + 1)%Z
  | Eq => if Z.even f then f else (f + 1)%Z
  end.

(** The binary64 number nearest to [x], the one with an even significand
    of two that are equally near: the significand has 53 bits, and its
    last bit has the weight [2 ** q], where [q] is 52 below the exponent
    of [x] and -1074 at least. *)
Definition double (x : Q) : Q :=
  let a := Qabs x in
  if (Qnum a =? 0)%Z then 0%Q
  else
    let q := (Z.max (log2floor a) (-1022) - 52)%Z in
    let r := Qred (inject_Z (roundHalfEven (a / pow2 q)) * pow2 q) in
    if (Qnum x <? 0)%Z then (- r)%Q else r.

(** [x] rounded to a significand of 53 bits, whatever its exponent: what
    [double] is for every [x] of a magnitude of [2 ** -1022] at least,
    the range of the normal numbers. *)
Definition round53 (x : Q) : Q :=
  let a := Qabs x in
  if (Qnum a =? 0)%Z then 0%Q
  else
    let q := (log2floor a - 52)%Z in
    let r := Qred (inject_Z (roundHalfEven (a / pow2 q)) * pow2 q) in
    if (Qnum x <? 0)%Z then (- r)%Q else r.

(** The binary64 numbers of the kernel, to compare [double] with: the
    value of one ([None] for an infinity and for [NaN]), and the one that
    an integer below [2 ** 53] is. *)
Definition valueOfFloat (f : float) : option Q :=
  match Prim2SF f with
  | S754_zero _ => Some 0%Q
  | S754_finite s m e =>
      Some (Qred ((if s then -1 else 1) * inject_Z (Zpos m) * pow2 e))
  | _ => None
  end.

Definition floatOfZ (z : Z) : float := PrimFloat.of_uint63 (Uint63.of_Z z).

Definition sameNumber (x : Q) (f : float) : bool :=
  match valueOfFloat f with
  | Some v => Qeq_bool x v
  | None => false
  end.

(** The number of decimal digits of a positive integer. *)
Definition digitCount (z : Z) : Z := Z.of_nat (String.length (pretty z)).

(** The pairs [(s, n)] in which [s] has [k] digits and [s * 10 ** (n - k)]
    is an integer that rounds to the binary64 number [x]. *)
Definition digitCandidates (x k : Z) : list (Z * Z) :=
  List.filter
    (fun c : Z * Z =>
       let '(s, n) := c in
       (10 ^ (k - 1) <=? s)%Z && (s <? 10 ^ k)%Z
       && Qeq_bool (double (inject_Z (s * 10 ^ (n - k)))) (inject_Z x))
    (flat_map
       (fun n => if (k <=? n)%Z
                 then [(x / 10 ^ (n - k), n); (x / 10 ^ (n - k) + 1, n)]%Z
                 else [])
       [digitCount x; (digitCount x + 1)%Z]).

(** Of the candidates, the one nearest to [x]; of two equally near, the
    even one. *)
Definition nearestCandidate (x k : Z) (cands : list (Z * Z))
  : option (Z * Z) :=
  let err (c : Z * Z) := Z.abs (fst c * 10 ^ (snd c - k) - x) in
  foldr (fun c best =>
           match best with
           | None => Some c
           | Some b =>
               if (err c <? err b)%Z then Some c
               else if (err c =? err b)%Z && Z.even (fst c) then Some c
               else Some b
           end) None cands.

(** The shortest digit string that reads back as [x], looked for from
    [k] digits on: its digits [s], and the number [n] of digits of the
    integer [s * 10 ** (n - k)] that it stands for. Seventeen digits are
    enough for every binary64 number. *)
Fixpoint shortestDigits (fuel : nat) (x k : Z) : Z * Z :=
  match fuel with
  | O => (x, digitCount x)
  | S fuel' =>
      match nearestCandidate x k (digitCandidates x k) with
      | Some c => c
      | None => shortestDigits fuel' x (k + 1)%Z
      end
  end.

(** [String(x)], also what a template literal prints, of a binary64
    number that is an integer: its digits when it is below [2 ** 53];
    from there on the shortest digits that read back as the number,
    filled up with zeros below [10 ** 21] and in exponent notation from
    [10 ** 21] on. *)
Definition numberToString (x : Z) : string :=
  if (Z.abs x <? 2 ^ 53)%Z then pretty x
  else
    let '(s, n) := shortestDigits 17 (Z.abs x) 1 in
    (if (x <? 0)%Z then "-" else EmptyString) +:+
    (if (n <=? 21)%Z
     then pretty s +:+
          String.concat EmptyString
            (replicate (Z.to_nat (n - digitCount s)) "0")
     else
       match pretty s with
       | String d EmptyString => String d EmptyString
       | String d rest => String d ("." +:+ rest)
       | EmptyString => EmptyString
       end +:+ "e+" +:+ pretty (n - 1)%Z).

(** *** Regular-expression combinators

    A matcher takes the rest of the input and a continuation; alternatives
    are tried in the priority order of a backtracking engine. *)

(** A literal. *)
Fixpoint stripPrefix (m s : string) : option string :=
  match m with
  | EmptyString => Some s
  | String c m' =>
      match s with
      | String d s' => if Ascii.eqb c d then stripPrefix m' s' else None
      | EmptyString => None
      end
  end.

Definition lit {A} (m : string) (k : string -> option A) (s : string)
  : option A :=
  match stripPrefix m s with
  | Some rest => k rest
  | None => None
  end.

(** [\r?\n] *)
Definition eol {A} (k : string -> option A) (s : string) : option A :=
  match s with
  | String "013"%char (String "010"%char s') => k s'
  | String "010"%char s' => k s'
  | _ => None
  end.

(** [(c*?)] for a class [p] of code units, lazy: the shortest captured run
    after which [k] matches. [[\s\S]] is the class of every code unit and
    [.] the class of every code unit but the line terminators. *)
Fixpoint lazyStar {A} (p : ascii -> bool) (k : string -> string -> option A)
  (s : string) : option A :=
  match k EmptyString s with
  | Some r => Some r
  | None =>
      match s with
      | EmptyString => None
      | String c s' =>
          if p c then lazyStar p (fun g r => k (String c g) r) s' else None
      end
  end.

Definition lazyPlus {A} (p : ascii -> bool) (k : string -> string -> option A)
  (s : string) : option A :=
  match s with
  | String c s' =>
      if p c then lazyStar p (fun g r => k (String c g) r) s' else None
  | EmptyString => None
  end.

(** [(c* )] and [(c+)], greedy: the longest run first, shorter runs on
    failure of the continuation. *)
Fixpoint classStar {A} (p : ascii -> bool) (k : string -> string -> option A)
  (s : string) : option A :=
  match s with
  | String c s' =>
      if p c then
        match classStar p (fun g r => k (String c g) r) s' with
        | Some r => Some r
        | None => k EmptyString s
        end
      else k EmptyString s
  | EmptyString => k EmptyString s
  end.

Definition classPlus {A} (p : ascii -> bool) (k : string -> string -> option A)
  (s : string) : option A :=
  match s with
  | String c s' =>
      if p c then classStar p (fun g r => k (String c g) r) s' else None
  | EmptyString => None
  end.

Definition anyChar (c : ascii) : bool := true.

Definition dotChar (c : ascii) : bool :=
  negb (Ascii.eqb c "010"%char || Ascii.eqb c "013"%char).

(** [\w] *)
Definition isWord (c : ascii) : bool :=
  let n := Ascii.N_of_ascii c in
  (((48 <=? n) && (n <=? 57)) || ((65 <=? n) && (n <=? 90))
   || ((97 <=? n) && (n <=? 122)) || (n =? 95))%N.

(** [(?:p)?] greedy, and [p|q]. *)
Definition optional {A} (p : (string -> option A) -> string -> option A)
  (k : string -> option A) (s : string) : option A :=
  match p k s with
  | Some r => Some r
  | None => k s
  end.

Definition alt {A} (p q : (string -> option A) -> string -> option A)
  (k : string -> option A) (s : string) : option A :=
  match p k s with
  | Some r => Some r
  | None => q k s
  end.

Definition altCap {A}
  (p q : (string -> string -> option A) -> string -> option A)
  (k : string -> string -> option A) (s : string) : option A :=
  match p k s with
  | Some r => Some r
  | None => q k s
  end.

(** [$] *)
Definition atEnd {A} (r : option A) (s : string) : option A :=
  match s with
  | EmptyString => r
  | String _ _ => None
  end.

(** An unanchored search: the leftmost position at which [m] matches. *)
Fixpoint search {A} (m : string -> option A) (s : string) : option A :=
  match m s with
  | Some r => Some r
  | None =>
      match s with
      | EmptyString => None
      | String _ s' => search m s'
      end
  end.

End JS.

(** ** Shared types ([types.ts]) *)

Record DiffMetrics := mkDiffMetrics {
  accuracyScore : Q
}.

Inductive Resolution : Type := Auto | Manual.

Record DiffConflict := mkDiffConflict {
  expected : string;
  actual : string;
  resolution : Resolution;
  lineNumber : Z
}.

(** The tagged union [DiffResult]: [success: true] or [success: false].
    The optional field [details] of a failure is set by none of the
    strategies and is left out. *)
Inductive DiffResult : Type :=
| Success (content : string) (appliedLines : Z) (metrics : option DiffMetrics)
| Failure (error : string) (conflicts : option (list DiffConflict)).

Record FileStats := mkFileStats {
  size : Z;
  path : string;
  language : option string;
  lastModified : Z
}.

(** The [options] argument of [applyDiff]; an absent [options] is the
    record with every field absent. *)
Record ApplyOptions := mkApplyOptions {
  startLine : option Z;
  endLine : option Z;
  fileStats : option FileStats;
  collectMetrics : bool
}.

Definition noOptions : ApplyOptions := mkApplyOptions None None None false.

Definition isSuccess (r : DiffResult) : bool :=
  match r with
  | Success _ _ _ => true
  | Failure _ _ => false
  end.

(** ** Optimized Unified strategy ([strategies/optimized-unified.ts]) *)

Module OptimizedUnified.
Import JS.
Local Open Scope Z_scope.

Record DiffHunk := mkDiffHunk {
  start : Z;
  end_ : Z;
  removed : list string;
  added : list string;
  context : list string
}.

(** *** The gap buffer *)

Record GapBuffer := mkGapBuffer {
  buffer : list string;
  gapStart : Z;
  gapEnd : Z
}.

(** [new GapBuffer(content, gapSize)]; [new Array(gapSize)] throws a
    RangeError on a negative length. *)
Definition newGapBuffer (content : string) (gapSize : Z)
  : completion GapBuffer :=
  if gapSize <? 0 then Throw "Invalid array length"
  else Normal {|
    buffer := splice (chars content) 0 0
                (replicate (Z.to_nat gapSize) EmptyString);
    gapStart := 0;
    gapEnd := gapSize |}.

Definition moveGap (b : GapBuffer) (pos : Z) : GapBuffer :=
  if pos =? gapStart b then b
  else
    let gapSize := gapEnd b - gapStart b in
    if pos <? gapStart b then
      let moveSize := gapStart b - pos in
      let temp := slice (buffer b) pos (gapStart b) in
      {| buffer := splice (buffer b) (gapEnd b - moveSize) moveSize temp;
         gapStart := pos;
         gapEnd := pos + gapSize |}
    else
      let moveSize := pos - gapStart b in
      let temp := slice (buffer b) (gapEnd b) (gapEnd b + moveSize) in
      {| buffer := splice (buffer b) (gapStart b) moveSize temp;
         gapStart := pos;
         gapEnd := pos + gapSize |}.

Definition insert (b : GapBuffer) (pos : Z) (content : string) : GapBuffer :=
  let b1 := moveGap b pos in
  let cs := chars content in
  let n := Z.of_nat (length cs) in
  let b2 :=
    if gapEnd b1 - gapStart b1 <? n then
      let extra := n - (gapEnd b1 - gapStart b1) in
      {| buffer := splice (buffer b1) (gapEnd b1) 0
                     (replicate (Z.to_nat extra) EmptyString);
         gapStart := gapStart b1;
         gapEnd := gapEnd b1 + extra |}
    else b1 in
  {| buffer := splice (buffer b2) (gapStart b2) n cs;
     gapStart := gapStart b2 + n;
     gapEnd := gapEnd b2 |}.

Definition replace (b : GapBuffer) (start end_ : Z) (content : string)
  : GapBuffer :=
  let b1 := moveGap b start in
  let deleteCount := end_ - start in
  let b2 := {| buffer := splice (buffer b1) (gapStart b1) deleteCount [];
               gapStart := gapStart b1;
               gapEnd := gapEnd b1 |} in
  insert b2 start content.

Definition intoGap (b : GapBuffer) (k : Z) : Z :=
  if (gapStart b <=? k) && (k <? gapEnd b) then gapEnd b else k.

Definition gapSlice (b : GapBuffer) (start end_ : Z) : string :=
  join EmptyString (slice (buffer b) (intoGap b start) (intoGap b end_)).

Definition toString (b : GapBuffer) : string :=
  join EmptyString
    (slice (buffer b) 0 (gapStart b) ++ sliceFrom (buffer b) (gapEnd b)).

(** *** The strategy *)

Record OptimizedUnifiedStrategy := mkOptimizedUnifiedStrategy {
  fuzzyMatchThreshold : Q
}.

Definition CHUNK_SIZE : Z := 1024 * 1024.
Definition GAP_BUFFER_SIZE : Z := 1024.

(** The constructor, with its default parameter [0.9]. *)
Definition new (fuzzyMatchThreshold : option Q) : OptimizedUnifiedStrategy :=
  mkOptimizedUnifiedStrategy (default (9 # 10)%Q fuzzyMatchThreshold).

(** The regular expression [/@@ -(\d+)(?:,\d+)? \+(\d+)(?:,\d+)? @@/] and
    its two capture groups. *)
Definition countGroup {A} (k : string -> option A) : string -> option A :=
  lit "," (classPlus isDigit (fun _ => k)).

Definition hunkHeaderMatch (header : string) : option (string * string) :=
  search
    (lit "@@ -" (classPlus isDigit (fun g1 =>
       optional countGroup (lit " +" (classPlus isDigit (fun g2 =>
         optional countGroup (lit " @@" (fun _ => Some (g1, g2)))))))))
    header.

Definition parseHunkHeader (header : string) : completion (Z * Z) :=
  match hunkHeaderMatch header with
  | None => Throw "Invalid hunk header format"
  | Some (g1, g2) => Normal (parseInt g1, parseInt g2)
  end.

Definition pushCurrent (hunks : list DiffHunk) (currentHunk : option DiffHunk)
  : list DiffHunk :=
  match currentHunk with
  | Some h => hunks ++ [h]
  | None => hunks
  end.

(** The loop of [parseUnifiedDiff] over the lines of the diff. *)
Fixpoint parseLines (lines : list string) (hunks : list DiffHunk)
  (currentHunk : option DiffHunk) : completion (list DiffHunk) :=
  match lines with
  | [] => Normal (pushCurrent hunks currentHunk)
  | line :: rest =>
      if startsWith line "@@" then
        match parseHunkHeader line with
        | Throw msg => Throw msg
        | Normal (start, count) =>
            parseLines rest (pushCurrent hunks currentHunk)
              (Some {| start := start; end_ := start + count;
                       removed := []; added := []; context := [] |})
        end
      else
        match currentHunk with
        | Some h =>
            if startsWith line "-" then
              parseLines rest hunks
                (Some {| start := start h; end_ := end_ h;
                         removed := removed h ++ [strSliceFrom line 1];
                         added := added h; context := context h |})
            else if startsWith line "+" then
              parseLines rest hunks
                (Some {| start := start h; end_ := end_ h;
                         removed := removed h;
                         added := added h ++ [strSliceFrom line 1];
                         context := context h |})
            else if startsWith line " " then
              parseLines rest hunks
                (Some {| start := start h; end_ := end_ h;
                         removed := removed h; added := added h;
                         context := context h ++ [strSliceFrom line 1] |})
            else parseLines rest hunks currentHunk
        | None => parseLines rest hunks None
        end
  end.

Definition parseUnifiedDiff (diffContent : string)
  : completion (list DiffHunk) :=
  parseLines (split "010" diffContent) [] None.

(** [hunk.context.every((line, i) => contextLines[i].trim() === line.trim())]:
    reading [trim] of a missing [contextLines[i]] throws a TypeError. *)
Fixpoint everyContext (contextLines : list string) (ctx : list string)
  (i : nat) : completion bool :=
  match ctx with
  | [] => Normal true
  | line :: rest =>
      match contextLines !! i with
      | None => Throw "Cannot read properties of undefined (reading 'trim')"
      | Some cl =>
          if String.eqb (trim cl) (trim line)
          then everyContext contextLines rest (S i)
          else Normal false
      end
  end.

Definition verifyContext (b : GapBuffer) (hunk : DiffHunk) : completion bool :=
  let content := gapSlice b (start hunk) (end_ hunk) in
  let contextLines := split "010" content in
  everyContext contextLines (context hunk) 0.

Fixpoint processHunksSequentially (hunks : list DiffHunk) (b : GapBuffer)
  : completion GapBuffer :=
  match hunks with
  | [] => Normal b
  | hunk :: rest =>
      match verifyContext b hunk with
      | Throw msg => Throw msg
      | Normal false => Throw "Context mismatch in hunk"
      | Normal true =>
          processHunksSequentially rest
            (replace b (start hunk) (end_ hunk)
               (join (String "010" EmptyString) (added hunk)))
      end
  end.

(** [Math.ceil(a / b)] for a positive [b]. *)
Definition ceilDiv (a b : Z) : Z := (a + b - 1) / b.

(** The loop of [splitHunksIntoChunks]:
    [for (let i = 0; i < hunks.length; i += chunkSize)]. *)
Fixpoint splitLoop (fuel : nat) (i chunkSize : Z) (hunks : list DiffHunk)
  : list (list DiffHunk) :=
  match fuel with
  | O => []
  | S fuel' =>
      if i <? Z.of_nat (length hunks) then
        slice hunks i (i + chunkSize)
          :: splitLoop fuel' (i + chunkSize) chunkSize hunks
      else []
  end.

(** [hardwareConcurrency] is [navigator.hardwareConcurrency], at least 1. *)
Definition splitHunksIntoChunks (hardwareConcurrency : Z)
  (hunks : list DiffHunk) : list (list DiffHunk) :=
  let chunkSize := ceilDiv (Z.of_nat (length hunks)) hardwareConcurrency in
  splitLoop (length hunks) 0 chunkSize hunks.

(** [chunks.map(chunk => this.processHunksSequentially(chunk, buffer))]:
    the callbacks run one after the other on the one shared buffer, and the
    first exception leaves the [map]. *)
Fixpoint processChunks (chunks : list (list DiffHunk)) (b : GapBuffer)
  : completion GapBuffer :=
  match chunks with
  | [] => Normal b
  | chunk :: rest =>
      match processHunksSequentially chunk b with
      | Throw msg => Throw msg
      | Normal b' => processChunks rest b'
      end
  end.

Definition processHunksInParallel (hardwareConcurrency : Z)
  (hunks : list DiffHunk) (b : GapBuffer) : completion GapBuffer :=
  processChunks (splitHunksIntoChunks hardwareConcurrency hunks) b.

Definition largeFile (options : ApplyOptions) : bool :=
  match fileStats options with
  | Some fs => truthy (Some (size fs)) && (CHUNK_SIZE <? size fs)
  | None => false
  end.

(** The body of the [try] block of [applyDiff]. *)
Definition applyDiffBody (hardwareConcurrency : Z) (originalContent
  diffContent : string) (options : ApplyOptions)
  : completion DiffResult :=
  b ← newGapBuffer originalContent GAP_BUFFER_SIZE;
  hunks ← parseUnifiedDiff diffContent;
  b' ← (if largeFile options
        then processHunksInParallel hardwareConcurrency hunks b
        else processHunksSequentially hunks b);
  let appliedLines :=
    foldl (fun sum hunk => sum + Z.of_nat (length (added hunk))) 0 hunks in
  Normal (Success (toString b') appliedLines
            (if collectMetrics options then Some (mkDiffMetrics 1) else None)).

Definition applyDiff (self : OptimizedUnifiedStrategy)
  (hardwareConcurrency : Z) (originalContent diffContent : string)
  (options : ApplyOptions) : DiffResult :=
  match applyDiffBody hardwareConcurrency originalContent diffContent
          options with
  | Normal r => r
  | Throw msg =>
      Failure ("Failed to apply unified diff: " +:+ msg) (Some [])
  end.

(** *** Notions used in the statements *)

(** The items of the array outside the gap, in order: the text that the
    buffer holds, item by item. *)
Definition gapText (b : GapBuffer) : list string :=
  slice (buffer b) 0 (gapStart b) ++ sliceFrom (buffer b) (gapEnd b).

(** The gap lies inside the array. *)
Definition gapInside (b : GapBuffer) : Prop :=
  0 <= gapStart b <= gapEnd b /\ gapEnd b <= Z.of_nat (length (buffer b)).

(** The state of a buffer that the constructor built and the methods
    changed: the gap lies inside the array, and every item outside it is
    one code unit. *)
Definition coherent (b : GapBuffer) : Prop :=
  gapInside b
  /\ Forall (fun item => String.length item = 1%nat) (gapText b).

(** The number of lines of the diff that [parseUnifiedDiff] stores as
    added lines: those that start with [+], from the first hunk header
    on. *)
Fixpoint plusLines (inHunk : bool) (lines : list string) : Z :=
  match lines with
  | [] => 0
  | line :: rest =>
      if startsWith line "@@" then plusLines true rest
      else if inHunk && startsWith line "+" then 1 + plusLines inHunk rest
      else plusLines inHunk rest
  end.

End OptimizedUnified.

(** ** Helpers of [integrations/misc/extract-text]

    The three helpers imported by the Search-Replace strategy are defined in
    a file that is not part of the sources at hand; the strategy is
    parametrised by them. *)

Class ExtractText := {
  addLineNumbers : string -> option Z -> string;
  everyLineHasLineNumbers : string -> bool;
  stripLineNumbers : string -> string
}.

(** ** Search-Replace strategy ([strategies/search-replace.ts]) *)

Module SearchReplace.
Import JS.
Local Open Scope Z_scope.

Definition BUFFER_LINES : Z := 20.
Definition MAX_CACHE_SIZE : Z := 1000.

Definition LF : string := String "010"%char EmptyString.
Definition CRLF : string := String "013"%char LF.

(** *** murmurHash3 *)

Definition seed : Z := 0x1234abcd.
Definition c1 : Z := 0xcc9e2d51.
Definition c2 : Z := 0x1b873593.
Definition r1 : Z := 15.
Definition r2 : Z := 13.
Definition m : Z := 5.
Definition n : Z := 0xe6546b64.

(** [k = Math.imul(k, c1); k = (k << r1) | (k >>> (32 - r1));
    k = Math.imul(k, c2)] *)
Definition mixK (k : Z) : Z :=
  let k := imul k c1 in
  let k := bor (shl k r1) (shru k (32 - r1)) in
  imul k c2.

(** One turn of the loop over the groups of four code units. *)
Definition mixChunk (hash : Z) (a b c d : ascii) : Z :=
  let k := bor (bor (bor (band (charCode a) 0xff)
                         (shl (band (charCode b) 0xff) 8))
                    (shl (band (charCode c) 0xff) 16))
               (shl (band (charCode d) 0xff) 24) in
  let k := mixK k in
  let hash := xor hash k in
  let hash := bor (shl hash r2) (shru hash (32 - r2)) in
  imul hash m + n.

(** The loop [for (let i = 0; i < chunks; i++)] with body [step], returning
    the hash and the [remaining] code units. *)
Fixpoint chunkLoop (step : Z -> ascii -> ascii -> ascii -> ascii -> Z)
  (hash : Z) (s : string) : Z * string :=
  match s with
  | String a (String b (String c (String d rest))) =>
      chunkLoop step (step hash a b c d) rest
  | _ => (hash, s)
  end.

Definition hashChunks : Z -> string -> Z * string := chunkLoop mixChunk.

Definition hashTail (hash : Z) (rest : string) : Z :=
  match rest with
  | String a (String b (String c _)) =>
      let k := xor 0 (shl (charCode a) 16) in
      let k := xor k (shl (charCode b) 8) in
      let k := xor k (charCode c) in
      xor hash (mixK k)
  | String a (String b EmptyString) =>
      let k := xor 0 (shl (charCode a) 8) in
      let k := xor k (charCode b) in
      xor hash (mixK k)
  | String a EmptyString =>
      let k := xor 0 (charCode a) in
      xor hash (mixK k)
  | EmptyString => hash
  end.

Definition finalize (hash len : Z) : Z :=
  let hash := xor hash len in
  let hash := xor hash (shru hash 16) in
  let hash := imul hash 0x85ebca6b in
  let hash := xor hash (shru hash 13) in
  let hash := imul hash 0xc2b2ae35 in
  let hash := xor hash (shru hash 16) in
  shru hash 0.

Definition murmurHash3 (str : string) : Z :=
  let '(hash, rest) := hashChunks seed str in
  finalize (hashTail hash rest) (strLength str).

(** *** LRUCache

    The JavaScript [Map] keeps its entries in insertion order: it is an
    association list without duplicate keys, oldest entry first. *)

Section LRU.
Context {K V : Type} `{EqDecision K}.

Fixpoint mapGet (key : K) (entries : list (K * V)) : option V :=
  match entries with
  | [] => None
  | (k, v) :: rest => if decide (k = key) then Some v else mapGet key rest
  end.

Definition mapDelete (key : K) (entries : list (K * V)) : list (K * V) :=
  filter (fun kv => fst kv ≠ key) entries.

Fixpoint mapSet (key : K) (value : V) (entries : list (K * V))
  : list (K * V) :=
  match entries with
  | [] => [(key, value)]
  | (k, v) :: rest =>
      if decide (k = key) then (k, value) :: rest
      else (k, v) :: mapSet key value rest
  end.

Record LRUCache := mkLRUCache {
  cache : list (K * V);
  maxSize : Z
}.

Definition newLRUCache (maxSize : Z) : LRUCache := mkLRUCache [] maxSize.

Definition lruSize (c : LRUCache) : Z := Z.of_nat (length (cache c)).

Definition lruGet (key : K) (c : LRUCache) : option V * LRUCache :=
  match mapGet key (cache c) with
  | Some value =>
      (Some value,
       mkLRUCache (mapSet key value (mapDelete key (cache c))) (maxSize c))
  | None => (None, c)
  end.

Definition lruSet (key : K) (value : V) (c : LRUCache) : LRUCache :=
  let entries :=
    if maxSize c <=? lruSize c then
      match cache c with
      | (firstKey, _) :: _ => mapDelete firstKey (cache c)
      | [] => cache c
      end
    else cache c in
  mkLRUCache (mapSet key value entries) (maxSize c).

Definition lruClear (c : LRUCache) : LRUCache := mkLRUCache [] (maxSize c).

(** The invariant of the cache: no more entries than [maxSize]. *)
Definition bounded (c : LRUCache) : Prop := lruSize c <= maxSize c.

(** A call of a method of the cache, and the states that a sequence of
    calls goes through. *)
Inductive LruCall : Type :=
| CallGet (key : K)
| CallSet (key : K) (value : V)
| CallClear.

Definition lruCall (call : LruCall) (c : LRUCache) : LRUCache :=
  match call with
  | CallGet key => snd (lruGet key c)
  | CallSet key value => lruSet key value c
  | CallClear => lruClear c
  end.

Fixpoint lruStates (calls : list LruCall) (c : LRUCache) : list LRUCache :=
  match calls with
  | [] => []
  | call :: rest => lruCall call c :: lruStates rest (lruCall call c)
  end.

End LRU.
Global Arguments LRUCache : clear implicits.
Global Arguments LruCall : clear implicits.

(** The module-level [similarityCache]. *)
Definition similarityCache0 : LRUCache string Q := newLRUCache MAX_CACHE_SIZE.

(** *** getSimilarity *)

(** [str.replace(/\s+/g, " ")]; [inRun] tells that the previous code unit
    was white space. *)
Fixpoint collapseWhite (inRun : bool) (s : string) : string :=
  match s with
  | EmptyString => EmptyString
  | String c s' =>
      if isWhite c then
        if inRun then collapseWhite true s'
        else String " "%char (collapseWhite true s')
      else String c (collapseWhite false s')
  end.

(** [normalizeStr]: the [normalizedStrings] WeakMap is read under a key
    object allocated by the call itself, so the lookup misses and the
    string is normalised every time. *)
Definition normalizeStr (str : string) : string :=
  trim (collapseWhite false str).

(** [distance] of the package [fastest-levenshtein]: the edit distance,
    computed row by row. *)
Fixpoint levRow (x : ascii) (b : string) (diag left : nat) (prev : list nat)
  : list nat :=
  match b, prev with
  | String y b', up :: prev' =>
      let cost := if Ascii.eqb x y then diag else S (diag `min` (left `min` up)) in
      cost :: levRow x b' up cost prev'
  | _, _ => []
  end.

Fixpoint levRows (a b : string) (row : list nat) : list nat :=
  match a with
  | EmptyString => row
  | String x a' =>
      match row with
      | d :: rest => levRows a' b (S d :: levRow x b d (S d) rest)
      | [] => []
      end
  end.

Definition distance (a b : string) : Z :=
  Z.of_nat (List.last (levRows a b (seq 0 (S (String.length b)))) 0%nat).

Definition Qltb (x y : Q) : bool := (Qnum x * QDen y <? Qnum y * QDen x)%Z.
Definition Qleb (x y : Q) : bool := (Qnum x * QDen y <=? Qnum y * QDen x)%Z.

Definition cacheKey (original search : string) : string :=
  original +:+ "|" +:+ search.

(** The score computed on a miss of the cache. *)
Definition similarity (original search : string) : Q :=
  let normalizedOriginal := normalizeStr original in
  let normalizedSearch := normalizeStr search in
  if String.eqb normalizedOriginal normalizedSearch then 1%Q
  else if murmurHash3 normalizedOriginal =? murmurHash3 normalizedSearch
  then 1%Q
  else
    let dist := distance normalizedOriginal normalizedSearch in
    let maxLength :=
      Z.max (strLength normalizedOriginal) (strLength normalizedSearch) in
    double (1 - double (inject_Z dist / inject_Z maxLength)).

Definition getSimilarity (sc : LRUCache string Q) (original search : string)
  : Q * LRUCache string Q :=
  if String.eqb search EmptyString then (1%Q, sc)
  else
    match lruGet (cacheKey original search) sc with
    | (Some cachedResult, sc') => (cachedResult, sc')
    | (None, sc') =>
        let s := similarity original search in
        (s, lruSet (cacheKey original search) s sc')
    end.


(** *** The strategy *)

Record SearchReplaceDiffStrategy := mkSearchReplaceDiffStrategy {
  fuzzyThreshold : Q;
  bufferLines : Z
}.

(** The constructor: [fuzzyThreshold ?? 1.0], [bufferLines ?? BUFFER_LINES]. *)
Definition new (fuzzyThreshold : option Q) (bufferLines : option Z)
  : SearchReplaceDiffStrategy :=
  mkSearchReplaceDiffStrategy (default 1%Q fuzzyThreshold)
    (default BUFFER_LINES bufferLines).

Definition searchMarker : string := "<<<<<<< SEARCH".
Definition dividerMarker : string := "=======".
Definition replaceMarker : string := ">>>>>>> REPLACE".

(** [diffContent.match(diffRegex)]: the two capture groups of the leftmost
    match of
    [<<<<<<< SEARCH\r?\n([\s\S]*?)\r?\n=======\r?\n([\s\S]*?)\r?\n>>>>>>> REPLACE]. *)
Definition diffMatch (diffContent : string) : option (string * string) :=
  search
    (lit searchMarker (eol (lazyStar anyChar (fun searchContent =>
       eol (lit dividerMarker (eol (lazyStar anyChar (fun replaceContent =>
         eol (lit replaceMarker (fun _ =>
           Some (searchContent, replaceContent)))))))))))
    diffContent.

Definition invalidFormatError (diffContent : string) : string :=
  let contentPreview :=
    if 200 <? strLength diffContent
    then strSlice diffContent 0 200 +:+ "..." else diffContent in
  let markers :=
    (if includes diffContent searchMarker then []
     else ["Missing start marker '<<<<<<< SEARCH'"]) ++
    (if includes diffContent dividerMarker then []
     else ["Missing divider '======='"]) ++
    (if includes diffContent replaceMarker then []
     else ["Missing end marker '>>>>>>> REPLACE'"]) in
  let missingMarkers :=
    if 0 <? Z.of_nat (length markers)
    then LF +:+ "Missing Markers:" +:+ LF +:+ join LF markers
    else LF +:+ "All markers present but in incorrect format" in
  join LF [
    "Invalid diff format - missing required SEARCH/REPLACE sections" +:+ LF;
    "Debug Info:";
    "- Expected Format:";
    "  " +:+ searchMarker;
    "  [search content]";
    "  " +:+ dividerMarker;
    "  [replace content]";
    "  " +:+ replaceMarker;
    "- Tips:";
    "  • Make sure markers are on their own lines";
    "  • Check for extra/missing newlines";
    "  • Verify exact marker spelling";
    missingMarkers;
    LF +:+ "Received Content:" +:+ LF +:+ contentPreview ].

Definition emptySearchNoStartError : string :=
  "Empty search content requires start_line to be specified" +:+ LF +:+ LF
  +:+ "Debug Info:" +:+ LF
  +:+ "- Empty search content is only valid for insertions at a specific line"
  +:+ LF
  +:+ "- For insertions, specify the line number where content should be inserted".

Definition emptySearchRangeError (startLine endLine : Z) : string :=
  "Empty search content requires start_line and end_line to be the same (got "
  +:+ pretty startLine +:+ "-" +:+ pretty endLine +:+ ")" +:+ LF +:+ LF
  +:+ "Debug Info:" +:+ LF
  +:+ "- Empty search content is only valid for insertions at a specific line"
  +:+ LF
  +:+ "- For insertions, use the same line number for both start_line and end_line".

Definition invalidRangeError (startLine endLine lines : Z) : string :=
  "Line range " +:+ pretty startLine +:+ "-" +:+ pretty endLine
  +:+ " is invalid (file has " +:+ pretty lines +:+ " lines)" +:+ LF +:+ LF
  +:+ "Debug Info:" +:+ LF
  +:+ "- Requested Range: lines " +:+ pretty startLine +:+ "-"
  +:+ pretty endLine +:+ LF
  +:+ "- File Bounds: lines 1-" +:+ pretty lines.

(** The running best candidate of the search. *)
Record Candidate := mkCandidate {
  matchIndex : Z;
  bestMatchScore : Q;
  bestMatchContent : string
}.

Definition noCandidate : Candidate := mkCandidate (-1) 0%Q EmptyString.

(** The sliding-window loop
    [for (let i = searchStartIndex; i < maxIndex; i++)]. *)
Fixpoint scan (fuel : nat) (originalLines : list string)
  (searchChunk : string) (searchHash windowSize maxIndex i : Z)
  (best : Candidate) (sc : LRUCache string Q)
  : Candidate * LRUCache string Q :=
  match fuel with
  | O => (best, sc)
  | S fuel' =>
      if i <? maxIndex then
        let chunk := join LF (slice originalLines i (i + windowSize)) in
        if murmurHash3 chunk =? searchHash then
          (mkCandidate i 1%Q chunk, sc)
        else if Z.rem i 3 =? 0 then
          let '(similarity, sc') := getSimilarity sc chunk searchChunk in
          let best' :=
            if Qltb (bestMatchScore best) similarity
            then mkCandidate i similarity chunk else best in
          if Qleb (double (95 # 100)) (bestMatchScore best')
          then (best', sc')
          else scan fuel' originalLines searchChunk searchHash windowSize
                 maxIndex (i + 1) best' sc'
        else scan fuel' originalLines searchChunk searchHash windowSize
               maxIndex (i + 1) best sc
      else (best, sc)
  end.

(** The block [if (matchIndex === -1) { ... }] around the loop. *)
Definition scanWindow (originalLines searchLines : list string)
  (searchStartIndex searchEndIndex : Z) (best : Candidate)
  (sc : LRUCache string Q) : Candidate * LRUCache string Q :=
  if matchIndex best =? -1 then
    let searchChunk := join LF searchLines in
    let searchHash := murmurHash3 searchChunk in
    let windowSize := Z.of_nat (length searchLines) in
    let maxIndex := searchEndIndex - windowSize + 1 in
    scan (Z.to_nat (maxIndex - searchStartIndex)) originalLines searchChunk
      searchHash windowSize maxIndex searchStartIndex best sc
  else (best, sc).

(** The search for the target region, from the declaration of [matchIndex]
    to the end of the loop: [inl] is the early return on an invalid line
    range. *)
Definition locate (self : SearchReplaceDiffStrategy)
  (sc : LRUCache string Q) (originalLines searchLines : list string)
  (startLine endLine : option Z)
  : (string + Candidate) * LRUCache string Q :=
  let searchChunk := join LF searchLines in
  let len := Z.of_nat (length originalLines) in
  match startLine, endLine with
  | Some sl, Some el =>
      if truthy startLine && truthy endLine then
        let exactStartIndex := sl - 1 in
        let exactEndIndex := el - 1 in
        if (exactStartIndex <? 0) || (len <? exactEndIndex)
           || (exactEndIndex <? exactStartIndex)
        then (inl (invalidRangeError sl el len), sc)
        else
          let originalChunk :=
            join LF (slice originalLines exactStartIndex (exactEndIndex + 1)) in
          let '(similarity, sc') := getSimilarity sc originalChunk searchChunk in
          if Qleb (double (fuzzyThreshold self)) similarity then
            (inr (mkCandidate exactStartIndex similarity originalChunk), sc')
          else
            let searchStartIndex := Z.max 0 (sl - (bufferLines self + 1)) in
            let searchEndIndex := Z.min len (el + bufferLines self) in
            let '(best, sc'') :=
              scanWindow originalLines searchLines searchStartIndex
                searchEndIndex noCandidate sc' in
            (inr best, sc'')
      else
        let '(best, sc') :=
          scanWindow originalLines searchLines 0 len noCandidate sc in
        (inr best, sc')
  | _, _ =>
      let '(best, sc') :=
        scanWindow originalLines searchLines 0 len noCandidate sc in
      (inr best, sc')
  end.

Section ApplyDiff.
Context {helpers : ExtractText}.

(** [Math.floor(x * 100)], as the template literal prints it. *)
Definition percent (x : Q) : string :=
  numberToString (Qfloor (double (double x * 100))).

(** The pieces of the diagnostic of a search without an acceptable
    window: the line range, and the text from "Debug Info" on. *)
Definition lineRangeText (startLine endLine : option Z) : string :=
  if truthy startLine || truthy endLine then
    " at " +:+
    (if truthy startLine then "start: " +:+ pretty (default 0 startLine)
     else "start") +:+
    " to " +:+
    (if truthy endLine then "end: " +:+ pretty (default 0 endLine)
     else "end")
  else EmptyString.

Definition noMatchDetails (self : SearchReplaceDiffStrategy)
  (startLine endLine : option Z) (originalLines : list string)
  (searchChunk : string) (best : Candidate) : string :=
  let len := Z.of_nat (length originalLines) in
  let originalContentSection :=
    match startLine, endLine with
    | Some sl, Some el =>
        LF +:+ LF +:+ "Original Content:" +:+ LF +:+
        addLineNumbers
          (join LF (slice originalLines
                      (Z.max 0 (sl - 1 - bufferLines self))
                      (Z.min len (el + bufferLines self))))
          (Some (Z.max 1 (sl - bufferLines self)))
    | _, _ =>
        LF +:+ LF +:+ "Original Content:" +:+ LF +:+
        addLineNumbers (join LF originalLines) None
    end in
  let bestMatchSection :=
    if String.eqb (bestMatchContent best) EmptyString
    then LF +:+ LF +:+ "Best Match Found:" +:+ LF +:+ "(no match)"
    else LF +:+ LF +:+ "Best Match Found:" +:+ LF +:+
         addLineNumbers (bestMatchContent best) (Some (matchIndex best + 1)) in
  LF +:+ LF +:+
  "Debug Info:" +:+ LF +:+
  "- Similarity Score: " +:+ percent (bestMatchScore best) +:+ "%" +:+ LF +:+
  "- Required Threshold: " +:+ percent (fuzzyThreshold self) +:+ "%" +:+ LF +:+
  "- Search Range: " +:+
  (if truthy startLine && truthy endLine
   then "lines " +:+ pretty (default 0 startLine) +:+ "-" +:+
        pretty (default 0 endLine)
   else "start to end") +:+ LF +:+
  "- Tip: Use read_file to get the latest content of the file before attempting the diff again, as the file content may have changed"
  +:+ LF +:+ LF +:+
  "Search Content:" +:+ LF +:+ searchChunk +:+ bestMatchSection +:+
  originalContentSection.

Definition noMatchError (self : SearchReplaceDiffStrategy)
  (startLine endLine : option Z) (originalLines : list string)
  (searchChunk : string) (best : Candidate) : string :=
  "No sufficiently similar match found" +:+ lineRangeText startLine endLine
  +:+ " (" +:+ percent (bestMatchScore best) +:+ "% similar, needs " +:+
  percent (fuzzyThreshold self) +:+ "%)" +:+
  noMatchDetails self startLine endLine originalLines searchChunk best.

(** [line.match(/^[\t ]*/)[0]] *)
Fixpoint getIndent (line : string) : string :=
  match line with
  | String c rest =>
      if Ascii.eqb c "009"%char || Ascii.eqb c " "%char
      then String c (getIndent rest) else EmptyString
  | EmptyString => EmptyString
  end.

Definition indentLine (originalIndent : string) (searchBaseLevel : Z)
  (line : string) : string :=
  let currentIndent := getIndent line in
  let currentLevel := strLength currentIndent in
  let relativeLevel := currentLevel - searchBaseLevel in
  let finalIndent :=
    if relativeLevel <? 0 then
      strSlice originalIndent 0
        (Z.max 0 (strLength originalIndent + relativeLevel))
    else originalIndent +:+ strSliceFrom currentIndent searchBaseLevel in
  finalIndent +:+ trim line.

(** The splice of the replacement into the document, from [matchedLines]
    to [finalContent]. *)
Definition spliceReplacement (originalLines searchLines replaceLines
  : list string) (lineEnding : string) (matchIndex : Z)
  : string * list string :=
  let windowSize := Z.of_nat (length searchLines) in
  let matchedLines := slice originalLines matchIndex (matchIndex + windowSize) in
  let originalIndent := getIndent (default EmptyString (head matchedLines)) in
  let searchBaseIndent := getIndent (default EmptyString (head searchLines)) in
  let searchBaseLevel := strLength searchBaseIndent in
  let indentedReplaceLines :=
    map (indentLine originalIndent searchBaseLevel) replaceLines in
  let finalParts :=
    (if 0 <? matchIndex
     then [join lineEnding (slice originalLines 0 matchIndex)] else []) ++
    [join lineEnding indentedReplaceLines] ++
    (if matchIndex + windowSize <? Z.of_nat (length originalLines)
     then [join lineEnding (sliceFrom originalLines (matchIndex + windowSize))]
     else []) in
  (join lineEnding finalParts, indentedReplaceLines).

(** The two sections of the block after the optional removal of line
    numbers, or [None] when the block is malformed. *)
Definition extractSections (diffContent : string) : option (string * string) :=
  match diffMatch diffContent with
  | None => None
  | Some (searchContent, replaceContent) =>
      if everyLineHasLineNumbers searchContent
         && everyLineHasLineNumbers replaceContent
      then Some (stripLineNumbers searchContent, stripLineNumbers replaceContent)
      else Some (searchContent, replaceContent)
  end.

Definition sectionLines (content : string) : list string :=
  if String.eqb content EmptyString then [] else splitLines content.

(** The two guards on an empty search section. *)
Definition emptySearchCheck (searchLines : list string)
  (startLine endLine : option Z) : option string :=
  if (Z.of_nat (length searchLines) =? 0) && negb (truthy startLine)
  then Some emptySearchNoStartError
  else if (Z.of_nat (length searchLines) =? 0)
          && truthy startLine && truthy endLine
          && negb (default 0 startLine =? default 0 endLine)
  then Some (emptySearchRangeError (default 0 startLine) (default 0 endLine))
  else None.

(** [applyDiff], threading the shared [similarityCache]. *)
Definition applyDiff (self : SearchReplaceDiffStrategy)
  (sc : LRUCache string Q) (originalContent diffContent : string)
  (options : ApplyOptions) : DiffResult * LRUCache string Q :=
  match extractSections diffContent with
  | None => (Failure (invalidFormatError diffContent) None, sc)
  | Some (searchContent, replaceContent) =>
      let lineEnding := if includes originalContent CRLF then CRLF else LF in
      let searchLines := sectionLines searchContent in
      let replaceLines := sectionLines replaceContent in
      let originalLines := splitLines originalContent in
      match emptySearchCheck searchLines (startLine options)
              (endLine options) with
      | Some err => (Failure err None, sc)
      | None =>
        match locate self sc originalLines searchLines
                (startLine options) (endLine options) with
        | (inl err, sc') => (Failure err None, sc')
        | (inr best, sc') =>
            if (matchIndex best =? -1)
               || Qltb (bestMatchScore best) (double (fuzzyThreshold self))
            then
              (Failure (noMatchError self (startLine options)
                          (endLine options) originalLines
                          (join LF searchLines) best) None, sc')
            else
              let '(finalContent, indentedReplaceLines) :=
                spliceReplacement originalLines searchLines replaceLines
                  lineEnding (matchIndex best) in
              (Success finalContent
                 (Z.of_nat (length indentedReplaceLines))
                 (if collectMetrics options
                  then Some (mkDiffMetrics (bestMatchScore best)) else None),
               sc')
        end
      end
  end.

(** *** Notions used in the statements *)

(** The window of [windowSize] lines at index [i], as the loop reads it. *)
Definition window (originalLines : list string) (windowSize i : Z) : string :=
  join LF (slice originalLines i (i + windowSize)).

(** What [getSimilarity] returns when the cache has no entry. *)
Definition uncachedScore (original search : string) : Q :=
  if String.eqb search EmptyString then 1%Q else similarity original search.

(** The entries of the cache that belong to the search text [search] hold
    the score of their pair. *)
Definition consistent (search : string) (sc : LRUCache string Q) : Prop :=
  forall (original : string) (v : Q),
    mapGet (cacheKey original search) (cache sc) = Some v ->
    v = similarity original search.

(** The cache has the capacity [n] and holds at most [n] entries. *)
Definition capped (n : Z) (sc : LRUCache string Q) : Prop :=
  maxSize sc = n /\ lruSize sc <= n.

(** A call of [applyDiff] and the cache after a sequence of calls, on any
    instances of the strategy. *)
Definition Call : Type :=
  SearchReplaceDiffStrategy * string * string * ApplyOptions.

Definition cacheAfter (calls : list Call) (sc : LRUCache string Q)
  : LRUCache string Q :=
  foldl (fun sc '(self, originalContent, diffContent, options) =>
           snd (applyDiff self sc originalContent diffContent options))
    sc calls.

(** No window before index [j] that the loop scores (every third one)
    reaches the score 0.95 at which the loop stops. *)
Definition noEarlierNearMatch (originalLines searchLines : list string)
  (j : Z) : Prop :=
  let searchChunk := join LF searchLines in
  let windowSize := Z.of_nat (length searchLines) in
  forall k : Z,
    0 <= k < j -> Z.rem k 3 = 0 ->
    Qltb (uncachedScore (window originalLines windowSize k) searchChunk)
      (double (95 # 100)) = true.

(** The last code unit of a text, if it has one: [text.at(-1)]. *)
Fixpoint lastCodeUnit (text : string) : option ascii :=
  match text with
  | EmptyString => None
  | String c EmptyString => Some c
  | String _ rest => lastCodeUnit rest
  end.

(** No window of the document passes: none has the hash of the search
    text and none of those that are scored reaches the threshold. *)
Definition noWindowPasses (threshold : Q) (originalLines searchLines
  : list string) : Prop :=
  let searchChunk := join LF searchLines in
  let windowSize := Z.of_nat (length searchLines) in
  forall i : Z,
    0 <= i < Z.of_nat (length originalLines) - windowSize + 1 ->
    murmurHash3 (window originalLines windowSize i) <> murmurHash3 searchChunk
    /\ (Z.rem i 3 = 0 ->
        Qltb (uncachedScore (window originalLines windowSize i) searchChunk)
          threshold = true).

End ApplyDiff.

End SearchReplace.

(** ** Parallel strategy ([strategies/parallel.ts])

    The selector builds an instance; [applyDiff] cuts the document into
    chunks of lines, hands every hunk of the diff to one chunk, and joins
    the chunks again. *)

Module Parallel.

Record ParallelDiffStrategy := mkParallelDiffStrategy {
  fuzzyMatchThreshold : Q
}.

Definition CHUNK_SIZE : Z := 1024 * 1024.

(** The constructor, with its default parameter [0.9]. *)
Definition new (fuzzyMatchThreshold : option Q) : ParallelDiffStrategy :=
  mkParallelDiffStrategy (default (9 # 10)%Q fuzzyMatchThreshold).

Import JS.
Local Open Scope Z_scope.

Definition LF : string := String "010"%char EmptyString.

(** [MAX_WORKERS = navigator.hardwareConcurrency || 4] *)
Definition MAX_WORKERS (hardwareConcurrency : option Z) : Z :=
  if truthy hardwareConcurrency then default 0 hardwareConcurrency else 4.

(** A hunk of this strategy: [{ start, end, content }]. *)
Record Hunk := mkHunk {
  start : Z;
  end_ : Z;
  content : string
}.

(** [parseHunkHeader], on the regular expression that the Optimized
    Unified strategy uses too. *)
Definition parseHunkHeader (header : string) : completion (Z * Z) :=
  match OptimizedUnified.hunkHeaderMatch header with
  | None => Throw "Invalid hunk header format"
  | Some (g1, g2) => Normal (parseInt g1, parseInt g2)
  end.

Definition pushCurrent (hunks : list Hunk) (currentHunk : option Hunk)
  : list Hunk :=
  match currentHunk with
  | Some h => hunks ++ [h]
  | None => hunks
  end.

(** The loop of [parseUnifiedDiff] over the lines of the diff. *)
Fixpoint parseLines (lines : list string) (hunks : list Hunk)
  (currentHunk : option Hunk) : completion (list Hunk) :=
  match lines with
  | [] => Normal (pushCurrent hunks currentHunk)
  | line :: rest =>
      if startsWith line "@@" then
        match parseHunkHeader line with
        | Throw msg => Throw msg
        | Normal (start, _) =>
            parseLines rest (pushCurrent hunks currentHunk)
              (Some {| start := start; end_ := start;
                       content := line +:+ LF |})
        end
      else
        match currentHunk with
        | Some h =>
            parseLines rest hunks
              (Some {| start := start h;
                       end_ := if startsWith line "+" then end_ h + 1
                               else end_ h;
                       content := content h +:+ line +:+ LF |})
        | None => parseLines rest hunks None
        end
  end.

Definition parseUnifiedDiff (diffContent : string) : completion (list Hunk) :=
  parseLines (split "010" diffContent) [] None.

Definition formatHunk (hunk : Hunk) : string := content hunk.

(** The loop of [splitIntoChunks]:
    [for (let i = 0; i < lines.length; i += chunkSize)]. *)
Fixpoint chunkLoop (fuel : nat) (i chunkSize : Z) (lines : list string)
  : list string :=
  match fuel with
  | O => []
  | S fuel' =>
      if i <? Z.of_nat (length lines) then
        join LF (slice lines i (i + chunkSize))
          :: chunkLoop fuel' (i + chunkSize) chunkSize lines
      else []
  end.

(** [splitIntoChunks], for a positive number of workers. *)
Definition splitIntoChunks (maxWorkers : Z) (content : string)
  : list string :=
  let lines := split "010" content in
  let chunkSize :=
    OptimizedUnified.ceilDiv (Z.of_nat (length lines)) maxWorkers in
  chunkLoop (length lines) 0 chunkSize lines.

(** [Math.floor(hunk.start / (this.CHUNK_SIZE / numChunks))], each of the
    two quotients rounded as a binary64 quotient is. [numChunks] is the
    length of an array, so that both are in the range of the normal
    numbers, where [round53] is [double]. *)
Definition chunkIndexOf (start numChunks : Z) : Z :=
  Qfloor (round53 (inject_Z start
                   / round53 (inject_Z CHUNK_SIZE / inject_Z numChunks))).

(** [splitDiff]: [start] is read from digits and is not negative, so
    [chunkIndex] is an index of the array when it is below [numChunks]. *)
Definition splitDiff (diffContent : string) (numChunks : Z)
  : completion (list string) :=
  hunks ← parseUnifiedDiff diffContent;
  Normal
    (foldl (fun diffChunks hunk =>
              let chunkIndex := chunkIndexOf (start hunk) numChunks in
              if chunkIndex <? numChunks then
                alter (fun chunk => chunk +:+ formatHunk hunk)
                  (Z.to_nat chunkIndex) diffChunks
              else diffChunks)
       (replicate (Z.to_nat numChunks) EmptyString) hunks).

(** The inner loop of [processChunk] over the lines of one hunk. *)
Fixpoint applyHunkLines (hunkLines lines : list string)
  (lineIndex appliedLines : Z) : list string * Z :=
  match hunkLines with
  | [] => (lines, appliedLines)
  | line :: rest =>
      if startsWith line "+" then
        applyHunkLines rest (splice lines lineIndex 0 [strSliceFrom line 1])
          (lineIndex + 1) (appliedLines + 1)
      else if startsWith line "-" then
        applyHunkLines rest (splice lines lineIndex 1 []) lineIndex
          appliedLines
      else if startsWith line " " then
        applyHunkLines rest lines (lineIndex + 1) appliedLines
      else applyHunkLines rest lines lineIndex appliedLines
  end.

(** The outer loop of [processChunk] over the hunks. *)
Fixpoint applyHunks (hunks : list Hunk) (lines : list string)
  (appliedLines : Z) : list string * Z :=
  match hunks with
  | [] => (lines, appliedLines)
  | hunk :: rest =>
      let '(lines', appliedLines') :=
        applyHunkLines (split "010" (content hunk)) lines (start hunk)
          appliedLines in
      applyHunks rest lines' appliedLines'
  end.

(** The result of [processChunk]: [{ content, appliedLines, metrics }]. *)
Record ChunkResult := mkChunkResult {
  chunkContent : string;
  chunkAppliedLines : Z;
  chunkMetrics : option DiffMetrics
}.

Definition processChunk (chunk diffChunk : string)
  : completion ChunkResult :=
  let lines := split "010" chunk in
  hunks ← parseUnifiedDiff diffChunk;
  let '(lines', appliedLines) := applyHunks hunks lines 0 in
  Normal (mkChunkResult (join LF lines') appliedLines
            (Some (mkDiffMetrics 1))).

(** [chunks.map((chunk, index) => this.processChunk(chunk,
    diffChunks[index]))] under [Promise.all]: the calls run in the order of
    the chunks, and the first rejection is the one that [await] throws.
    Reading [split] of a missing [diffChunks[index]] throws a TypeError. *)
Fixpoint processChunks (chunks diffChunks : list string) (index : nat)
  : completion (list ChunkResult) :=
  match chunks with
  | [] => Normal []
  | chunk :: rest =>
      match diffChunks !! index with
      | None => Throw "Cannot read properties of undefined (reading 'split')"
      | Some diffChunk =>
          r ← processChunk chunk diffChunk;
          rs ← processChunks rest diffChunks (S index);
          Normal (r :: rs)
      end
  end.

Definition mergeResults (results : list ChunkResult) : string :=
  join LF (map chunkContent results).

(** The mean of the accuracy scores of the chunks, in lowest terms. *)
Definition meanAccuracy (results : list ChunkResult) : Q :=
  Qred (foldl (fun sum r =>
                 sum + from_option accuracyScore 0 (chunkMetrics r))%Q
          0%Q results
        / inject_Z (Z.of_nat (length results))).

(** The body of the [try] block of [applyDiff]. *)
Definition applyDiffBody (hardwareConcurrency : option Z)
  (originalContent diffContent : string) (options : ApplyOptions)
  : completion DiffResult :=
  let chunks := splitIntoChunks (MAX_WORKERS hardwareConcurrency)
                  originalContent in
  diffChunks ← splitDiff diffContent (Z.of_nat (length chunks));
  results ← processChunks chunks diffChunks 0;
  let mergedContent := mergeResults results in
  let appliedLines :=
    foldl (fun sum r => sum + chunkAppliedLines r) 0 results in
  Normal (Success mergedContent appliedLines
            (if collectMetrics options
             then Some (mkDiffMetrics (meanAccuracy results)) else None)).

Definition applyDiff (self : ParallelDiffStrategy)
  (hardwareConcurrency : option Z) (originalContent diffContent : string)
  (options : ApplyOptions) : DiffResult :=
  match applyDiffBody hardwareConcurrency originalContent diffContent
          options with
  | Normal r => r
  | Throw msg =>
      Failure ("Failed to apply parallel diff: " +:+ msg) (Some [])
  end.

End Parallel.

(** ** AST-Aware strategy ([strategies/ast-aware.ts])

    The strategy parses, rewrites and prints the document with Babel; the
    embedding keeps its language gate, which runs first, and takes the
    statements that follow it as a parameter. *)

Module AstAware.
Import JS.

Record AstAwareStrategy := mkAstAwareStrategy {
  fuzzyMatchThreshold : Q;
  maxCacheSize : Z
}.

(** The constructor, with its default parameters [0.9] and [50]. *)
Definition new (fuzzyMatchThreshold : option Q) (maxCacheSize : option Z)
  : AstAwareStrategy :=
  mkAstAwareStrategy (default (9 # 10)%Q fuzzyMatchThreshold)
    (default 50%Z maxCacheSize).

(** [filePath.split(".").pop()?.toLowerCase()] *)
Definition extension (filePath : string) : string :=
  toLowerCase (default EmptyString (last (split "." filePath))).

Definition detectLanguage (filePath : option string) : string :=
  match filePath with
  | None => "javascript"
  | Some fp =>
      if String.eqb fp EmptyString then "javascript"
      else
        let ext := extension fp in
        if String.eqb ext "js" || String.eqb ext "jsx" then "javascript"
        else if String.eqb ext "ts" || String.eqb ext "tsx" then "typescript"
        else "unknown"
  end.

Definition isLanguageSupported (language : string) : bool :=
  bool_decide (language ∈ ["javascript"; "typescript"]).

Section ApplyDiff.
(** The statements of the [try] block after the language check, given the
    detected language. *)
Variable pipeline :
  AstAwareStrategy -> string -> string -> string -> ApplyOptions ->
  completion DiffResult.

Definition applyDiffBody (self : AstAwareStrategy) (originalContent
  diffContent : string) (options : ApplyOptions) : completion DiffResult :=
  let language := detectLanguage (path <$> fileStats options) in
  if negb (isLanguageSupported language) then
    Throw ("Language " +:+ language
           +:+ " is not supported for AST-aware diffing")
  else pipeline self originalContent diffContent language options.

Definition applyDiff (self : AstAwareStrategy) (originalContent
  diffContent : string) (options : ApplyOptions) : DiffResult :=
  match applyDiffBody self originalContent diffContent options with
  | Normal r => r
  | Throw msg =>
      Failure ("Failed to apply AST-aware diff: " +:+ msg) (Some [])
  end.

End ApplyDiff.

End AstAware.

(** ** Packages used by the Smart Hybrid strategy

    [crypto] (the hex digest of the concatenated updates), [Buffer], and
    the cache of the package [lru-cache], whose clock is the argument
    [now]. *)

Class NodeCrypto := {
  sha1 : string -> string;
  sha256 : string -> string
}.

Class NodeBuffer := {
  fromBase64 : string -> string;
  bufferToString : string -> string
}.

Class LruCachePkg (V : Type) := {
  HotCache : Type;
  hotNew : Z -> Z -> HotCache;
  hotGet : Z -> string -> HotCache -> option V * HotCache;
  hotSet : Z -> string -> V -> HotCache -> HotCache
}.
Global Arguments HotCache V {_}.

(** ** The cache of parsed documents ([strategies/ast-aware.ts], [AstCache])

    The cache of the AST-Aware strategy keeps syntax trees under the
    SHA-256 digest of the text they were parsed from, with the time of
    their last use. The trees are values of a type [File] that the
    embedding leaves open; every reading of [Date.now()] is an argument. *)

Module AstCache.
Import JS.
Local Open Scope Z_scope.

Section Cache.
Context {crypto : NodeCrypto}.
Variable File : Type.

(** [{ ast, lastUsed }] *)
Record Entry := mkEntry {
  ast : File;
  lastUsed : Z
}.

(** The [Map] in insertion order, and [maxSize]. *)
Record AstCache := mkAstCache {
  cache : list (string * Entry);
  maxSize : Z
}.

(** The constructor, with its default parameter [50]. *)
Definition new (maxSize : option Z) : AstCache :=
  mkAstCache [] (default 50 maxSize).

Definition hashContent (content : string) : string := sha256 content.

(** [get(content)], at the time [now]: the entry that is found stays at its
    place in the map and gets a new [lastUsed]. *)
Definition get (now : Z) (content : string) (c : AstCache)
  : option File * AstCache :=
  let hash := hashContent content in
  match SearchReplace.mapGet hash (cache c) with
  | Some entry =>
      (Some (ast entry),
       mkAstCache
         (SearchReplace.mapSet hash (mkEntry (ast entry) now) (cache c))
         (maxSize c))
  | None => (None, c)
  end.

(** The [forEach] of [set]: [oldest] starts at [Date.now()] and [oldestKey]
    at the empty string; an entry takes their place when its [lastUsed] is
    strictly less than [oldest]. *)
Definition oldestOf (now : Z) (entries : list (string * Entry))
  : Z * string :=
  foldl (fun '(oldest, oldestKey) '(key, entry) =>
           if lastUsed entry <? oldest then (lastUsed entry, key)
           else (oldest, oldestKey))
    (now, EmptyString) entries.

(** [set(content, ast)]: [now] is the time read for the eviction and
    [stored] the time read for the new entry. *)
Definition set (now stored : Z) (content : string) (tree : File)
  (c : AstCache) : AstCache :=
  let entries :=
    if maxSize c <=? Z.of_nat (length (cache c)) then
      let oldestKey := snd (oldestOf now (cache c)) in
      if negb (String.eqb oldestKey EmptyString)
      then SearchReplace.mapDelete oldestKey (cache c)
      else cache c
    else cache c in
  mkAstCache
    (SearchReplace.mapSet (hashContent content) (mkEntry tree stored) entries)
    (maxSize c).

End Cache.
Global Arguments Entry : clear implicits.
Global Arguments AstCache : clear implicits.
Global Arguments mkEntry {File} ast lastUsed.
Global Arguments mkAstCache {File} cache maxSize.
Global Arguments ast {File} _.
Global Arguments lastUsed {File} _.
Global Arguments cache {File} _.
Global Arguments maxSize {File} _.
Global Arguments new {File} maxSize.
Global Arguments get {crypto File} now content c.
Global Arguments oldestOf {File} now entries.
Global Arguments set {crypto File} now stored content tree c.

End AstCache.

(** ** Smart Hybrid strategy ([strategies/smart-hybrid.ts]) *)

Module SmartHybrid.
Import JS.
Local Open Scope Z_scope.

Record HybridHash := mkHybridHash {
  structural : string;
  semantic : string;
  chunks : list string
}.

Record CacheEntry := mkCacheEntry {
  hash : HybridHash;
  result : string;
  timestamp : Z
}.

Definition CHUNK_SIZE : Z := 64.
Definition CACHE_MAX_SIZE : Z := 10000.
Definition CACHE_TTL : Z := 1000 * 60 * 60.

Definition LF : string := String "010"%char EmptyString.
Definition QUOTE : string := String "034"%char EmptyString.

(** An object of the JavaScript heap is known by its reference; the heap
    hands out the references in increasing order. *)
Definition ref : Type := nat.

Record Heap := mkHeap {
  nextRef : ref
}.

(** [{ content: originalContent }]: a new object. *)
Definition allocate (h : Heap) : ref * Heap :=
  (nextRef h, mkHeap (S (nextRef h))).

Section Strategy.
Context {crypto : NodeCrypto} {nodeBuffer : NodeBuffer}
  {lruPkg : LruCachePkg CacheEntry}.

(** The instance: the hot cache and the [WeakMap], keyed by object
    identity. The hashers and the arrays [chunkHashes] and [chunks] are
    set anew by every call before they are read. *)
Record SmartHybridStrategy := mkSmartHybridStrategy {
  hotCache : HotCache CacheEntry;
  warmCache : gmap ref CacheEntry
}.

Definition new : SmartHybridStrategy :=
  mkSmartHybridStrategy (hotNew CACHE_MAX_SIZE CACHE_TTL) ∅.

(** [/^func\s+(\w+|\(\w+\s+\*?\w+\))\s*\((.*?)\)(\s*\(.*?\))?\s*{?$/] *)
Definition funcTail (name : string) : string -> option (string * string) :=
  classStar isWhite (fun _ =>
    lit "(" (lazyStar dotChar (fun params =>
      lit ")" (optional
        (fun k => classStar isWhite (fun _ =>
           lit "(" (lazyStar dotChar (fun _ => lit ")" k))))
        (classStar isWhite (fun _ =>
           optional (lit "{") (atEnd (Some (name, params))))))))).

(** The receiver form [\(\w+\s+\*?\w+\)] of the first group. *)
Definition receiver {A} (k : string -> string -> option A)
  : string -> option A :=
  lit "(" (classPlus isWord (fun w1 =>
    classPlus isWhite (fun ws =>
      altCap (fun k' => lit "*" (k' "*")) (fun k' => k' EmptyString)
        (fun star => classPlus isWord (fun w2 =>
           lit ")" (k ("(" +:+ w1 +:+ ws +:+ star +:+ w2 +:+ ")"))))))).

Definition funcMatch (line : string) : option (string * string) :=
  lit "func" (classPlus isWhite (fun _ =>
    altCap (classPlus isWord) receiver funcTail)) line.

Definition extractGoFuncSignature (line : string) : string :=
  match funcMatch line with
  | Some (name, params) =>
      name +:+ "(" +:+ removeWhite params +:+ ")"
  | None => line
  end.

(** [/^type\s+(\w+)\s+(.+?)(\s+{)?$/] *)
Definition typeMatch (line : string) : option (string * string) :=
  lit "type" (classPlus isWhite (fun _ =>
    classPlus isWord (fun name =>
      classPlus isWhite (fun _ =>
        lazyPlus dotChar (fun definition =>
          optional (fun k => classPlus isWhite (fun _ => lit "{" k))
            (atEnd (Some (name, definition)))))))) line.

Definition extractGoTypeDefinition (line : string) : string :=
  match typeMatch line with
  | Some (name, definition) => name +:+ ":" +:+ trim definition
  | None => line
  end.

(** [/^import\s+(\(|\")(.+?)(\)|\")/], of which the second group is
    read. *)
Definition importMatch (line : string) : option string :=
  lit "import" (classPlus isWhite (fun _ =>
    alt (lit "(") (lit QUOTE)
      (lazyPlus dotChar (fun g =>
         alt (lit ")") (lit QUOTE) (fun _ => Some g))))) line.

Definition normalizeGoImports (line : string) : string :=
  match importMatch line with
  | Some g => trim g
  | None => line
  end.

(** [this.chunks], the slices of [CHUNK_SIZE] code units. *)
Fixpoint chunkLoop (fuel : nat) (content : string) : list string :=
  match fuel with
  | O => []
  | S fuel' =>
      match content with
      | EmptyString => []
      | String _ _ =>
          strTake (Z.to_nat CHUNK_SIZE) content
            :: chunkLoop fuel' (strDrop (Z.to_nat CHUNK_SIZE) content)
      end
  end.

Definition chunkContent (content : string) : list string :=
  chunkLoop (String.length content) content.

(** What a line feeds to [structuralHasher.update]. *)
Definition structuralToken (fileExt : option string) (line : string)
  : string :=
  let trimmedLine := trim line in
  if bool_decide (fileExt = Some "go") then
    if startsWith trimmedLine "func " then
      "func:" +:+ extractGoFuncSignature trimmedLine
    else if startsWith trimmedLine "type " then
      "type:" +:+ extractGoTypeDefinition trimmedLine
    else if startsWith trimmedLine "package " then
      "package:" +:+ default "undefined" (split " " trimmedLine !! 1%nat)
    else if startsWith trimmedLine "import " then
      "import:" +:+ normalizeGoImports trimmedLine
    else trimmedLine
  else trimmedLine.

(** [fileStats?.path?.split(".").pop()?.toLowerCase()] *)
Definition fileExtension (fileStats : option FileStats) : option string :=
  (fun fs => toLowerCase (default EmptyString (last (split "." (path fs)))))
    <$> fileStats.

Definition generateHybridHash (content : string)
  (fileStats : option FileStats) : HybridHash :=
  let lines := split "010" content in
  let fileExt := fileExtension fileStats in
  {| structural :=
       sha1 (join EmptyString (map (structuralToken fileExt) lines));
     semantic := sha256 content;
     chunks := map sha1 (chunkContent content) |}.

(** The two regular expressions of [parseDiffContent]:
    [/<<<<<<< SEARCH\n([\s\S]*?)\n=======\n/] and
    [/=======\n([\s\S]*?)\n>>>>>>> REPLACE/]. *)
Definition searchMatch (diffContent : string) : option string :=
  search
    (lit ("<<<<<<< SEARCH" +:+ LF) (lazyStar anyChar (fun g =>
       lit (LF +:+ "=======" +:+ LF) (fun _ => Some g))))
    diffContent.

Definition replaceMatch (diffContent : string) : option string :=
  search
    (lit ("=======" +:+ LF) (lazyStar anyChar (fun g =>
       lit (LF +:+ ">>>>>>> REPLACE") (fun _ => Some g))))
    diffContent.

Definition parseDiffContent (diffContent : string)
  : completion (string * string) :=
  match searchMatch diffContent, replaceMatch diffContent with
  | Some searchContent, Some replaceContent =>
      Normal (searchContent, replaceContent)
  | _, _ => Throw "Invalid diff format"
  end.

Definition isCborEncoded (content : string) : bool :=
  startsWith content "base64:" &&
  match fromBase64 (strSliceFrom content 7) with
  | String c _ => charCode c =? 0xd9
  | EmptyString => false
  end.

Definition decodeCbor (content : string) : completion string :=
  if negb (startsWith content "base64:") then Throw "Invalid CBOR format"
  else
    let binary := fromBase64 (strSliceFrom content 7) in
    Normal (bufferToString (strSliceFrom binary 2)).

Definition getCacheKey (hash : HybridHash) (diffContent : string) : string :=
  structural hash +:+ ":" +:+ semantic hash +:+ ":" +:+ sha1 diffContent.

(** [JSON.stringify] is one-to-one on arrays of strings. *)
Definition hashesMatch (a b : HybridHash) : bool :=
  String.eqb (structural a) (structural b)
  && String.eqb (semantic a) (semantic b)
  && bool_decide (chunks a = chunks b).

(** [collectMetrics] makes [startTime] and [startMemory] truthy. *)
Definition createSuccessResult (content : string) (collectMetrics : bool)
  : DiffResult :=
  Success content (Z.of_nat (length (split "010" content)))
    (if collectMetrics then Some (mkDiffMetrics 1) else None).

(** [str.replace(/\r\n/g, "\n")] *)
Fixpoint normalizeLineEndings (s : string) : string :=
  match s with
  | EmptyString => EmptyString
  | String c s' =>
      if Ascii.eqb c "013"%char && String.prefix LF s'
      then normalizeLineEndings s'
      else String c (normalizeLineEndings s')
  end.

(** The replacement text of [String.prototype.replace] with a string
    pattern: [$$], [$&], [$`] and [$'] are expanded. *)
Fixpoint expandReplacement (before matched after replacement : string)
  : string :=
  match replacement with
  | String "$" (String c rest as tail) =>
      if Ascii.eqb c "$"%char then
        String "$" (expandReplacement before matched after rest)
      else if Ascii.eqb c "&"%char then
        matched +:+ expandReplacement before matched after rest
      else if Ascii.eqb c "`"%char then
        before +:+ expandReplacement before matched after rest
      else if Ascii.eqb c "'"%char then
        after +:+ expandReplacement before matched after rest
      else String "$" (expandReplacement before matched after tail)
  | String c rest => String c (expandReplacement before matched after rest)
  | EmptyString => EmptyString
  end.

(** [str.replace(pattern, replacement)]: the first occurrence, if any. *)
Fixpoint replaceFrom (before str pattern replacement : string) : string :=
  match stripPrefix pattern str with
  | Some after =>
      String.rev before
      +:+ expandReplacement (String.rev before) pattern after replacement
      +:+ after
  | None =>
      match str with
      | EmptyString => String.rev before
      | String c str' =>
          replaceFrom (String c before) str' pattern replacement
      end
  end.

Definition strReplace (str pattern replacement : string) : string :=
  replaceFrom EmptyString str pattern replacement.

(** The statements of [applyDiff] from the chunking to the end: the
    replacement is computed and stored in both caches. *)
Definition recompute (self : SmartHybridStrategy) (now : Z)
  (contentKey : ref) (hash : HybridHash) (cacheKey : string)
  (originalContent searchContent replaceContent : string)
  (collectMetrics : bool) : DiffResult * SmartHybridStrategy :=
  let normalizedSearchContent := normalizeLineEndings searchContent in
  let normalizedOriginalContent := normalizeLineEndings originalContent in
  if includes normalizedOriginalContent normalizedSearchContent then
    let processedContent :=
      strReplace normalizedOriginalContent normalizedSearchContent
        (normalizeLineEndings replaceContent) in
    let cacheEntry := mkCacheEntry hash processedContent now in
    (createSuccessResult processedContent collectMetrics,
     mkSmartHybridStrategy
       (hotSet now cacheKey cacheEntry (hotCache self))
       (<[contentKey := cacheEntry]> (warmCache self)))
  else
    (Failure "Search content not found in original content" None, self).

(** [if (this.isCborEncoded(originalContent))
      originalContent = this.decodeCbor(originalContent)] *)
Definition decodeOriginal (originalContent : string) : completion string :=
  if isCborEncoded originalContent then decodeCbor originalContent
  else Normal originalContent.

(** The body of the [try] block of [applyDiff]. *)
Definition applyDiffBody (self : SmartHybridStrategy) (heap : Heap)
  (now : Z) (originalContent diffContent : string) (options : ApplyOptions)
  : completion (DiffResult * SmartHybridStrategy * Heap) :=
  originalContent ← decodeOriginal originalContent;
  '(searchContent, replaceContent) ← parseDiffContent diffContent;
  let hybridHash := generateHybridHash originalContent (fileStats options) in
  let cacheKey := getCacheKey hybridHash diffContent in
  let '(hotCacheHit, hot') := hotGet now cacheKey (hotCache self) in
  let self := mkSmartHybridStrategy hot' (warmCache self) in
  match hotCacheHit with
  | Some entry =>
      Normal (createSuccessResult (result entry) (collectMetrics options),
              self, heap)
  | None =>
      let '(contentKey, heap') := allocate heap in
      match warmCache self !! contentKey with
      | Some entry =>
          if hashesMatch (hash entry) hybridHash then
            Normal (createSuccessResult (result entry)
                      (collectMetrics options), self, heap')
          else
            let '(r, self') :=
              recompute self now contentKey hybridHash cacheKey originalContent
                searchContent replaceContent (collectMetrics options) in
            Normal (r, self', heap')
      | None =>
          let '(r, self') :=
            recompute self now contentKey hybridHash cacheKey originalContent
              searchContent replaceContent (collectMetrics options) in
          Normal (r, self', heap')
      end
  end.

Definition applyDiff (self : SmartHybridStrategy) (heap : Heap) (now : Z)
  (originalContent diffContent : string) (options : ApplyOptions)
  : DiffResult * SmartHybridStrategy * Heap :=
  match applyDiffBody self heap now originalContent diffContent options with
  | Normal r => r
  | Throw msg => (Failure msg None, self, heap)
  end.

(** *** Notions used in the statements *)

(** The index of the first occurrence of a text, [str.indexOf(pattern)],
    with [None] for -1. *)
Fixpoint indexOf (str pattern : string) : option nat :=
  if String.prefix pattern str then Some 0%nat
  else
    match str with
    | EmptyString => None
    | String _ str' => S <$> indexOf str' pattern
    end.

(** Every key of the [WeakMap] is an object that exists: its reference
    was handed out before. *)
Definition wellFormed (self : SmartHybridStrategy) (heap : Heap) : Prop :=
  forall r : ref, (nextRef heap <= r)%nat -> warmCache self !! r = None.

(** The states of an instance and of the heap in the course of a program:
    the instance is built, [applyDiff] is called on it, and the rest of
    the program allocates objects. *)
Inductive reachable : SmartHybridStrategy -> Heap -> Prop :=
| reachable_new (heap : Heap) : reachable new heap
| reachable_applyDiff (self : SmartHybridStrategy) (heap : Heap) (now : Z)
    (originalContent diffContent : string) (options : ApplyOptions) :
    reachable self heap ->
    reachable
      (snd (fst (applyDiff self heap now originalContent diffContent options)))
      (snd (applyDiff self heap now originalContent diffContent options))
| reachable_allocate (self : SmartHybridStrategy) (heap : Heap) :
    reachable self heap -> reachable self (snd (allocate heap)).

End Strategy.
End SmartHybrid.

(** ** The strategy selector ([diff/DiffStrategy.ts]) *)

Module Selector.
Import JS.
Local Open Scope Z_scope.

Definition LARGE_FILE_THRESHOLD : Z := 1024 * 1024.

(** [filePath.split(".").pop()?.toLowerCase()] *)
Definition extensionOf (filePath : string) : string :=
  toLowerCase (default EmptyString (last (split "." filePath))).

Definition hasAstSupport (filePath : option string) : bool :=
  match filePath with
  | None => false
  | Some fp =>
      if String.eqb fp EmptyString then false
      else bool_decide (extensionOf fp ∈ ["js"; "jsx"; "ts"; "tsx"; "go"])
  end.

Section Select.
Context {lruPkg : LruCachePkg SmartHybrid.CacheEntry}.

(** The instances behind the interface [DiffStrategy]. *)
Inductive DiffStrategy : Type :=
| ParallelDiff (s : Parallel.ParallelDiffStrategy)
| AstAwareDiff (s : AstAware.AstAwareStrategy)
| SmartHybridDiff (s : SmartHybrid.SmartHybridStrategy)
| OptimizedUnifiedDiff (s : OptimizedUnified.OptimizedUnifiedStrategy)
| SearchReplaceDiff (s : SearchReplace.SearchReplaceDiffStrategy).

(** The second argument of [getDiffStrategy]: [FileStats | number]. *)
Inductive StatsOrThreshold : Type :=
| Stats (fileStats : FileStats)
| Threshold (threshold : Q).

Definition getDiffStrategy (model : string)
  (fileStatsOrThreshold : option StatsOrThreshold)
  (fuzzyMatchThreshold : option Q) (experimentalStrategy : bool)
  : DiffStrategy :=
  let threshold :=
    match fileStatsOrThreshold with
    | Some (Threshold t) => Some t
    | _ => fuzzyMatchThreshold
    end in
  let fileStats :=
    match fileStatsOrThreshold with
    | Some (Stats fs) => Some fs
    | _ => None
    end in
  if truthy (size <$> fileStats)
     && bool_decide (LARGE_FILE_THRESHOLD < default 0 (size <$> fileStats))
  then ParallelDiff (Parallel.new threshold)
  else if hasAstSupport (path <$> fileStats)
  then AstAwareDiff (AstAware.new threshold None)
  else if truthy (size <$> fileStats)
          && bool_decide (default 0 (size <$> fileStats)
                          <= LARGE_FILE_THRESHOLD)
  then
    let ext := default EmptyString (extensionOf ∘ path <$> fileStats) in
    if negb (String.eqb ext EmptyString)
       && bool_decide (ext ∈ ["json"; "txt"; "md"; "yml"; "yaml"; "go"])
    then SmartHybridDiff SmartHybrid.new
    else OptimizedUnifiedDiff (OptimizedUnified.new threshold)
  else SearchReplaceDiff (SearchReplace.new threshold None).

(** *** Notions used in the statements *)

Definition astExtensions : list string := ["js"; "jsx"; "ts"; "tsx"].
Definition textExtensions : list string :=
  ["json"; "txt"; "md"; "yml"; "yaml"].

(** The threshold that an instance holds, if it has one. *)
Definition thresholdOf (strategy : DiffStrategy) : option Q :=
  match strategy with
  | ParallelDiff s => Some (Parallel.fuzzyMatchThreshold s)
  | AstAwareDiff s => Some (AstAware.fuzzyMatchThreshold s)
  | SmartHybridDiff _ => None
  | OptimizedUnifiedDiff s => Some (OptimizedUnified.fuzzyMatchThreshold s)
  | SearchReplaceDiff s => Some (SearchReplace.fuzzyThreshold s)
  end.

End Select.

End Selector.

(** ** A model of the line-number helpers *)

Module LineNumbers.
Import JS.
Local Open Scope Z_scope.

(** Modelled from the spec: the line-number prefix of the helpers
    [addLineNumbers], [everyLineHasLineNumbers] and [stripLineNumbers] of
    [integrations/misc/extract-text], which is not among the sources. The
    spec speaks of "a leading line-number prefix" on every line and of a
    window shown "with line numbers"; the tool description renders a
    numbered line as [<number> | <text>]. *)
Definition numberedLine (line : string) : option string :=
  classPlus isDigit (fun _ rest => lit " | " Some rest) line.

(** Modelled from the spec: [everyLineHasLineNumbers], true when every line
    carries the prefix. *)
Definition everyLineHasLineNumbers (content : string) : bool :=
  forallb (fun line => bool_decide (is_Some (numberedLine line)))
    (splitLines content).

(** Modelled from the spec: [stripLineNumbers], which removes the prefix
    of the lines that carry one. *)
Definition stripLineNumbers (content : string) : string :=
  join (String "010"%char EmptyString)
    (map (fun line => default line (numberedLine line)) (splitLines content)).

(** Modelled from the spec: [addLineNumbers], which numbers the lines from
    [startLine], 1 when it is not given. *)
Definition addLineNumbers (content : string) (startLine : option Z) : string :=
  join (String "010"%char EmptyString)
    (imap (fun i line =>
             pretty (default 1 startLine + Z.of_nat i) +:+ " | " +:+ line)
       (split "010" content)).

Definition model : ExtractText :=
  Build_ExtractText addLineNumbers everyLineHasLineNumbers stripLineNumbers.

End LineNumbers.

(** ** Stand-ins for the packages

    Instances of the interfaces above, used to run the strategies on
    concrete inputs. *)

Module Packages.
Import JS.
Local Open Scope Z_scope.

(** Digests that tag their input: a stand-in without collisions. *)
Definition crypto : NodeCrypto :=
  Build_NodeCrypto (fun s => "sha1(" +:+ s +:+ ")")
    (fun s => "sha256(" +:+ s +:+ ")").

(** The value of a base64 digit, in the standard and the URL-safe
    alphabet. *)
Definition base64Digit (c : ascii) : option Z :=
  let n := charCode c in
  if (65 <=? n) && (n <=? 90) then Some (n - 65)
  else if (97 <=? n) && (n <=? 122) then Some (n - 71)
  else if (48 <=? n) && (n <=? 57) then Some (n + 4)
  else if (n =? 43) || (n =? 45) then Some 62
  else if (n =? 47) || (n =? 95) then Some 63
  else None.

(** The digits up to the padding, other code units skipped. *)
Fixpoint base64Digits (s : string) : list Z :=
  match s with
  | EmptyString => []
  | String c s' =>
      if Ascii.eqb c "="%char then []
      else match base64Digit c with
           | Some d => d :: base64Digits s'
           | None => base64Digits s'
           end
  end.

Definition byte (z : Z) : ascii := Ascii.ascii_of_N (Z.to_N (z mod 256)).

Fixpoint base64Bytes (ds : list Z) : string :=
  match ds with
  | a :: b :: c :: d :: rest =>
      let w := ((a * 64 + b) * 64 + c) * 64 + d in
      String (byte (w / 65536)) (String (byte (w / 256))
        (String (byte w) (base64Bytes rest)))
  | [a; b; c] =>
      let w := ((a * 64 + b) * 64 + c) * 64 in
      String (byte (w / 65536)) (String (byte (w / 256)) EmptyString)
  | [a; b] =>
      let w := (a * 64 + b) * 4096 in
      String (byte (w / 65536)) EmptyString
  | _ => EmptyString
  end.

(** [Buffer.from(s, "base64")], and [toString] on 7-bit text. *)
Definition buffer : NodeBuffer :=
  Build_NodeBuffer (fun s => base64Bytes (base64Digits s)) (fun s => s).

(** A cache with a capacity and a time to live: the entries with the time
    of their last use, most recent first. *)
Section Lru.
Context {V : Type}.

Record Store := mkStore {
  entries : list (string * (V * Z));
  capacity : Z;
  ttl : Z
}.

Definition storeNew (capacity ttl : Z) : Store := mkStore [] capacity ttl.

Definition without (key : string) (l : list (string * (V * Z)))
  : list (string * (V * Z)) :=
  filter (fun e => fst e ≠ key) l.

Fixpoint find (key : string) (l : list (string * (V * Z))) : option (V * Z) :=
  match l with
  | [] => None
  | (k, e) :: rest => if String.eqb k key then Some e else find key rest
  end.

Definition storeGet (now : Z) (key : string) (st : Store)
  : option V * Store :=
  match find key (entries st) with
  | Some (v, t) =>
      if now - t <? ttl st then
        (Some v,
         mkStore ((key, (v, now)) :: without key (entries st))
           (capacity st) (ttl st))
      else (None, mkStore (without key (entries st)) (capacity st) (ttl st))
  | None => (None, st)
  end.

Definition storeSet (now : Z) (key : string) (v : V) (st : Store) : Store :=
  mkStore
    (take (Z.to_nat (capacity st))
       ((key, (v, now)) :: without key (entries st)))
    (capacity st) (ttl st).

Definition lru : LruCachePkg V :=
  Build_LruCachePkg V Store storeNew storeGet storeSet.

End Lru.

End Packages.

(* ===================================================================== *)
(** * Part II: properties                                                 *)
(* ===================================================================== *)

(** ** Arrays and strings *)

Module JSFacts.
Import JS.

Lemma relIndex_nonneg (len : nat) (k : Z) :
  (0 <= k)%Z -> relIndex len k = Z.to_nat k `min` len.
Proof.
  intros Hk. unfold relIndex.
  destruct (Z.ltb_spec k 0); [lia|]. lia.
Qed.

Lemma relIndex_le (len : nat) (k : Z) : relIndex len k <= len.
Proof.
  unfold relIndex. destruct (Z.ltb_spec k 0); lia.
Qed.

Lemma slice_0_0 {A} (l : list A) : slice l 0 0 = [].
Proof. unfold slice. rewrite !relIndex_nonneg by lia. by rewrite take_0. Qed.

Lemma sliceFrom_app_length {A} (l1 l2 : list A) :
  sliceFrom (l1 ++ l2) (Z.of_nat (length l1)) = l2.
Proof.
  unfold sliceFrom. rewrite relIndex_nonneg by lia.
  rewrite length_app, Nat2Z.id, Nat.min_l by lia.
  by rewrite drop_app_length.
Qed.

Lemma splice_0_0 {A} (l items : list A) : splice l 0 0 items = items ++ l.
Proof.
  unfold splice. rewrite relIndex_nonneg by lia. simpl.
  replace (Z.to_nat _) with 0%nat by lia. by rewrite drop_0.
Qed.

(** A window of whole lines read back by [slice]. *)
Lemma slice_middle {A} (pre mid post : list A) :
  slice (pre ++ mid ++ post) (Z.of_nat (length pre))
    (Z.of_nat (length pre) + Z.of_nat (length mid)) = mid.
Proof.
  unfold slice. rewrite !relIndex_nonneg by lia.
  rewrite !length_app.
  replace (Z.to_nat (Z.of_nat (length pre)) `min` _) with (length pre) by lia.
  replace (Z.to_nat _ `min` _) with (length pre + length mid)%nat by lia.
  rewrite drop_app_length.
  replace (length pre + length mid - length pre)%nat with (length mid) by lia.
  by rewrite take_app_length.
Qed.

Lemma append_cons (c : ascii) (s t : string) :
  String c s +:+ t = String c (s +:+ t).
Proof. done. Qed.

Lemma append_assoc (s t u : string) : (s +:+ t) +:+ u = s +:+ (t +:+ u).
Proof.
  induction s as [|c s IH]; [done|]. by rewrite !append_cons, IH.
Qed.

Lemma append_nil_r (s : string) : s +:+ EmptyString = s.
Proof. induction s as [|c s IH]; [done|]. by rewrite append_cons, IH. Qed.

Lemma length_append (s t : string) :
  String.length (s +:+ t) = (String.length s + String.length t)%nat.
Proof.
  induction s as [|c s IH]; [done|]. rewrite append_cons. simpl. by rewrite IH.
Qed.

(** Two strings that end with the same suffix and are equal with it are
    equal without it. *)
Lemma append_inj_r (s1 s2 t : string) : s1 +:+ t = s2 +:+ t -> s1 = s2.
Proof.
  revert s2. induction s1 as [|c s1 IH]; intros [|d s2] Heq.
  - done.
  - apply (f_equal String.length) in Heq.
    rewrite !length_append in Heq. simpl in Heq. lia.
  - apply (f_equal String.length) in Heq.
    rewrite !length_append in Heq. simpl in Heq. lia.
  - rewrite !append_cons in Heq. injection Heq as -> Heq.
    f_equal. by apply IH.
Qed.

Lemma join_chars (s : string) : join EmptyString (chars s) = s.
Proof.
  unfold join. induction s as [|c s IH]; [done|].
  simpl. destruct (chars s) as [|x xs] eqn:E.
  - destruct s; [done|discriminate].
  - simpl in IH. simpl. by rewrite IH.
Qed.

Lemma join_replicate_empty (n : nat) (l : list string) :
  join EmptyString (replicate n EmptyString ++ l) = join EmptyString l.
Proof.
  unfold join. induction n as [|n IH]; [done|].
  simpl. destruct (replicate n EmptyString ++ l) eqn:E.
  - destruct n, l; simplify_eq/=. done.
  - by rewrite <- IH.
Qed.

(** *** Rounding *)

(** [double] computes what the binary64 arithmetic of the kernel computes:
    for every quotient [a / b] with [0 <= a <= b <= 48], the score
    [1 - a / b] and the product [(1 - a / b) * 100] of its percentage; and
    for every threshold [k / 100] written with two decimals, the number
    itself and the product [k / 100 * 100]. *)
Lemma double_is_binary64 :
  forallb (fun b =>
    forallb (fun a =>
      let score := double (1 - double (inject_Z a / inject_Z b)) in
      let score' := (1 - floatOfZ a / floatOfZ b)%float in
      sameNumber score score'
      && sameNumber (double (double score * 100)) (score' * 100)%float)
      (seqZ 0 (b + 1)))
    (seqZ 1 48)
  && forallb (fun k =>
       let threshold := (floatOfZ k / 100)%float in
       sameNumber (double (inject_Z k / 100)) threshold
       && sameNumber (double (double (inject_Z k / 100) * 100))
            (threshold * 100)%float)
       (seqZ 0 101)
  = true.
Proof. vm_compute. reflexivity. Qed.

Lemma pow2_pos (e : Z) : (0 < pow2 e)%Q.
Proof.
  unfold pow2. destruct (Z.leb_spec 0 e).
  - change 0%Q with (inject_Z 0). rewrite <- Zlt_Qlt. lia.
  - reflexivity.
Qed.

Lemma roundHalfEven_le (x : Q) (n : Z) :
  (x <= inject_Z n)%Q -> (roundHalfEven x <= n)%Z.
Proof.
  intros Hx. unfold roundHalfEven.
  pose proof (Qfloor_le x) as Hlo.
  assert (Qfloor x <= n)%Z as Hfn.
  { rewrite <- (Qfloor_Z n). by apply Qfloor_resp_le. }
  destruct (Z.eq_dec (Qfloor x) n) as [E|NE].
  - assert (x - inject_Z (Qfloor x) == 0)%Q as H0.
    { rewrite E in *. apply Qle_antisym.
      - apply (Qplus_le_r _ _ (inject_Z n)). ring_simplify. exact Hx.
      - apply (Qplus_le_r _ _ (inject_Z n)). ring_simplify. exact Hlo. }
    rewrite H0. simpl. lia.
  - destruct (_ ?= _)%Q; [destruct (Z.even _)| |]; lia.
Qed.

Lemma roundHalfEven_nonneg (x : Q) : (0 <= x)%Q -> (0 <= roundHalfEven x)%Z.
Proof.
  intros Hx. unfold roundHalfEven.
  assert (0 <= Qfloor x)%Z as Hf.
  { change 0%Z with (Qfloor 0). by apply Qfloor_resp_le. }
  destruct (_ ?= _)%Q; [destruct (Z.even _)| |]; lia.
Qed.

Lemma log2floor_le (x : Q) :
  (log2floor x <= Z.log2 (Qnum x) - Z.log2 (Zpos (Qden x)))%Z.
Proof. unfold log2floor. destruct (_ ?= _)%Q; lia. Qed.

(** Rounding does not cross 1: a number that is at most 1 is at most 1 as
    a binary64 number. *)
Lemma double_le_1 (x : Q) : (x <= 1)%Q -> (double x <= 1)%Q.
Proof.
  intros Hx. unfold double.
  destruct (Z.eqb_spec (Qnum (Qabs x)) 0) as [|Hnz]; [done|].
  cbv zeta.
  set (q := (Z.max (log2floor (Qabs x)) (-1022) - 52)%Z).
  assert (0 <= inject_Z (roundHalfEven (Qabs x / pow2 q)) * pow2 q)%Q as Hr.
  { apply Qmult_le_0_compat; [|apply Qlt_le_weak, pow2_pos].
    change 0%Q with (inject_Z 0). rewrite <- Zle_Qle.
    apply roundHalfEven_nonneg. apply Qle_shift_div_l; [apply pow2_pos|].
    rewrite Qmult_0_l. apply Qabs_nonneg. }
  destruct (Z.ltb_spec (Qnum x) 0) as [Hneg|Hpos].
  - rewrite Qred_correct.
    apply Qle_trans with 0%Q; [|done].
    apply (Qopp_le_compat 0) in Hr. exact Hr.
  - rewrite Qred_correct.
    assert (Qabs x = x) as Ha.
    { by destruct x as [[|n|n] d]. }
    rewrite Ha in *.
    assert (q < 0)%Z as Hq.
    { subst q. rewrite Ha. pose proof (log2floor_le x) as Hl.
      assert (Z.log2 (Qnum x) <= Z.log2 (Zpos (Qden x)))%Z.
      { apply Z.log2_le_mono. unfold Qle in Hx. simpl in Hx. lia. }
      lia. }
    assert (pow2 q = 1 # Z.to_pos (2 ^ (- q))) as Hp.
    { unfold pow2. destruct (Z.leb_spec 0 q); [lia|done]. }
    assert (0 < 2 ^ (- q))%Z as H2 by (apply Z.pow_pos_nonneg; lia).
    assert (roundHalfEven (x / pow2 q) <= 2 ^ (- q))%Z as Hround.
    { apply roundHalfEven_le. apply Qle_shift_div_r; [apply pow2_pos|].
      rewrite Hp. unfold Qle, Qmult. simpl.
      rewrite Pos.mul_1_l, Z2Pos.id by done.
      unfold Qle in Hx. simpl in Hx. nia. }
    rewrite Hp in *. unfold Qle, Qmult. simpl.
    rewrite Pos.mul_1_l, Z2Pos.id by done. lia.
Qed.

(** [pow2] is the power of 2, also for a negative exponent. *)
Lemma pow2_shift (e k : Z) :
  (0 <= k)%Z -> (0 <= e + k)%Z ->
  (pow2 e * inject_Z (2 ^ k) == inject_Z (2 ^ (e + k)))%Q.
Proof.
  intros Hk Hek. unfold pow2. destruct (Z.leb_spec 0 e) as [He|He].
  - rewrite <- inject_Z_mult. by rewrite Z.pow_add_r.
  - assert (0 < 2 ^ (- e))%Z as Hp by (apply Z.pow_pos_nonneg; lia).
    unfold Qeq, Qmult. simpl. rewrite Pos.mul_1_r, Z2Pos.id by done.
    rewrite Z.mul_1_r. replace k with ((e + k) + (- e))%Z at 1 by lia.
    rewrite Z.pow_add_r by lia. destruct (2 ^ k)%Z; lia.
Qed.

Lemma pow2_add (a b : Z) : (pow2 (a + b) == pow2 a * pow2 b)%Q.
Proof.
  set (K := (Z.abs a + Z.abs b)%Z).
  assert (0 < inject_Z (2 ^ K))%Q as HK.
  { change 0%Q with (inject_Z 0). rewrite <- Zlt_Qlt.
    apply Z.pow_pos_nonneg; lia. }
  apply (Qmult_inj_r _ _ (inject_Z (2 ^ K) * inject_Z (2 ^ K))).
  { intros H0. assert (0 < inject_Z (2 ^ K) * inject_Z (2 ^ K))%Q.
    { by apply Qmult_lt_0_compat. }
    rewrite H0 in H. by apply Qlt_irrefl in H. }
  transitivity (pow2 (a + b) * inject_Z (2 ^ (K + K)))%Q.
  { rewrite Z.pow_add_r, inject_Z_mult by lia. reflexivity. }
  rewrite pow2_shift by lia.
  transitivity ((pow2 a * inject_Z (2 ^ K)) * (pow2 b * inject_Z (2 ^ K)))%Q;
    [|ring].
  rewrite !pow2_shift by lia. rewrite <- inject_Z_mult, <- Z.pow_add_r by lia.
  by replace (a + b + (K + K))%Z with (a + K + (b + K))%Z by lia.
Qed.

(** [log2floor x] is the exponent of [x]. *)
Lemma log2floor_lower (x : Q) : (0 < x)%Q -> (pow2 (log2floor x) <= x)%Q.
Proof.
  intros Hx. unfold log2floor.
  set (e := (Z.log2 (Qnum x) - Z.log2 (Z.pos (Qden x)))%Z).
  destruct (x ?= pow2 e)%Q eqn:Hc.
  - apply Qeq_alt in Hc. rewrite Hc. apply Qle_refl.
  - assert (0 < Qnum x)%Z as Hnum.
    { unfold Qlt in Hx. simpl in Hx. lia. }
    pose proof (Z.log2_spec _ Hnum) as [Hn _].
    pose proof (Z.log2_spec (Z.pos (Qden x)) ltac:(done)) as [_ Hd].
    set (b := Z.log2 (Z.pos (Qden x))) in *.
    set (a := Z.log2 (Qnum x)) in *.
    assert (0 <= a)%Z by apply Z.log2_nonneg.
    assert (0 <= b)%Z by apply Z.log2_nonneg.
    assert (0 < inject_Z (2 ^ (b + 1)))%Q as Hpos.
    { change 0%Q with (inject_Z 0). rewrite <- Zlt_Qlt.
      apply Z.pow_pos_nonneg; lia. }
    apply (Qmult_le_r _ _ _ Hpos).
    rewrite pow2_shift by lia.
    replace (e - 1 + (b + 1))%Z with a by lia.
    unfold Qle, Qmult. simpl. rewrite Pos.mul_1_r, Z.mul_1_r.
    rewrite <- Z.add_1_r in Hd.
    apply Z.mul_le_mono_nonneg; [apply Z.pow_nonneg; lia|done|done|lia].
  - apply Qgt_alt in Hc. by apply Qlt_le_weak.
Qed.

Lemma log2floor_upper (x : Q) : (0 < x)%Q -> (x < pow2 (log2floor x + 1))%Q.
Proof.
  intros Hx. unfold log2floor.
  set (e := (Z.log2 (Qnum x) - Z.log2 (Z.pos (Qden x)))%Z).
  assert (x < pow2 (e + 1))%Q as Hup.
  { assert (0 < Qnum x)%Z as Hnum.
    { unfold Qlt in Hx. simpl in Hx. lia. }
    pose proof (Z.log2_spec _ Hnum) as [_ Hn].
    pose proof (Z.log2_spec (Z.pos (Qden x)) ltac:(done)) as [Hd _].
    set (b := Z.log2 (Z.pos (Qden x))) in *.
    set (a := Z.log2 (Qnum x)) in *.
    assert (0 <= a)%Z by apply Z.log2_nonneg.
    assert (0 <= b)%Z by apply Z.log2_nonneg.
    assert (0 < inject_Z (2 ^ b))%Q as Hpos.
    { change 0%Q with (inject_Z 0). rewrite <- Zlt_Qlt.
      apply Z.pow_pos_nonneg; lia. }
    apply (Qmult_lt_r _ _ _ Hpos).
    rewrite pow2_shift by lia.
    replace (e + 1 + b)%Z with (Z.succ a) by lia.
    unfold Qlt, Qmult. simpl. rewrite Z.mul_1_r.
    assert (0 < 2 ^ b)%Z by (apply Z.pow_pos_nonneg; lia).
    nia. }
  destruct (x ?= pow2 e)%Q eqn:Hc; [done| |done].
  apply Qlt_alt in Hc. by replace (e - 1 + 1)%Z with e by lia.
Qed.

(** Rounding to an integer moves a number by a half at most. *)
Lemma roundHalfEven_error (y : Q) :
  (y - (1 # 2) <= inject_Z (roundHalfEven y) <= y + (1 # 2))%Q.
Proof.
  unfold roundHalfEven.
  pose proof (Qfloor_le y) as Hlo. pose proof (Qlt_floor y) as Hhi.
  rewrite inject_Z_plus in Hhi. change (inject_Z 1) with 1%Q in Hhi.
  destruct (y - inject_Z (Qfloor y) ?= 1 # 2)%Q eqn:Hc.
  - apply Qeq_alt in Hc.
    destruct (Z.even _); rewrite ?inject_Z_plus;
      change (inject_Z 1) with 1%Q; lra.
  - apply Qlt_alt in Hc. lra.
  - apply Qgt_alt in Hc. rewrite inject_Z_plus.
    change (inject_Z 1) with 1%Q. lra.
Qed.

(** Rounding to 53 bits moves a number by the fraction [2 ** -53] of it
    at most. *)
Lemma round53_error (x : Q) :
  (0 < x)%Q ->
  (x * (1 - (1 # 2 ^ 53)) <= round53 x <= x * (1 + (1 # 2 ^ 53)))%Q.
Proof.
  intros Hx. unfold round53.
  assert (Qabs x = x) as Ha.
  { destruct x as [[|n|n] d]; done. }
  rewrite Ha.
  destruct (Z.eqb_spec (Qnum x) 0) as [Hz|_].
  { destruct x as [n d]. simpl in Hz. subst n. done. }
  destruct (Z.ltb_spec (Qnum x) 0) as [Hneg|_].
  { destruct x as [n d]. unfold Qlt in Hx. simpl in *. lia. }
  cbv zeta. rewrite Qred_correct.
  set (e := log2floor x). set (p := pow2 (e - 52)).
  pose proof (log2floor_lower x Hx) as Hlow. fold e in Hlow.
  pose proof (pow2_pos (e - 52)) as Hp. fold p in Hp.
  assert (p * (4503599627370496 # 1) == pow2 e)%Q as Hpe.
  { unfold p. replace e with ((e - 52) + 52)%Z at 2 by lia.
    by rewrite pow2_add. }
  pose proof (roundHalfEven_error (x / p)) as [Hr1 Hr2].
  assert (x / p * p == x)%Q as Hy by (field; lra).
  set (y := (x / p)%Q) in *.
  set (R := inject_Z (roundHalfEven y)) in *.
  assert (0 <= (R - (y - (1 # 2))) * p)%Q as H1.
  { apply Qmult_le_0_compat; lra. }
  assert (0 <= (y + (1 # 2) - R) * p)%Q as H2.
  { apply Qmult_le_0_compat; lra. }
  change (1 # 2 ^ 53)%Q with (1 # 9007199254740992)%Q.
  split; nra.
Qed.

Lemma pow2_le (a b : Z) : (a <= b)%Z -> (pow2 a <= pow2 b)%Q.
Proof.
  intros Hab. replace b with (a + (b - a))%Z by lia. rewrite pow2_add.
  rewrite <- (Qmult_1_r (pow2 a)) at 1.
  apply Qmult_le_l; [apply pow2_pos|].
  unfold pow2. rewrite (proj2 (Z.leb_le 0 (b - a))) by lia.
  change 1%Q with (inject_Z 1). rewrite <- Zle_Qle.
  assert (0 < 2 ^ (b - a))%Z by (apply Z.pow_pos_nonneg; lia). lia.
Qed.

(** In the range of the normal numbers [double] rounds to 53 bits. *)
Lemma double_round53 (x : Q) :
  (pow2 (-1022) <= Qabs x)%Q -> double x = round53 x.
Proof.
  intros Hx. unfold double, round53.
  destruct (Z.eqb_spec (Qnum (Qabs x)) 0) as [|Hnz]; [done|].
  cbv zeta.
  assert (0 < Qabs x)%Q as Hpos.
  { eapply Qlt_le_trans; [apply (pow2_pos (-1022))|done]. }
  pose proof (log2floor_upper _ Hpos) as Hup.
  assert (-1022 <= log2floor (Qabs x))%Z as Hlf.
  { destruct (Z.le_gt_cases (-1022) (log2floor (Qabs x))) as [|Hlt]; [done|].
    pose proof (pow2_le (log2floor (Qabs x) + 1) (-1022) ltac:(lia)) as Hle.
    exfalso. apply (Qlt_irrefl (Qabs x)).
    eapply Qlt_le_trans; [exact Hup|]. by eapply Qle_trans. }
  by rewrite Z.max_l by done.
Qed.

(** *** Printing *)

(** An integer below [2 ** 53] prints as its digits. *)
Lemma numberToString_digits (x : Z) :
  (Z.abs x < 2 ^ 53)%Z -> numberToString x = pretty x.
Proof.
  intros Hx. unfold numberToString.
  by rewrite (proj2 (Z.ltb_lt _ _) Hx).
Qed.

(** From [2 ** 53] on, [numberToString] prints what [String] prints:
    the shortest digits that read back as the number, and the exponent
    notation from [10 ** 21] on. *)
Lemma numberToString_large :
  numberToString (2 ^ 53) = "9007199254740992" /\
  numberToString (2 ^ 60) = "1152921504606847000" /\
  numberToString (- 2 ^ 64) = "-18446744073709552000" /\
  numberToString (10 ^ 20) = "100000000000000000000" /\
  numberToString (10 ^ 21) = "1e+21" /\
  numberToString (Qfloor (double (inject_Z (10 ^ 23)))) = "1e+23" /\
  numberToString (2 ^ 70) = "1.1805916207174113e+21" /\
  numberToString (2 ^ 100) = "1.2676506002282294e+30".
Proof. repeat split; vm_compute; reflexivity. Qed.

End JSFacts.

(** ** Optimized Unified strategy *)

Module OptimizedUnifiedFacts.
Import JS JSFacts OptimizedUnified.
Local Open Scope Z_scope.

Lemma newGapBuffer_normal (content : string) (gapSize : Z) :
  0 <= gapSize ->
  newGapBuffer content gapSize =
  Normal {| buffer := replicate (Z.to_nat gapSize) EmptyString ++ chars content;
            gapStart := 0; gapEnd := gapSize |}.
Proof.
  intros Hg. unfold newGapBuffer.
  destruct (Z.ltb_spec gapSize 0); [lia|].
  by rewrite splice_0_0.
Qed.

Lemma toString_fresh (content : string) (gapSize : Z) :
  0 <= gapSize ->
  toString {| buffer := replicate (Z.to_nat gapSize) EmptyString ++ chars content;
              gapStart := 0; gapEnd := gapSize |} = content.
Proof.
  intros Hg. unfold toString. cbn [buffer gapStart gapEnd].
  rewrite slice_0_0, app_nil_l.
  replace gapSize with
    (Z.of_nat (length (replicate (Z.to_nat gapSize) EmptyString))) at 2
    by (rewrite length_replicate; lia).
  rewrite sliceFrom_app_length. apply join_chars.
Qed.

Lemma parseLines_no_header (lines : list string) (hunks : list DiffHunk) :
  Forall (fun line => startsWith line "@@" = false) lines ->
  parseLines lines hunks None = Normal hunks.
Proof.
  induction 1 as [|line lines Hline _ IH]; [done|].
  simpl. by rewrite Hline.
Qed.

Lemma splitHunksIntoChunks_nil (hardwareConcurrency : Z) :
  splitHunksIntoChunks hardwareConcurrency [] = [].
Proof. done. Qed.

(** C8. The gap buffer gives back the text it was built from: for every
    string and every gap size [g >= 0], [new GapBuffer(s, g).toString()] is
    [s]. Hence [applyDiff] on a diff without a hunk (no line starting with
    [@@]) succeeds with the original content, whatever the options and the
    number of workers. *)
Theorem gap_buffer_unmodified_roundtrip :
  (forall (s : string) (g : Z),
     0 <= g ->
     exists b, newGapBuffer s g = Normal b /\ toString b = s) /\
  (forall (self : OptimizedUnifiedStrategy) (hardwareConcurrency : Z)
          (originalContent diffContent : string) (options : ApplyOptions),
     Forall (fun line => startsWith line "@@" = false)
       (split "010" diffContent) ->
     applyDiff self hardwareConcurrency originalContent diffContent options
     = Success originalContent 0
         (if collectMetrics options then Some (mkDiffMetrics 1) else None)).
Proof.
  split.
  - intros s g Hg. eexists. split; [by apply newGapBuffer_normal|].
    by apply toString_fresh.
  - intros self hc original diff options Hlines.
    unfold applyDiff, applyDiffBody, parseUnifiedDiff.
    rewrite newGapBuffer_normal by (unfold GAP_BUFFER_SIZE; lia).
    cbn [mbind completion_bind].
    rewrite (parseLines_no_header _ _ Hlines).
    cbn [mbind completion_bind].
    unfold processHunksInParallel. rewrite splitHunksIntoChunks_nil.
    destruct (largeFile options);
      cbn [processChunks processHunksSequentially foldl mbind
           completion_bind];
      unfold GAP_BUFFER_SIZE; by rewrite toString_fresh by lia.
Qed.

Lemma gap_buffer_unmodified_roundtrip_witness :
  (exists b, newGapBuffer "hello" 4 = Normal b /\ toString b = "hello") /\
  applyDiff (new None) 4 "hello" "no hunk in this diff" noOptions
  = Success "hello" 0 None.
Proof.
  split.
  - apply (proj1 gap_buffer_unmodified_roundtrip "hello" 4). lia.
  - apply (proj2 gap_buffer_unmodified_roundtrip (new None) 4 "hello"
             "no hunk in this diff" noOptions).
    vm_compute. repeat constructor.
Defined.

(** Hunks are applied from left to right, and an exception ends the run. *)
Lemma processHunksSequentially_app (pre post : list DiffHunk) (b : GapBuffer) :
  processHunksSequentially (pre ++ post) b =
  match processHunksSequentially pre b with
  | Normal b' => processHunksSequentially post b'
  | Throw msg => Throw msg
  end.
Proof.
  revert b. induction pre as [|h pre IH]; intros b; [done|].
  simpl. destruct (verifyContext b h) as [[|]|msg]; auto.
Qed.

Lemma processChunks_concat (chunks : list (list DiffHunk)) (b : GapBuffer) :
  processChunks chunks b = processHunksSequentially (concat chunks) b.
Proof.
  revert b. induction chunks as [|chunk chunks IH]; intros b; [done|].
  simpl. rewrite processHunksSequentially_app.
  destruct (processHunksSequentially chunk b); auto.
Qed.

Lemma slice_take_drop {A} (l : list A) (i n : Z) :
  0 <= i -> 0 <= n ->
  slice l i (i + n) = take (Z.to_nat n) (drop (Z.to_nat i) l).
Proof.
  intros Hi Hn. unfold slice. rewrite !relIndex_nonneg by lia.
  destruct (decide (Z.to_nat i <= length l)%nat) as [Hle|Hgt].
  - rewrite (Nat.min_l (Z.to_nat i)) by lia.
    destruct (decide (Z.to_nat (i + n) <= length l)%nat).
    + rewrite Nat.min_l by lia. f_equal. lia.
    + rewrite Nat.min_r by lia.
      rewrite !take_ge; [done|rewrite length_drop; lia..].
  - rewrite !Nat.min_r by lia.
    rewrite drop_ge by lia. rewrite (drop_ge l (Z.to_nat i)) by lia.
    by rewrite !take_nil.
Qed.

Lemma concat_splitLoop (hunks : list DiffHunk) (chunkSize : Z) (fuel : nat)
  (i : Z) :
  1 <= chunkSize -> 0 <= i ->
  Z.of_nat (length hunks) - i <= Z.of_nat fuel ->
  concat (splitLoop fuel i chunkSize hunks) = drop (Z.to_nat i) hunks.
Proof.
  intros Hc. revert i. induction fuel as [|fuel IH]; intros i Hi Hfuel.
  - simpl. rewrite drop_ge; [done|lia].
  - simpl. destruct (Z.ltb_spec i (Z.of_nat (length hunks))).
    + simpl. rewrite IH by lia.
      rewrite slice_take_drop by lia.
      replace (Z.to_nat (i + chunkSize))
        with (Z.to_nat i + Z.to_nat chunkSize)%nat by lia.
      rewrite <- drop_drop. apply take_drop.
    + simpl. rewrite drop_ge; [done|lia].
Qed.

Lemma concat_splitHunksIntoChunks (hardwareConcurrency : Z)
  (hunks : list DiffHunk) :
  1 <= hardwareConcurrency ->
  concat (splitHunksIntoChunks hardwareConcurrency hunks) = hunks.
Proof.
  intros Hhc. unfold splitHunksIntoChunks.
  destruct hunks as [|h hunks]; [done|].
  rewrite concat_splitLoop; [done| |lia|lia].
  unfold ceilDiv. apply Z.div_le_lower_bound; [lia|].
  simpl length. lia.
Qed.

(** With at least one worker the parallel path applies the same hunks in
    the same order as the sequential one. *)
Lemma processHunksInParallel_sequential (hardwareConcurrency : Z)
  (hunks : list DiffHunk) (b : GapBuffer) :
  1 <= hardwareConcurrency ->
  processHunksInParallel hardwareConcurrency hunks b =
  processHunksSequentially hunks b.
Proof.
  intros Hhc. unfold processHunksInParallel.
  by rewrite processChunks_concat, concat_splitHunksIntoChunks.
Qed.

End OptimizedUnifiedFacts.

(** ** The cache of similarity scores *)

Module LRUCacheFacts.
Import JS SearchReplace.
Local Open Scope Z_scope.

Section Bound.
Context {K V : Type} `{EqDecision K}.
Implicit Types (entries : list (K * V)) (c : LRUCache K V).

Lemma length_mapSet (key : K) (value : V) entries :
  (length (mapSet key value entries) <= S (length entries))%nat.
Proof.
  induction entries as [|[k v] rest IH]; simpl; [lia|].
  destruct (decide (k = key)); simpl; lia.
Qed.

Lemma length_mapDelete (key : K) entries :
  (length (mapDelete key entries) <= length entries)%nat.
Proof. apply length_filter. Qed.

Lemma length_mapDelete_head (key : K) (value : V) entries :
  (length (mapDelete key ((key, value) :: entries)) <= length entries)%nat.
Proof.
  unfold mapDelete. rewrite filter_cons_False by (simpl; tauto).
  apply length_filter.
Qed.

Lemma length_mapDelete_present (key : K) (value : V) entries :
  mapGet key entries = Some value ->
  (length (mapDelete key entries) < length entries)%nat.
Proof.
  induction entries as [|[k v] rest IH]; simpl; [done|].
  destruct (decide (k = key)) as [->|Hne]; intros Hget.
  - pose proof (length_mapDelete_head key v rest). simpl in *. lia.
  - unfold mapDelete in *. rewrite filter_cons_True by done.
    simpl. specialize (IH Hget). lia.
Qed.

Lemma mapGet_mapDelete (key : K) entries :
  mapGet key (mapDelete key entries) = None.
Proof.
  induction entries as [|[k v] rest IH]; simpl; [done|].
  unfold mapDelete in *. destruct (decide (k = key)) as [->|Hne].
  - by rewrite filter_cons_False by (simpl; tauto).
  - rewrite filter_cons_True by done. simpl.
    by destruct (decide (k = key)).
Qed.

Lemma mapGet_mapDelete_ne (key key' : K) entries :
  key <> key' ->
  mapGet key (mapDelete key' entries) = mapGet key entries.
Proof.
  intros Hne. induction entries as [|[k v] rest IH]; simpl; [done|].
  unfold mapDelete in *. destruct (decide (k = key')) as [->|Hne'].
  - rewrite filter_cons_False by (simpl; tauto).
    by destruct (decide (key' = key)).
  - rewrite filter_cons_True by done. simpl.
    by destruct (decide (k = key)).
Qed.

Lemma mapGet_mapSet (key : K) (value : V) entries :
  mapGet key (mapSet key value entries) = Some value.
Proof.
  induction entries as [|[k v] rest IH]; simpl.
  - by destruct (decide (key = key)).
  - destruct (decide (k = key)) as [->|Hne]; simpl.
    + by destruct (decide (key = key)).
    + by destruct (decide (k = key)).
Qed.

Lemma mapGet_mapSet_ne (key key' : K) (value : V) entries :
  key <> key' ->
  mapGet key (mapSet key' value entries) = mapGet key entries.
Proof.
  intros Hne. induction entries as [|[k v] rest IH]; simpl.
  - by destruct (decide (key' = key)).
  - destruct (decide (k = key')) as [->|Hne']; simpl.
    + by destruct (decide (key' = key)).
    + by destruct (decide (k = key)).
Qed.

Lemma newLRUCache_bounded (size : Z) :
  0 <= size -> bounded (newLRUCache size : LRUCache K V).
Proof. unfold bounded, lruSize. simpl. lia. Qed.

Lemma lruSet_maxSize (key : K) (value : V) c :
  maxSize (lruSet key value c) = maxSize c.
Proof. done. Qed.

Lemma lruGet_maxSize (key : K) c : maxSize (snd (lruGet key c)) = maxSize c.
Proof. unfold lruGet. by destruct (mapGet key (cache c)). Qed.

Lemma lruSet_bounded (key : K) (value : V) c :
  1 <= maxSize c -> bounded c -> bounded (lruSet key value c).
Proof.
  unfold bounded, lruSet, lruSize. intros Hmax Hc. cbn [cache maxSize].
  pose proof (length_mapSet key value (cache c)).
  destruct (Z.leb_spec (maxSize c) (Z.of_nat (length (cache c)))); [|lia].
  destruct (cache c) as [|[firstKey v] rest] eqn:E; [simpl in *; lia|].
  pose proof (length_mapDelete_head firstKey v rest).
  pose proof (length_mapSet key value (mapDelete firstKey ((firstKey, v) :: rest))).
  simpl length in *. lia.
Qed.

Lemma lruGet_bounded (key : K) c : bounded c -> bounded (snd (lruGet key c)).
Proof.
  unfold bounded, lruGet, lruSize. intros Hc.
  destruct (mapGet key (cache c)) as [value|] eqn:E; [|done].
  cbn [snd cache maxSize].
  pose proof (length_mapDelete_present _ _ _ E).
  pose proof (length_mapSet key value (mapDelete key (cache c))). lia.
Qed.

Lemma lruCall_maxSize (call : LruCall K V) c :
  maxSize (lruCall call c) = maxSize c.
Proof. destruct call; simpl; auto using lruGet_maxSize. Qed.

Lemma lruCall_bounded (call : LruCall K V) c :
  1 <= maxSize c -> bounded c -> bounded (lruCall call c).
Proof.
  intros Hmax Hc. destruct call; simpl.
  - by apply lruGet_bounded.
  - by apply lruSet_bounded.
  - unfold bounded, lruSize. simpl. lia.
Qed.

Lemma lruStates_bounded (calls : list (LruCall K V)) c :
  1 <= maxSize c -> bounded c -> Forall bounded (lruStates calls c).
Proof.
  revert c. induction calls as [|call calls IH]; intros c Hmax Hc; simpl.
  - constructor.
  - constructor; [by apply lruCall_bounded|].
    apply IH; [by rewrite lruCall_maxSize|by apply lruCall_bounded].
Qed.

End Bound.

End LRUCacheFacts.

(** ** The strategy selector *)

Module SelectorFacts.
Import JS Selector.
Local Open Scope Z_scope.

Lemma decide_extension (P : Prop) `{Decision P} : bool_decide P = true -> P.
Proof. apply bool_decide_eq_true_1. Defined.

Ltac by_decide :=
  match goal with
  | |- ?P => apply (decide_extension P); vm_compute; reflexivity
  end.

Ltac selector_norm :=
  cbn [fmap option_fmap option_map default from_option id compose].

Section Rules.
Context {lruPkg : LruCachePkg SmartHybrid.CacheEntry}.

Lemma truthy_size (k : Z) : truthy (Some k) = bool_decide (k <> 0).
Proof.
  unfold truthy. destruct (Z.eqb_spec k 0).
  - by rewrite bool_decide_eq_false_2 by tauto.
  - by rewrite bool_decide_eq_true_2.
Qed.

Lemma hasAstSupport_ast (fp : string) :
  extensionOf fp ∈ astExtensions -> hasAstSupport (Some fp) = true.
Proof.
  intros Hext. unfold hasAstSupport.
  destruct (String.eqb_spec fp EmptyString) as [->|_].
  - apply (bool_decide_pack _) in Hext. by vm_compute in Hext.
  - apply bool_decide_eq_true_2. unfold astExtensions in Hext.
    rewrite !elem_of_cons in *. tauto.
Qed.

Lemma hasAstSupport_other (fp : string) :
  extensionOf fp ∉ "go" :: astExtensions -> hasAstSupport (Some fp) = false.
Proof.
  intros Hext. unfold hasAstSupport.
  destruct (String.eqb fp EmptyString); [done|].
  apply bool_decide_eq_false_2. unfold astExtensions in Hext.
  rewrite !elem_of_cons in *. tauto.
Qed.

Lemma textExtensions_not_ast (ext : string) :
  ext ∈ textExtensions -> ext ∉ "go" :: astExtensions.
Proof.
  intros Hin Hast.
  unfold textExtensions, astExtensions in *.
  repeat (apply elem_of_cons in Hin as [->|Hin];
          [by apply (bool_decide_pack _) in Hast|]).
  by apply elem_of_nil in Hin.
Qed.

Lemma large_not_zero (fs : FileStats) :
  LARGE_FILE_THRESHOLD < size fs -> size fs <> 0.
Proof. unfold LARGE_FILE_THRESHOLD. lia. Qed.

Lemma rule_parallel (model : string) (fs : FileStats) (t : option Q)
  (e : bool) :
  LARGE_FILE_THRESHOLD < size fs ->
  getDiffStrategy model (Some (Stats fs)) t e = ParallelDiff (Parallel.new t).
Proof.
  intros Hlarge. unfold getDiffStrategy. selector_norm.
  rewrite truthy_size.
  rewrite (bool_decide_eq_true_2 (_ <> _)) by by apply large_not_zero.
  by rewrite (bool_decide_eq_true_2 (_ < _)).
Qed.

Lemma rule_ast (model : string) (fs : FileStats) (t : option Q) (e : bool) :
  size fs <= LARGE_FILE_THRESHOLD ->
  extensionOf (path fs) ∈ astExtensions ->
  getDiffStrategy model (Some (Stats fs)) t e
  = AstAwareDiff (AstAware.new t None).
Proof.
  intros Hsmall Hext. unfold getDiffStrategy.
  selector_norm.
  rewrite (bool_decide_eq_false_2 (_ < _)) by lia.
  rewrite andb_false_r. by rewrite hasAstSupport_ast.
Qed.

Lemma rule_smart_hybrid (model : string) (fs : FileStats) (t : option Q)
  (e : bool) :
  size fs <= LARGE_FILE_THRESHOLD -> size fs <> 0 ->
  extensionOf (path fs) ∈ textExtensions ->
  getDiffStrategy model (Some (Stats fs)) t e = SmartHybridDiff SmartHybrid.new.
Proof.
  intros Hsmall Hnz Hext. unfold getDiffStrategy.
  selector_norm.
  rewrite (bool_decide_eq_false_2 (_ < _)) by lia.
  rewrite andb_false_r.
  rewrite hasAstSupport_other by by apply textExtensions_not_ast.
  rewrite truthy_size, !bool_decide_eq_true_2 by done. cbn [andb].
  destruct (String.eqb_spec (extensionOf (path fs)) EmptyString) as [E|_].
  - rewrite E in Hext. apply (bool_decide_pack _) in Hext.
    by vm_compute in Hext.
  - cbn [negb andb]. rewrite bool_decide_eq_true_2; [done|].
    unfold textExtensions in Hext. rewrite !elem_of_cons in *. tauto.
Qed.

Lemma rule_optimized_unified (model : string) (fs : FileStats)
  (t : option Q) (e : bool) :
  size fs <= LARGE_FILE_THRESHOLD -> size fs <> 0 ->
  extensionOf (path fs) ∉ "go" :: astExtensions ++ textExtensions ->
  getDiffStrategy model (Some (Stats fs)) t e
  = OptimizedUnifiedDiff (OptimizedUnified.new t).
Proof.
  intros Hsmall Hnz Hext. unfold getDiffStrategy.
  selector_norm.
  rewrite (bool_decide_eq_false_2 (_ < _)) by lia.
  rewrite andb_false_r.
  rewrite hasAstSupport_other.
  2:{ intros Hin. apply Hext. unfold astExtensions, textExtensions in *.
      cbn [app]. rewrite !elem_of_cons in *. tauto. }
  rewrite truthy_size, !bool_decide_eq_true_2 by done. cbn [andb].
  rewrite (bool_decide_eq_false_2 (_ ∈ _)); [by rewrite andb_false_r|].
  intros Hin. apply Hext. unfold astExtensions, textExtensions.
  cbn [app]. rewrite !elem_of_cons in *. tauto.
Qed.

Lemma rule_search_replace_zero (model : string) (fs : FileStats)
  (t : option Q) (e : bool) :
  size fs = 0 ->
  extensionOf (path fs) ∉ "go" :: astExtensions ->
  getDiffStrategy model (Some (Stats fs)) t e
  = SearchReplaceDiff (SearchReplace.new t None).
Proof.
  intros Hz Hext. unfold getDiffStrategy.
  selector_norm.
  rewrite hasAstSupport_other by done.
  by rewrite truthy_size, (bool_decide_eq_false_2 (_ <> _)) by tauto.
Qed.

(** C1 (amended). The selector is a function of its second and third
    argument alone (the model name and the experimental flag do not
    matter). With file statistics: a size above 1 MiB gives Parallel,
    whatever the path; a size of at most 1 MiB gives AST-Aware when the
    extension is among js, jsx, ts, tsx (also when the size is 0), Smart
    Hybrid when the size is not 0 and the extension is among json, txt,
    md, yml, yaml, Optimized Unified when the size is not 0 and the
    extension is in neither set and is not go, and Search-Replace when
    the size is 0 and the extension is none of js, jsx, ts, tsx, go.
    Without a second argument, and with a number as second argument (the
    legacy form, in which the number is the threshold), it gives
    Search-Replace. *)
Theorem selector_rules :
  (forall (model model' : string) (arg : option StatsOrThreshold)
          (t : option Q) (e e' : bool),
     getDiffStrategy model arg t e = getDiffStrategy model' arg t e') /\
  (forall (model : string) (fs : FileStats) (t : option Q) (e : bool),
     (LARGE_FILE_THRESHOLD < size fs ->
      getDiffStrategy model (Some (Stats fs)) t e
      = ParallelDiff (Parallel.new t)) /\
     (size fs <= LARGE_FILE_THRESHOLD ->
      extensionOf (path fs) ∈ astExtensions ->
      getDiffStrategy model (Some (Stats fs)) t e
      = AstAwareDiff (AstAware.new t None)) /\
     (size fs <= LARGE_FILE_THRESHOLD -> size fs <> 0 ->
      extensionOf (path fs) ∈ textExtensions ->
      getDiffStrategy model (Some (Stats fs)) t e
      = SmartHybridDiff SmartHybrid.new) /\
     (size fs <= LARGE_FILE_THRESHOLD -> size fs <> 0 ->
      extensionOf (path fs) ∉ "go" :: astExtensions ++ textExtensions ->
      getDiffStrategy model (Some (Stats fs)) t e
      = OptimizedUnifiedDiff (OptimizedUnified.new t)) /\
     (size fs = 0 ->
      extensionOf (path fs) ∉ "go" :: astExtensions ->
      getDiffStrategy model (Some (Stats fs)) t e
      = SearchReplaceDiff (SearchReplace.new t None))) /\
  (forall (model : string) (t : option Q) (e : bool),
     getDiffStrategy model None t e
     = SearchReplaceDiff (SearchReplace.new t None)) /\
  (forall (model : string) (threshold : Q) (t : option Q) (e : bool),
     getDiffStrategy model (Some (Threshold threshold)) t e
     = SearchReplaceDiff (SearchReplace.new (Some threshold) None)).
Proof.
  split; [done|]. split; [|done].
  intros model fs t e.
  auto 10 using rule_parallel, rule_ast, rule_smart_hybrid,
    rule_optimized_unified, rule_search_replace_zero.
Qed.

(** The extension go is caught by the second rule, before the text set of
    the third rule is consulted, and the strategy it gets rejects the
    language. *)
Lemma selector_go (model : string) (fs : FileStats) (t : option Q)
  (e : bool) :
  size fs <= LARGE_FILE_THRESHOLD ->
  extensionOf (path fs) = "go" ->
  getDiffStrategy model (Some (Stats fs)) t e
  = AstAwareDiff (AstAware.new t None).
Proof.
  intros Hsmall Hext. unfold getDiffStrategy.
  selector_norm.
  rewrite (bool_decide_eq_false_2 (_ < _)) by lia.
  rewrite andb_false_r. unfold hasAstSupport.
  destruct (String.eqb_spec (path fs) EmptyString) as [E|_].
  - rewrite E in Hext. by vm_compute in Hext.
  - rewrite Hext. by rewrite bool_decide_eq_true_2 by by_decide.
Qed.

Lemma ast_aware_rejects_go pipeline (self : AstAware.AstAwareStrategy)
  (originalContent diffContent : string) (options : ApplyOptions)
  (fs : FileStats) :
  fileStats options = Some fs ->
  extensionOf (path fs) = "go" ->
  AstAware.applyDiff pipeline self originalContent diffContent options
  = Failure
      "Failed to apply AST-aware diff: Language unknown is not supported for AST-aware diffing"
      (Some []).
Proof.
  intros Hfs Hext. unfold AstAware.applyDiff, AstAware.applyDiffBody.
  rewrite Hfs. cbn [fmap option_fmap option_map].
  unfold AstAware.detectLanguage.
  destruct (String.eqb_spec (path fs) EmptyString) as [E|_].
  - rewrite E in Hext. by vm_compute in Hext.
  - change (AstAware.extension (path fs)) with (extensionOf (path fs)).
    by rewrite Hext.
Qed.

(** C7 (amended). The threshold given to the selector, as its third
    argument or, in the legacy form, as its second, reaches the instance
    unchanged for Parallel, AST-Aware, Optimized Unified and
    Search-Replace; a Smart Hybrid instance is built without it. When no
    threshold is given, each of the four uses its own default. *)
Theorem threshold_passed_through :
  (forall (model : string) (fs : FileStats) (t : Q) (e : bool),
     let strategy := getDiffStrategy model (Some (Stats fs)) (Some t) e in
     strategy = SmartHybridDiff SmartHybrid.new \/
     thresholdOf strategy = Some t) /\
  (forall (model : string) (t : Q) (t' : option Q) (e : bool),
     thresholdOf (getDiffStrategy model (Some (Threshold t)) t' e) = Some t) /\
  (forall (model : string) (t : Q) (e : bool),
     thresholdOf (getDiffStrategy model None (Some t) e) = Some t) /\
  (forall (model : string) (fs : FileStats) (e : bool),
     let strategy := getDiffStrategy model (Some (Stats fs)) None e in
     match strategy with
     | SmartHybridDiff s => s = SmartHybrid.new
     | SearchReplaceDiff _ => thresholdOf strategy = Some 1%Q
     | _ => thresholdOf strategy = Some (9 # 10)%Q
     end).
Proof.
  repeat split.
  - intros model fs t e. unfold getDiffStrategy.
    repeat match goal with
           | |- context [if ?b then _ else _] => destruct b
           end; cbn; auto.
  - intros model fs e. unfold getDiffStrategy.
    repeat match goal with
           | |- context [if ?b then _ else _] => destruct b
           end; cbn; auto.
Qed.

End Rules.

Local Existing Instance Packages.lru.

(** The claim as it stands fails on an empty file: [size] 0 is falsy, so
    [{ size: 0, path: "notes.json" }] gets Search-Replace, although the size
    is known, at most 1 MiB, and the extension is in the text set. It also
    fails on a Go file: [{ size: 100, path: "main.go" }] gets AST-Aware and
    keeps it, there is no fail-over to the next rule, and every call of
    [applyDiff] on that instance for that file is a failure. *)
Lemma selector_empty_file_counterexample :
  getDiffStrategy "gpt-4"
    (Some (Stats (mkFileStats 0 "notes.json" None 0))) None false
  = SearchReplaceDiff (SearchReplace.new None None) /\
  getDiffStrategy "gpt-4"
    (Some (Stats (mkFileStats 0 "notes.json" None 0))) None false
  <> SmartHybridDiff SmartHybrid.new /\
  getDiffStrategy "gpt-4"
    (Some (Stats (mkFileStats 100 "main.go" None 0))) None false
  = AstAwareDiff (AstAware.new None None) /\
  (forall pipeline (originalContent diffContent : string),
     AstAware.applyDiff pipeline (AstAware.new None None) originalContent
       diffContent
       (mkApplyOptions None None (Some (mkFileStats 100 "main.go" None 0))
          false)
     = Failure
         "Failed to apply AST-aware diff: Language unknown is not supported for AST-aware diffing"
         (Some [])).
Proof.
  split; [reflexivity|]. split; [discriminate|]. split; [reflexivity|].
  intros pipeline originalContent diffContent. reflexivity.
Qed.

Lemma selector_rules_witness :
  getDiffStrategy "gpt-4"
    (Some (Stats (mkFileStats 2000000 "big.csv" None 0))) None false
  = ParallelDiff (Parallel.new None) /\
  getDiffStrategy "gpt-4"
    (Some (Stats (mkFileStats 100 "src/App.TSX" None 0))) (Some (1 # 2)%Q) false
  = AstAwareDiff (AstAware.new (Some (1 # 2)%Q) None) /\
  getDiffStrategy "gpt-4"
    (Some (Stats (mkFileStats 100 "notes.json" None 0))) None false
  = SmartHybridDiff SmartHybrid.new /\
  getDiffStrategy "gpt-4"
    (Some (Stats (mkFileStats 100 "main.py" None 0))) None false
  = OptimizedUnifiedDiff (OptimizedUnified.new None) /\
  getDiffStrategy "gpt-4"
    (Some (Stats (mkFileStats 0 "notes.json" None 0))) None false
  = SearchReplaceDiff (SearchReplace.new None None) /\
  getDiffStrategy "gpt-4"
    (Some (Stats (mkFileStats 0 "index.js" None 0))) None false
  = AstAwareDiff (AstAware.new None None).
Proof.
  pose proof (proj1 (proj2 selector_rules)) as Hrules.
  split; [|split; [|split; [|split; [|split]]]].
  - apply (Hrules "gpt-4" (mkFileStats 2000000 "big.csv" None 0)).
    vm_compute. reflexivity.
  - apply (Hrules "gpt-4" (mkFileStats 100 "src/App.TSX" None 0)).
    + vm_compute. discriminate.
    + by_decide.
  - apply (Hrules "gpt-4" (mkFileStats 100 "notes.json" None 0)).
    + vm_compute. discriminate.
    + simpl. lia.
    + by_decide.
  - apply (Hrules "gpt-4" (mkFileStats 100 "main.py" None 0)).
    + vm_compute. discriminate.
    + simpl. lia.
    + by_decide.
  - apply (Hrules "gpt-4" (mkFileStats 0 "notes.json" None 0)).
    + reflexivity.
    + by_decide.
  - apply (Hrules "gpt-4" (mkFileStats 0 "index.js" None 0)).
    + vm_compute. discriminate.
    + by_decide.
Defined.

(** The claim as it stands fails for Smart Hybrid: its constructor takes no
    argument, and the instance holds no threshold. *)
Lemma threshold_smart_hybrid_counterexample :
  thresholdOf
    (getDiffStrategy "gpt-4"
       (Some (Stats (mkFileStats 100 "notes.json" None 0))) (Some (1 # 2)%Q)
       false)
  <> Some (1 # 2)%Q.
Proof. discriminate. Qed.

Lemma threshold_passed_through_witness :
  thresholdOf
    (getDiffStrategy "gpt-4"
       (Some (Stats (mkFileStats 100 "main.py" None 0))) (Some (1 # 2)%Q)
       false)
  = Some (1 # 2)%Q.
Proof.
  destruct (proj1 threshold_passed_through "gpt-4"
              (mkFileStats 100 "main.py" None 0) (1 # 2)%Q false)
    as [Hhybrid|Hthreshold].
  - discriminate Hhybrid.
  - exact Hthreshold.
Defined.

End SelectorFacts.

(** ** Search-Replace strategy *)

Module SearchReplaceFacts.
Import JS JSFacts SearchReplace LRUCacheFacts.
Local Open Scope Z_scope.

Lemma Qltb_lt (x y : Q) : Qltb x y = true <-> (x < y)%Q.
Proof. unfold Qltb, Qlt. apply Z.ltb_lt. Qed.

Lemma Qleb_le (x y : Q) : Qleb x y = true <-> (x <= y)%Q.
Proof. unfold Qleb, Qle. apply Z.leb_le. Qed.

Lemma Qltb_antisym (x y : Q) : Qltb x y = negb (Qleb y x).
Proof. unfold Qltb, Qleb. apply Z.ltb_antisym. Qed.

(** A threshold of at most 1 is reached by the score 1. *)
Lemma threshold_reached (t : Q) : (t <= 1)%Q -> Qleb (double t) 1 = true.
Proof. intros Ht. apply Qleb_le. by apply double_le_1. Qed.

Lemma threshold_not_above (t : Q) : (t <= 1)%Q -> Qltb 1 (double t) = false.
Proof.
  intros Ht. rewrite Qltb_antisym. apply negb_false_iff.
  by apply threshold_reached.
Qed.

(** *** The cache agrees with the scores *)

Lemma cacheKey_inj (original original' search : string) :
  cacheKey original search = cacheKey original' search ->
  original = original'.
Proof. unfold cacheKey. apply append_inj_r. Qed.

Lemma mapGet_mapDelete_Some {K V : Type} `{EqDecision K} (key key' : K)
  (v : V) (entries : list (K * V)) :
  mapGet key (mapDelete key' entries) = Some v ->
  mapGet key entries = Some v.
Proof.
  destruct (decide (key = key')) as [->|Hne].
  - by rewrite mapGet_mapDelete.
  - by rewrite mapGet_mapDelete_ne.
Qed.

Lemma lruGet_consistent (search original : string) (sc : LRUCache string Q) :
  consistent search sc ->
  consistent search (snd (lruGet (cacheKey original search) sc)) /\
  match fst (lruGet (cacheKey original search) sc) with
  | Some v => v = similarity original search
  | None => True
  end.
Proof.
  intros Hsc. unfold lruGet.
  destruct (mapGet _ (cache sc)) as [v|] eqn:Hget; cbn [fst snd]; [|done].
  split; [|by apply Hsc].
  intros original' v'. cbn [cache].
  destruct (decide (cacheKey original' search = cacheKey original search))
    as [Heq|Hne].
  - rewrite Heq, mapGet_mapSet. intros [= <-].
    apply cacheKey_inj in Heq as ->. by apply Hsc.
  - rewrite mapGet_mapSet_ne by done.
    intros Hget'%mapGet_mapDelete_Some. by apply Hsc.
Qed.

Lemma lruSet_consistent (search original : string) (sc : LRUCache string Q) :
  consistent search sc ->
  consistent search
    (lruSet (cacheKey original search) (similarity original search) sc).
Proof.
  intros Hsc original' v'. unfold lruSet. cbn [cache].
  destruct (decide (cacheKey original' search = cacheKey original search))
    as [Heq|Hne].
  - rewrite Heq, mapGet_mapSet. intros [= <-].
    by apply cacheKey_inj in Heq as ->.
  - rewrite mapGet_mapSet_ne by done.
    destruct (maxSize sc <=? lruSize sc); [|by apply Hsc].
    destruct (cache sc) as [|[firstKey v] rest] eqn:Hcache.
    + done.
    + rewrite <- Hcache. intros Hget'%mapGet_mapDelete_Some. by apply Hsc.
Qed.

(** With a consistent cache [getSimilarity] returns the score of the pair,
    hit or miss, and leaves the cache consistent. *)
Lemma getSimilarity_consistent (search original : string)
  (sc : LRUCache string Q) :
  consistent search sc ->
  fst (getSimilarity sc original search) = uncachedScore original search /\
  consistent search (snd (getSimilarity sc original search)).
Proof.
  intros Hsc. unfold getSimilarity, uncachedScore.
  destruct (String.eqb search EmptyString); [done|].
  destruct (lruGet_consistent search original sc Hsc) as [Hsc' Hv].
  destruct (lruGet (cacheKey original search) sc) as [[v|] sc'];
    cbn [fst snd] in *.
  - by subst v.
  - split; [done|]. by apply lruSet_consistent.
Qed.

Lemma consistent_empty (search : string) (size : Z) :
  consistent search (newLRUCache size).
Proof. by intros original v. Qed.

(** *** The sliding-window loop *)

Lemma scan_step (fuel : nat) (originalLines : list string)
  (searchChunk : string) (searchHash windowSize maxIndex i : Z)
  (best : Candidate) (sc : LRUCache string Q) :
  scan (S fuel) originalLines searchChunk searchHash windowSize maxIndex i
    best sc =
  if i <? maxIndex then
    let chunk := window originalLines windowSize i in
    if murmurHash3 chunk =? searchHash then (mkCandidate i 1%Q chunk, sc)
    else if Z.rem i 3 =? 0 then
      let best' :=
        if Qltb (bestMatchScore best)
             (fst (getSimilarity sc chunk searchChunk))
        then mkCandidate i (fst (getSimilarity sc chunk searchChunk)) chunk
        else best in
      if Qleb (double (95 # 100)) (bestMatchScore best')
      then (best', snd (getSimilarity sc chunk searchChunk))
      else scan fuel originalLines searchChunk searchHash windowSize maxIndex
             (i + 1) best' (snd (getSimilarity sc chunk searchChunk))
    else scan fuel originalLines searchChunk searchHash windowSize maxIndex
           (i + 1) best sc
  else (best, sc).
Proof.
  cbn [scan]. unfold window.
  destruct (i <? maxIndex); [|done].
  destruct (murmurHash3 _ =? searchHash); [done|].
  destruct (Z.rem i 3 =? 0); [|done].
  by destruct (getSimilarity sc _ searchChunk).
Qed.

(** *** The calls keep the cache within its capacity *)

Lemma getSimilarity_capped (n : Z) (sc : LRUCache string Q)
  (original search : string) :
  1 <= n -> capped n sc -> capped n (snd (getSimilarity sc original search)).
Proof.
  intros Hn [Hmax Hsize]. unfold getSimilarity.
  destruct (String.eqb search EmptyString); [done|].
  pose proof (lruGet_maxSize (cacheKey original search) sc) as Hmax'.
  pose proof (lruGet_bounded (cacheKey original search) sc) as Hsize'.
  destruct (lruGet (cacheKey original search) sc) as [[v|] sc'];
    cbn [fst snd] in *.
  - split; [congruence|]. unfold bounded in Hsize'. rewrite Hmax' in Hsize'.
    rewrite <- Hmax. apply Hsize'. by rewrite Hmax.
  - split; [by rewrite lruSet_maxSize, Hmax'|].
    assert (bounded sc') as Hb.
    { apply Hsize'. unfold bounded. by rewrite Hmax. }
    pose proof (lruSet_bounded (cacheKey original search)
                  (similarity original search) sc') as Hset.
    unfold bounded in Hset. rewrite lruSet_maxSize, Hmax', Hmax in Hset.
    apply Hset; [done|]. unfold bounded in Hb. by rewrite Hmax', Hmax in Hb.
Qed.

Lemma scan_capped (n : Z) (originalLines : list string)
  (searchChunk : string) (searchHash windowSize maxIndex : Z) :
  1 <= n ->
  forall (fuel : nat) (i : Z) (best : Candidate) (sc : LRUCache string Q),
    capped n sc ->
    capped n (snd (scan fuel originalLines searchChunk searchHash windowSize
                     maxIndex i best sc)).
Proof.
  intros Hn fuel. induction fuel as [|fuel IH]; intros i best sc Hsc; [done|].
  rewrite scan_step.
  destruct (i <? maxIndex); [|done]. cbv zeta.
  destruct (murmurHash3 _ =? searchHash); [done|].
  destruct (Z.rem i 3 =? 0); [|by apply IH].
  pose proof (getSimilarity_capped n sc (window originalLines windowSize i)
                searchChunk Hn Hsc) as Hsc'.
  destruct (Qleb _ _); [done|]. by apply IH.
Qed.

Lemma scanWindow_capped (n : Z) (originalLines searchLines : list string)
  (searchStartIndex searchEndIndex : Z) (best : Candidate)
  (sc : LRUCache string Q) :
  1 <= n -> capped n sc ->
  capped n (snd (scanWindow originalLines searchLines searchStartIndex
                   searchEndIndex best sc)).
Proof.
  intros Hn Hsc. unfold scanWindow.
  destruct (matchIndex best =? -1); [|done]. by apply scan_capped.
Qed.

Lemma locate_capped (n : Z) (self : SearchReplaceDiffStrategy)
  (sc : LRUCache string Q) (originalLines searchLines : list string)
  (startLine endLine : option Z) :
  1 <= n -> capped n sc ->
  capped n (snd (locate self sc originalLines searchLines startLine endLine)).
Proof.
  intros Hn Hsc.
  assert (forall s e best,
            capped n (snd (let '(best', sc') :=
                             scanWindow originalLines searchLines s e best sc
                           in (inr best' : string + Candidate, sc'))))
    as Hscan.
  { intros s e best.
    pose proof (scanWindow_capped n originalLines searchLines s e best sc
                  Hn Hsc).
    by destruct (scanWindow _ _ _ _ _ _). }
  unfold locate.
  destruct startLine as [sl|], endLine as [el|]; try apply Hscan.
  destruct (truthy (Some sl) && truthy (Some el)); [|apply Hscan].
  destruct (_ || _); [done|].
  pose proof (getSimilarity_capped n sc
                (join LF (slice originalLines (sl - 1) (el - 1 + 1)))
                (join LF searchLines) Hn Hsc) as Hsc'.
  destruct (getSimilarity sc _ _) as [similarity sc'] eqn:Hsim.
  cbn [snd] in Hsc'.
  destruct (Qleb _ _); [done|].
  pose proof (scanWindow_capped n originalLines searchLines
                (Z.max 0 (sl - (bufferLines self + 1)))
                (Z.min (Z.of_nat (length originalLines))
                   (el + bufferLines self)) noCandidate sc' Hn Hsc').
  by destruct (scanWindow _ _ _ _ _ _).
Qed.

(** The update of the best candidate keeps its score below a bound that
    both scores are below. *)
Lemma better_below (best : Candidate) (i : Z) (score bound : Q)
  (chunk : string) :
  Qltb (bestMatchScore best) bound = true ->
  Qltb score bound = true ->
  Qltb (bestMatchScore
          (if Qltb (bestMatchScore best) score
           then mkCandidate i score chunk else best)) bound = true.
Proof. intros Hbest Hscore. by destruct (Qltb (bestMatchScore best) score). Qed.

Section Scan.
Variables (originalLines : list string) (searchChunk : string).
Variables (windowSize maxIndex : Z).

(** The loop reaches a window with the hash of the search text unless an
    earlier window makes it stop; up to there no scored window reaches
    0.95, so it stops on a window accepted by its hash, with score 1. *)
Lemma scan_reaches_exact (j : Z) :
  0 <= j < maxIndex ->
  murmurHash3 (window originalLines windowSize j) = murmurHash3 searchChunk ->
  forall (fuel : nat) (i : Z) (best : Candidate) (sc : LRUCache string Q),
    0 <= i <= j ->
    (Z.to_nat (maxIndex - i) <= fuel)%nat ->
    consistent searchChunk sc ->
    (forall k, i <= k < j -> Z.rem k 3 = 0 ->
       Qltb (uncachedScore (window originalLines windowSize k) searchChunk)
         (double (95 # 100)) = true) ->
    Qltb (bestMatchScore best) (double (95 # 100)) = true ->
    exists (k : Z) (sc' : LRUCache string Q),
      i <= k <= j /\
      scan fuel originalLines searchChunk (murmurHash3 searchChunk)
        windowSize maxIndex i best sc
      = (mkCandidate k 1%Q (window originalLines windowSize k), sc').
Proof.
  intros Hj Hhash fuel.
  induction fuel as [|fuel IH]; intros i best sc Hi Hfuel Hsc Hlow Hbest.
  - lia.
  - rewrite scan_step.
    destruct (Z.ltb_spec i maxIndex); [|lia].
    cbv zeta.
    destruct (Z.eqb_spec (murmurHash3 (window originalLines windowSize i))
                (murmurHash3 searchChunk)) as [_|Hne].
    { exists i, sc. split; [lia|done]. }
    assert (i < j) as Hlt.
    { destruct (decide (i = j)) as [->|]; [done|lia]. }
    destruct (Z.eqb_spec (Z.rem i 3) 0) as [Hrem|_].
    + destruct (getSimilarity_consistent searchChunk
                  (window originalLines windowSize i) sc Hsc) as [-> Hsc'].
      set (best' := if Qltb _ _ then _ else best).
      assert (Qltb (bestMatchScore best') (double (95 # 100)) = true) as Hbest'.
      { subst best'. apply better_below; [done|]. apply Hlow; [lia|done]. }
      assert (Qleb (double (95 # 100)) (bestMatchScore best') = false) as ->.
      { rewrite Qltb_antisym in Hbest'. by apply negb_true_iff. }
      destruct (IH (i + 1) best'
                  (snd (getSimilarity sc (window originalLines windowSize i)
                          searchChunk))) as (k & sc' & Hk & Hscan);
        [lia|lia|done| |done|].
      * intros k Hk. apply Hlow. lia.
      * exists k, sc'. split; [lia|done].
    + destruct (IH (i + 1) best sc) as (k & sc' & Hk & Hscan);
        [lia|lia|done| |done|].
      * intros k Hk. apply Hlow. lia.
      * exists k, sc'. split; [lia|done].
Qed.

(** When no window has the hash of the search text and no scored window
    reaches the threshold, the loop ends without an acceptable
    candidate. *)
Lemma scan_rejects (threshold : Q) :
  forall (fuel : nat) (i : Z) (best : Candidate) (sc : LRUCache string Q),
    consistent searchChunk sc ->
    (forall k, i <= k < maxIndex ->
       murmurHash3 (window originalLines windowSize k)
       <> murmurHash3 searchChunk /\
       (Z.rem k 3 = 0 ->
        Qltb (uncachedScore (window originalLines windowSize k) searchChunk)
          threshold = true)) ->
    matchIndex best = -1 \/ Qltb (bestMatchScore best) threshold = true ->
    let best' :=
      fst (scan fuel originalLines searchChunk (murmurHash3 searchChunk)
             windowSize maxIndex i best sc) in
    matchIndex best' = -1 \/ Qltb (bestMatchScore best') threshold = true.
Proof.
  intros fuel.
  induction fuel as [|fuel IH]; intros i best sc Hsc Hwin Hbest; [done|].
  rewrite scan_step.
  destruct (Z.ltb_spec i maxIndex); [|done].
  cbv zeta.
  destruct (Hwin i ltac:(lia)) as [Hhash Hscore].
  destruct (Z.eqb_spec (murmurHash3 (window originalLines windowSize i))
              (murmurHash3 searchChunk)) as [|_]; [done|].
  destruct (Z.eqb_spec (Z.rem i 3) 0) as [Hrem|_].
  - destruct (getSimilarity_consistent searchChunk
                (window originalLines windowSize i) sc Hsc) as [-> Hsc'].
    set (best' := if Qltb _ _ then _ else best).
    assert (matchIndex best' = -1
            \/ Qltb (bestMatchScore best') threshold = true) as Hbest'.
    { subst best'.
      destruct (Qltb (bestMatchScore best)
                  (uncachedScore (window originalLines windowSize i)
                     searchChunk)); [|done].
      right. by apply Hscore. }
    destruct (Qleb (double (95 # 100)) (bestMatchScore best')); [done|].
    apply IH; [done| |done]. intros k Hk. apply Hwin. lia.
  - apply IH; [done| |done]. intros k Hk. apply Hwin. lia.
Qed.

End Scan.

Section Guards.
Context {helpers : ExtractText}.

Lemma sectionLines_empty : sectionLines EmptyString = [].
Proof. done. Qed.

Lemma splitLines_nonempty (s : string) : splitLines s <> [].
Proof.
  induction s as [|c s IH]; [done|]. cbn [splitLines].
  destruct (Ascii.eqb c "010"); [done|].
  destruct (Ascii.eqb c "013" && _); [done|].
  by destruct (splitLines s).
Qed.

Lemma indentLine_base (line : string) :
  indentLine EmptyString 0 line = getIndent line +:+ trim line.
Proof.
  unfold indentLine. rewrite Z.sub_0_r.
  destruct (Z.ltb_spec (strLength (getIndent line)) 0) as [Hlt|_].
  { unfold strLength in Hlt. lia. }
  unfold strSliceFrom. by rewrite relIndex_nonneg by lia.
Qed.

(** Without a line range the whole document is scanned. *)
Lemma locate_unhinted (self : SearchReplaceDiffStrategy)
  (sc : LRUCache string Q) (originalLines searchLines : list string)
  (startLine endLine : option Z) :
  truthy startLine && truthy endLine = false ->
  locate self sc originalLines searchLines startLine endLine =
  (inr (fst (scanWindow originalLines searchLines 0
               (Z.of_nat (length originalLines)) noCandidate sc)),
   snd (scanWindow originalLines searchLines 0
          (Z.of_nat (length originalLines)) noCandidate sc)).
Proof.
  intros Hhint. unfold locate.
  destruct startLine as [sl|], endLine as [el|];
    try rewrite Hhint; by destruct (scanWindow _ _ _ _ _ _).
Qed.

(** The scan for an empty search text stops on the empty window at the
    top of the document, which has the hash of the empty text. *)
Lemma scanWindow_empty_search (originalLines : list string)
  (sc : LRUCache string Q) :
  scanWindow originalLines [] 0 (Z.of_nat (length originalLines)) noCandidate
    sc
  = (mkCandidate 0 1%Q EmptyString, sc).
Proof.
  unfold scanWindow.
  change (matchIndex noCandidate =? -1) with true.
  change (Z.of_nat (length (@nil string))) with 0.
  replace (Z.to_nat (Z.of_nat (length originalLines) - 0 + 1 - 0))
    with (S (length originalLines)) by lia.
  cbn [scan].
  rewrite (proj2 (Z.ltb_lt 0 _)) by lia.
  change (0 + 0) with 0. rewrite slice_0_0. by rewrite Z.eqb_refl.
Qed.

(** C6 (amended). With an empty search section, [applyDiff] fails when no
    start line is given (absent, or 0), and when a start line and an end
    line are both given and differ; the cache is not touched. A call that
    gives a start line and no end line (absent, or 0) is not rejected: for
    every threshold up to 1 it succeeds and puts the replace lines (each
    as its leading tabs and spaces followed by its trimmed text) in front
    of the first line of the document, whatever the start line is. *)
Theorem empty_search_guards (self : SearchReplaceDiffStrategy)
  (sc : LRUCache string Q) (originalContent diffContent replaceContent
   : string) (options : ApplyOptions) :
  extractSections diffContent = Some (EmptyString, replaceContent) ->
  (truthy (startLine options) = false ->
   applyDiff self sc originalContent diffContent options
   = (Failure emptySearchNoStartError None, sc)) /\
  (forall sl el : Z,
     startLine options = Some sl -> endLine options = Some el ->
     sl <> 0 -> el <> 0 -> sl <> el ->
     applyDiff self sc originalContent diffContent options
     = (Failure (emptySearchRangeError sl el) None, sc)) /\
  (truthy (startLine options) = true -> truthy (endLine options) = false ->
   (fuzzyThreshold self <= 1)%Q ->
   let lineEnding := if includes originalContent CRLF then CRLF else LF in
   let inserted :=
     map (fun line => getIndent line +:+ trim line)
       (sectionLines replaceContent) in
   applyDiff self sc originalContent diffContent options
   = (Success
        (join lineEnding
           [join lineEnding inserted;
            join lineEnding (splitLines originalContent)])
        (Z.of_nat (length (sectionLines replaceContent)))
        (if collectMetrics options then Some (mkDiffMetrics 1) else None),
      sc)).
Proof.
  intros Hextract. unfold applyDiff. rewrite Hextract, sectionLines_empty.
  unfold emptySearchCheck. cbn [length Z.of_nat Z.eqb andb].
  split; [|split].
  - by intros ->.
  - intros sl el -> -> Hsl Hel Hne. cbn [truthy default from_option id].
    destruct (Z.eqb_spec sl 0); [done|].
    destruct (Z.eqb_spec el 0); [done|].
    destruct (Z.eqb_spec sl el); [done|]. done.
  - intros Hs He Hthr. rewrite Hs, He.
    change (Z.of_nat 0 =? 0) with true. cbn [negb andb].
    rewrite locate_unhinted by by rewrite Hs, He.
    rewrite scanWindow_empty_search. cbn [fst snd matchIndex bestMatchScore].
    change (0 =? -1) with false. cbn [orb].
    rewrite threshold_not_above by done.
    unfold spliceReplacement.
    change (Z.of_nat (length (@nil string))) with 0.
    change (0 + 0) with 0. change (0 <? 0) with false.
    rewrite slice_0_0.
    cbn [head default from_option id getIndent strLength String.length].
    change (Z.of_nat 0) with 0.
    rewrite (map_ext _ _ indentLine_base).
    pose proof (splitLines_nonempty originalContent) as Hne.
    destruct (Z.ltb_spec 0 (Z.of_nat (length (splitLines originalContent))))
      as [_|Hlen].
    2:{ destruct (splitLines originalContent); [done|]. simpl in Hlen. lia. }
    unfold sliceFrom. rewrite relIndex_nonneg by lia.
    cbn [Z.to_nat Nat.min drop app]. by rewrite length_map.
Qed.

(** C4. Once the search has a candidate window, [applyDiff] accepts it
    exactly when its score is at least [fuzzyThreshold], the two compared
    as binary64 numbers: at the threshold it succeeds, below it fails with
    the diagnostic that reports the score and the threshold as
    percentages, each the floor of the binary64 product by 100, printed
    as [String] prints a number. The threshold is 1.0 when the
    constructor gets none. *)
Theorem threshold_boundary (self : SearchReplaceDiffStrategy)
  (sc sc' : LRUCache string Q) (originalContent diffContent searchContent
   replaceContent : string) (options : ApplyOptions) (best : Candidate) :
  extractSections diffContent = Some (searchContent, replaceContent) ->
  emptySearchCheck (sectionLines searchContent) (startLine options)
    (endLine options) = None ->
  locate self sc (splitLines originalContent) (sectionLines searchContent)
    (startLine options) (endLine options) = (inr best, sc') ->
  matchIndex best <> -1 ->
  let r := fst (applyDiff self sc originalContent diffContent options) in
  ((double (fuzzyThreshold self) <= bestMatchScore best)%Q
   <-> isSuccess r = true) /\
  ((bestMatchScore best < double (fuzzyThreshold self))%Q ->
   r = Failure
         (noMatchError self (startLine options) (endLine options)
            (splitLines originalContent)
            (join LF (sectionLines searchContent)) best) None /\
   exists before after : string,
     noMatchError self (startLine options) (endLine options)
       (splitLines originalContent) (join LF (sectionLines searchContent))
       best
     = before +:+ " ("
       +:+ numberToString
             (Qfloor (double (double (bestMatchScore best) * 100)))
       +:+ "% similar, needs "
       +:+ numberToString
             (Qfloor (double (double (fuzzyThreshold self) * 100)))
       +:+ "%)" +:+ after) /\
  (forall bufferLines : option Z,
     fuzzyThreshold (new None bufferLines) = 1%Q).
Proof.
  intros Hextract Hguard Hlocate Hcand r. subst r.
  unfold applyDiff. rewrite Hextract, Hguard, Hlocate.
  destruct (Z.eqb_spec (matchIndex best) (-1)) as [|_]; [done|].
  cbn [orb]. rewrite Qltb_antisym.
  split; [|split; [|done]].
  - rewrite <- Qleb_le.
    destruct (Qleb (double (fuzzyThreshold self)) (bestMatchScore best));
      cbn [negb]; [|done].
    by destruct (spliceReplacement _ _ _ _ _).
  - intros Hlt. apply Qltb_lt in Hlt. rewrite Qltb_antisym in Hlt.
    destruct (Qleb (double (fuzzyThreshold self)) (bestMatchScore best));
      [done|].
    cbn [negb fst]. split; [done|].
    exists ("No sufficiently similar match found"
            +:+ lineRangeText (startLine options) (endLine options)).
    exists (noMatchDetails self (startLine options) (endLine options)
              (splitLines originalContent)
              (join LF (sectionLines searchContent)) best).
    unfold noMatchError, percent. by rewrite append_assoc.
Qed.

Lemma sectionLines_nonempty (content : string) :
  content <> EmptyString -> sectionLines content <> [].
Proof.
  intros Hne. unfold sectionLines.
  destruct (String.eqb_spec content EmptyString); [done|].
  apply splitLines_nonempty.
Qed.

Lemma emptySearchCheck_nonempty (searchLines : list string)
  (startLine endLine : option Z) :
  searchLines <> [] -> emptySearchCheck searchLines startLine endLine = None.
Proof.
  intros Hne. unfold emptySearchCheck.
  destruct searchLines as [|l ls]; [done|].
  by destruct (Z.eqb_spec (Z.of_nat (length (l :: ls))) 0).
Qed.

Lemma scanWindow_unfold (originalLines searchLines : list string)
  (searchEndIndex : Z) (sc : LRUCache string Q) :
  scanWindow originalLines searchLines 0 searchEndIndex noCandidate sc =
  scan (Z.to_nat (searchEndIndex - Z.of_nat (length searchLines) + 1 - 0))
    originalLines (join LF searchLines) (murmurHash3 (join LF searchLines))
    (Z.of_nat (length searchLines))
    (searchEndIndex - Z.of_nat (length searchLines) + 1) 0 noCandidate sc.
Proof. done. Qed.

(** The Search-Replace half of the exactness property: when the search
    lines are a window of the document, the whole document is scanned, and
    no scored window before that one reaches 0.95, the search ends on a
    window with score 1 and [applyDiff] succeeds for every threshold up to
    1. *)
Lemma exact_window_found (self : SearchReplaceDiffStrategy)
  (sc : LRUCache string Q) (originalContent diffContent searchContent
   replaceContent : string) (options : ApplyOptions)
  (pre post : list string) :
  extractSections diffContent = Some (searchContent, replaceContent) ->
  searchContent <> EmptyString ->
  splitLines originalContent = pre ++ sectionLines searchContent ++ post ->
  truthy (startLine options) && truthy (endLine options) = false ->
  consistent (join LF (sectionLines searchContent)) sc ->
  noEarlierNearMatch (splitLines originalContent)
    (sectionLines searchContent) (Z.of_nat (length pre)) ->
  (fuzzyThreshold self <= 1)%Q ->
  exists (content : string) (appliedLines : Z) (best : Candidate)
         (sc' : LRUCache string Q),
    locate self sc (splitLines originalContent) (sectionLines searchContent)
      (startLine options) (endLine options) = (inr best, sc') /\
    0 <= matchIndex best <= Z.of_nat (length pre) /\
    bestMatchScore best = 1%Q /\
    applyDiff self sc originalContent diffContent options
    = (Success content appliedLines
         (if collectMetrics options then Some (mkDiffMetrics 1) else None),
       sc').
Proof.
  intros Hextract Hne Hlines Hhint Hsc Hnear Hthr.
  set (searchLines := sectionLines searchContent) in *.
  set (originalLines := splitLines originalContent) in *.
  set (w := Z.of_nat (length searchLines)).
  assert (Z.of_nat (length originalLines)
          = Z.of_nat (length pre) + w + Z.of_nat (length post)) as Hlen.
  { rewrite Hlines, !length_app. subst w. lia. }
  destruct (scan_reaches_exact originalLines (join LF searchLines) w
              (Z.of_nat (length originalLines) - w + 1)
              (Z.of_nat (length pre)) ltac:(lia)
              ltac:(unfold window; subst w; by rewrite Hlines, slice_middle)
              (Z.to_nat (Z.of_nat (length originalLines) - w + 1 - 0))
              0 noCandidate sc ltac:(lia) ltac:(lia) Hsc
              Hnear ltac:(done)) as (k & sc' & Hk & Hscan).
  set (best := mkCandidate k 1%Q (window originalLines w k)).
  assert (locate self sc originalLines searchLines (startLine options)
            (endLine options) = (inr best, sc')) as Hlocate.
  { rewrite locate_unhinted by done. rewrite scanWindow_unfold.
    fold w. by rewrite Hscan. }
  destruct (spliceReplacement originalLines searchLines
              (sectionLines replaceContent)
              (if includes originalContent CRLF then CRLF else LF) k)
    as [finalContent indentedReplaceLines] eqn:Hsplice.
  exists finalContent, (Z.of_nat (length indentedReplaceLines)), best, sc'.
  split; [done|]. split; [done|]. split; [done|].
  unfold applyDiff. rewrite Hextract.
  fold searchLines originalLines.
  rewrite emptySearchCheck_nonempty by by apply sectionLines_nonempty.
  rewrite Hlocate. cbn [matchIndex bestMatchScore best].
  destruct (Z.eqb_spec k (-1)); [lia|]. cbn [orb].
  rewrite threshold_not_above by done.
  by rewrite Hsplice.
Qed.

(** The Search-Replace half of the rejection property: when the whole
    document is scanned and no window passes, [applyDiff] returns the
    diagnostic of a search without match. *)
Lemma no_window_fails (self : SearchReplaceDiffStrategy)
  (sc : LRUCache string Q) (originalContent diffContent searchContent
   replaceContent : string) (options : ApplyOptions) :
  extractSections diffContent = Some (searchContent, replaceContent) ->
  searchContent <> EmptyString ->
  truthy (startLine options) && truthy (endLine options) = false ->
  consistent (join LF (sectionLines searchContent)) sc ->
  noWindowPasses (double (fuzzyThreshold self)) (splitLines originalContent)
    (sectionLines searchContent) ->
  exists best : Candidate,
    fst (applyDiff self sc originalContent diffContent options)
    = Failure
        (noMatchError self (startLine options) (endLine options)
           (splitLines originalContent)
           (join LF (sectionLines searchContent)) best) None.
Proof.
  intros Hextract Hne Hhint Hsc Hwin.
  set (searchLines := sectionLines searchContent) in *.
  set (originalLines := splitLines originalContent) in *.
  pose proof (scan_rejects originalLines (join LF searchLines)
                (Z.of_nat (length searchLines))
                (Z.of_nat (length originalLines)
                 - Z.of_nat (length searchLines) + 1)
                (double (fuzzyThreshold self))
                (Z.to_nat (Z.of_nat (length originalLines)
                           - Z.of_nat (length searchLines) + 1 - 0))
                0 noCandidate sc Hsc Hwin ltac:(by left)) as Hbest.
  cbv zeta in Hbest. rewrite <- scanWindow_unfold in Hbest.
  exists (fst (scanWindow originalLines searchLines 0
                 (Z.of_nat (length originalLines)) noCandidate sc)).
  unfold applyDiff. rewrite Hextract.
  fold searchLines originalLines.
  rewrite emptySearchCheck_nonempty by by apply sectionLines_nonempty.
  rewrite locate_unhinted by done.
  destruct Hbest as [->| ->]; [done|]. by rewrite orb_true_r.
Qed.

Lemma applyDiff_capped (n : Z) (self : SearchReplaceDiffStrategy)
  (sc : LRUCache string Q) (originalContent diffContent : string)
  (options : ApplyOptions) :
  1 <= n -> capped n sc ->
  capped n (snd (applyDiff self sc originalContent diffContent options)).
Proof.
  intros Hn Hsc. unfold applyDiff.
  destruct (extractSections diffContent) as [[searchContent replaceContent]|];
    [|done].
  destruct (emptySearchCheck _ _ _); [done|].
  pose proof (locate_capped n self sc (splitLines originalContent)
                (sectionLines searchContent) (startLine options)
                (endLine options) Hn Hsc) as Hsc'.
  destruct (locate _ _ _ _ _ _) as [[err|best] sc']; [done|].
  destruct (_ || _); [done|]. by destruct (spliceReplacement _ _ _ _ _).
Qed.

Lemma cacheAfter_capped (n : Z) (calls : list Call) (sc : LRUCache string Q) :
  1 <= n -> capped n sc -> capped n (cacheAfter calls sc).
Proof.
  intros Hn. revert sc.
  induction calls as [|[[[self originalContent] diffContent] options] calls IH];
    intros sc Hsc; [done|].
  apply IH. by apply applyDiff_capped.
Qed.

End Guards.

(** C9. The cache of similarity scores is bounded by its capacity: from a
    new [LRUCache] with [maxSize >= 1], the number of entries is at most
    [maxSize] after every call of a sequence of [get], [set] and [clear];
    a [set] that finds the cache full first deletes the entry at the head
    of the map, the oldest in insertion order; and the shared
    [similarityCache] never holds more than 1000 entries, neither after a
    sequence of calls of its methods nor after a sequence of calls of
    [applyDiff]. *)
Theorem lru_cache_capacity_bounded :
  (forall (K V : Type) (eq : EqDecision K) (size : Z)
          (calls : list (LruCall K V)),
     1 <= size ->
     Forall (fun c => lruSize c <= size)
       (lruStates calls (newLRUCache size))) /\
  (forall (K V : Type) (eq : EqDecision K) (c : LRUCache K V)
          (firstKey key : K) (v value : V) (rest : list (K * V)),
     maxSize c <= lruSize c ->
     cache c = (firstKey, v) :: rest ->
     cache (lruSet key value c)
     = mapSet key value (mapDelete firstKey (cache c)) /\
     (firstKey <> key -> mapGet firstKey (cache (lruSet key value c)) = None))
  /\
  (forall (calls : list (LruCall string Q)),
     Forall (fun c => lruSize c <= 1000)
       (lruStates calls similarityCache0)) /\
  (forall (helpers : ExtractText) (calls : list Call),
     lruSize (cacheAfter calls similarityCache0) <= 1000).
Proof.
  assert (forall (K V : Type) (eq : EqDecision K) (size : Z)
                 (calls : list (LruCall K V)),
            1 <= size ->
            Forall (fun c => lruSize c <= size)
              (lruStates calls (newLRUCache size))) as Hbound.
  { intros K V eq size calls Hsize.
    pose proof (lruStates_bounded calls (newLRUCache size) Hsize
                  (newLRUCache_bounded size ltac:(lia))) as Hall.
    assert (forall (c0 : LRUCache K V) (l : list (LruCall K V)),
              Forall bounded (lruStates l c0) ->
              Forall (fun c => lruSize c <= maxSize c0) (lruStates l c0))
      as Hgen.
    { intros c0 l. revert c0. induction l as [|call l IH]; intros c0 Hl.
      - constructor.
      - simpl in *. inversion Hl as [|? ? Hhd Htl]; subst.
        constructor.
        + unfold bounded in Hhd. by rewrite lruCall_maxSize in Hhd.
        + specialize (IH _ Htl). by rewrite lruCall_maxSize in IH. }
    exact (Hgen _ _ Hall). }
  split; [exact Hbound|]. split; [|split].
  - intros K V eq c firstKey key v value rest Hfull Hcache.
    unfold lruSet. cbn [cache].
    destruct (Z.leb_spec (maxSize c) (lruSize c)); [|lia].
    rewrite Hcache. split; [done|].
    intros Hne. rewrite mapGet_mapSet_ne by done. apply mapGet_mapDelete.
  - intros calls. apply (Hbound string Q _ 1000 calls). lia.
  - intros helpers calls.
    apply (cacheAfter_capped 1000 calls similarityCache0); [lia|].
    split; [done|]. unfold lruSize. simpl. lia.
Qed.

Lemma lru_cache_capacity_bounded_witness :
  Forall (fun c : LRUCache string Q => lruSize c <= 2)
    (lruStates [CallSet "a" 1%Q; CallSet "b" 1%Q; CallGet "a";
                CallSet "c" 1%Q] (newLRUCache 2)) /\
  (let c := mkLRUCache [("b", 1%Q); ("a", 1%Q)] 2 in
   cache (lruSet "c" 1%Q c) = mapSet "c" 1%Q (mapDelete "b" (cache c)) /\
   ("b" <> "c" -> mapGet "b" (cache (lruSet "c" 1%Q c)) = None)).
Proof.
  split.
  - apply (proj1 lru_cache_capacity_bounded string Q _ 2). lia.
  - apply (proj1 (proj2 lru_cache_capacity_bounded) string Q _
             (mkLRUCache [("b", 1%Q); ("a", 1%Q)] 2) "b" "c" 1%Q 1%Q
             [("a", 1%Q)]).
    + vm_compute. discriminate.
    + reflexivity.
Defined.

Local Existing Instance LineNumbers.model.

(** A [SEARCH/REPLACE] block. *)
Local Abbreviation block search replace :=
  ("<<<<<<< SEARCH" +:+ LF +:+ search +:+ LF +:+ "=======" +:+ LF +:+
   replace +:+ LF +:+ ">>>>>>> REPLACE").

(** The claim as it stands fails when a start line is given without an end
    line: the search section is empty, no single-line insertion point with
    equal start and end line is given, and yet the call succeeds (and
    inserts at the top of the document). *)
Lemma empty_search_start_only_counterexample :
  extractSections (block EmptyString "inserted")
  = Some (EmptyString, "inserted") /\
  fst (applyDiff (new None None) similarityCache0
         ("line one" +:+ LF +:+ "line two") (block EmptyString "inserted")
         (mkApplyOptions (Some 2) None None false))
  = Success ("inserted" +:+ LF +:+ "line one" +:+ LF +:+ "line two") 1 None.
Proof. split; vm_compute; reflexivity. Qed.

Lemma empty_search_guards_witness :
  applyDiff (new None None) similarityCache0 "line one"
    (block EmptyString "inserted") noOptions
  = (Failure emptySearchNoStartError None, similarityCache0) /\
  applyDiff (new None None) similarityCache0 "line one"
    (block EmptyString "inserted") (mkApplyOptions (Some 1) (Some 2) None false)
  = (Failure (emptySearchRangeError 1 2) None, similarityCache0) /\
  applyDiff (new None None) similarityCache0
    ("line one" +:+ LF +:+ "line two") (block EmptyString "  inserted  ")
    (mkApplyOptions (Some 2) None None false)
  = (Success ("  inserted" +:+ LF +:+ "line one" +:+ LF +:+ "line two") 1
       None, similarityCache0).
Proof.
  split; [|split].
  - apply (proj1 (empty_search_guards (helpers := LineNumbers.model)
                    (new None None) similarityCache0
                    "line one" (block EmptyString "inserted") "inserted"
                    noOptions ltac:(vm_compute; reflexivity))).
    reflexivity.
  - apply (proj1 (proj2 (empty_search_guards (helpers := LineNumbers.model)
                           (new None None) similarityCache0
                           "line one" (block EmptyString "inserted")
                           "inserted"
                           (mkApplyOptions (Some 1) (Some 2) None false)
                           ltac:(vm_compute; reflexivity))) 1 2);
      [reflexivity|reflexivity|lia|lia|lia].
  - apply (proj2 (proj2 (empty_search_guards (helpers := LineNumbers.model)
                           (new None None) similarityCache0
                           ("line one" +:+ LF +:+ "line two")
                           (block EmptyString "  inserted  ") "  inserted  "
                           (mkApplyOptions (Some 2) None None false)
                           ltac:(vm_compute; reflexivity)))).
    + reflexivity.
    + reflexivity.
    + vm_compute. discriminate.
Defined.

(** The pair "abcd", "abcx" scores 1 - 1 / 4: with the threshold at 0.75
    the window is accepted. The pair "abcde", "vwxye" scores 1 - 4 / 5,
    which is 0.19999999999999996 as a binary64 number: with the threshold
    at 0.2 the window is rejected, as 19% similar where 20% are needed. *)
Lemma threshold_boundary_witness :
  isSuccess
    (fst (applyDiff (new (Some (3 # 4)%Q) None) similarityCache0
            "abcd" (block "abcx" "abcy") noOptions))
  = true /\
  exists before after : string,
    fst (applyDiff (new (Some (1 # 5)%Q) None) similarityCache0
           "abcde" (block "vwxye" "new") noOptions)
    = Failure (before +:+ " (19% similar, needs 20%)" +:+ after) None.
Proof.
  split.
  - pose (sc' := snd (locate (new (Some (3 # 4)%Q) None) similarityCache0
                        (splitLines "abcd") (sectionLines "abcx") None None)).
    apply (proj1 (threshold_boundary (helpers := LineNumbers.model)
                    (new (Some (3 # 4)%Q) None)
                    similarityCache0 sc' "abcd"
                    (block "abcx" "abcy") "abcx" "abcy" noOptions
                    (mkCandidate 0 (3 # 4)%Q "abcd")
                    ltac:(vm_compute; reflexivity)
                    ltac:(vm_compute; reflexivity)
                    ltac:(vm_compute; reflexivity)
                    ltac:(vm_compute; discriminate))).
    vm_compute. discriminate.
  - pose (self := new (Some (1 # 5)%Q) None).
    pose (best := mkCandidate 0 (double (1 - double (4 # 5))) "abcde").
    pose (sc' := snd (locate self similarityCache0
                        (splitLines "abcde") (sectionLines "vwxye") None
                        None)).
    destruct (proj1 (proj2 (threshold_boundary (helpers := LineNumbers.model)
                              self similarityCache0 sc' "abcde"
                              (block "vwxye" "new") "vwxye" "new" noOptions
                              best
                              ltac:(vm_compute; reflexivity)
                              ltac:(vm_compute; reflexivity)
                              ltac:(vm_compute; reflexivity)
                              ltac:(vm_compute; discriminate)))
                ltac:(vm_compute; reflexivity))
      as (Hfail & before & after & Herror).
    exists before, after. subst self best.
    rewrite Hfail, Herror. reflexivity.
Defined.

End SearchReplaceFacts.

(** ** Smart Hybrid strategy *)

Module SmartHybridFacts.
Import JS JSFacts SmartHybrid.
Local Open Scope Z_scope.

Section Caches.
Context {crypto : NodeCrypto} {nodeBuffer : NodeBuffer}
  {lruPkg : LruCachePkg CacheEntry}.

Lemma wellFormed_new (heap : Heap) : wellFormed new heap.
Proof. intros r _. apply lookup_empty. Qed.

Lemma wellFormed_allocate (self : SmartHybridStrategy) (heap : Heap) :
  wellFormed self heap -> wellFormed self (snd (allocate heap)).
Proof. intros Hwf r Hr. apply Hwf. simpl in Hr. lia. Qed.

Lemma wellFormed_hot (self : SmartHybridStrategy) (heap : Heap)
  (hot : HotCache CacheEntry) :
  wellFormed self heap ->
  wellFormed (mkSmartHybridStrategy hot (warmCache self)) heap.
Proof. done. Qed.

(** The key of the warm lookup is the object that the call has just
    allocated: the [WeakMap] has no entry for it. *)
Lemma warm_lookup_misses (self : SmartHybridStrategy) (heap : Heap) :
  wellFormed self heap -> warmCache self !! fst (allocate heap) = None.
Proof. intros Hwf. apply Hwf. simpl. lia. Qed.

Lemma recompute_wellFormed (self : SmartHybridStrategy) (heap : Heap)
  (now : Z) (hybridHash : HybridHash) (cacheKey originalContent
   searchContent replaceContent : string) (collect : bool) :
  wellFormed self heap ->
  wellFormed
    (snd (recompute self now (fst (allocate heap)) hybridHash cacheKey
            originalContent searchContent replaceContent collect))
    (snd (allocate heap)).
Proof.
  intros Hwf. unfold recompute.
  destruct (includes _ _); cbn [snd].
  - intros r Hr. cbn [warmCache]. simpl in Hr.
    rewrite lookup_insert_ne by (simpl; lia). apply Hwf. lia.
  - by apply wellFormed_allocate.
Qed.

(** What [applyDiff] does once the original is decoded and the diff is
    parsed. *)
Lemma applyDiff_parsed (self : SmartHybridStrategy) (heap : Heap) (now : Z)
  (originalContent diffContent decoded searchContent replaceContent : string)
  (options : ApplyOptions) :
  decodeOriginal originalContent = Normal decoded ->
  parseDiffContent diffContent = Normal (searchContent, replaceContent) ->
  let hybridHash := generateHybridHash decoded (fileStats options) in
  let cacheKey := getCacheKey hybridHash diffContent in
  let hot := hotGet now cacheKey (hotCache self) in
  let self1 := mkSmartHybridStrategy (snd hot) (warmCache self) in
  applyDiff self heap now originalContent diffContent options =
  match fst hot with
  | Some entry =>
      (createSuccessResult (result entry) (collectMetrics options), self1,
       heap)
  | None =>
      match warmCache self !! fst (allocate heap) with
      | Some entry =>
          if hashesMatch (hash entry) hybridHash then
            (createSuccessResult (result entry) (collectMetrics options),
             self1, snd (allocate heap))
          else
            (recompute self1 now (fst (allocate heap)) hybridHash cacheKey
               decoded searchContent replaceContent (collectMetrics options),
             snd (allocate heap))
      | None =>
          (recompute self1 now (fst (allocate heap)) hybridHash cacheKey
             decoded searchContent replaceContent (collectMetrics options),
           snd (allocate heap))
      end
  end.
Proof.
  intros Hdecode Hparse. cbv zeta.
  unfold applyDiff, applyDiffBody.
  rewrite Hdecode. cbn [mbind completion_bind].
  rewrite Hparse. cbn [mbind completion_bind].
  destruct (hotGet now _ (hotCache self)) as [[entry|] hot']; cbn [fst snd].
  - done.
  - cbn [allocate fst snd warmCache].
    destruct (warmCache self !! nextRef heap) as [entry|].
    + destruct (hashesMatch _ _); [done|].
      by destruct (recompute _ _ _ _ _ _ _ _ _).
    + by destruct (recompute _ _ _ _ _ _ _ _ _).
Qed.

Lemma applyDiff_wellFormed (self : SmartHybridStrategy) (heap : Heap)
  (now : Z) (originalContent diffContent : string) (options : ApplyOptions) :
  wellFormed self heap ->
  wellFormed
    (snd (fst (applyDiff self heap now originalContent diffContent options)))
    (snd (applyDiff self heap now originalContent diffContent options)).
Proof.
  intros Hwf.
  destruct (decodeOriginal originalContent) as [decoded|msg] eqn:Hdecode.
  2:{ unfold applyDiff, applyDiffBody. by rewrite Hdecode. }
  destruct (parseDiffContent diffContent) as [[searchContent replaceContent]|msg]
    eqn:Hparse.
  2:{ unfold applyDiff, applyDiffBody. rewrite Hdecode.
      cbn [mbind completion_bind]. by rewrite Hparse. }
  rewrite (applyDiff_parsed _ _ _ _ _ _ _ _ _ Hdecode Hparse).
  destruct (fst (hotGet _ _ _)) as [entry|]; [done|].
  rewrite (warm_lookup_misses _ _ Hwf). cbn [fst snd].
  by apply recompute_wellFormed.
Qed.

Lemma reachable_wellFormed (self : SmartHybridStrategy) (heap : Heap) :
  reachable self heap -> wellFormed self heap.
Proof.
  induction 1 as [heap|self heap now o d options _ IH|self heap _ IH].
  - apply wellFormed_new.
  - by apply applyDiff_wellFormed.
  - by apply wellFormed_allocate.
Qed.

(** C10. The warm tier never serves a result. In every state that an
    instance can reach, the key of the warm lookup of a call is the object
    allocated by that very call, so [warmCache.get] finds nothing; hence
    every call that misses the hot cache computes the replacement anew
    (and stores it), whatever the [WeakMap] holds. *)
Theorem warm_cache_never_hits (self : SmartHybridStrategy) (heap : Heap) :
  reachable self heap ->
  warmCache self !! fst (allocate heap) = None /\
  forall (now : Z) (originalContent diffContent decoded searchContent
          replaceContent : string) (options : ApplyOptions),
    decodeOriginal originalContent = Normal decoded ->
    parseDiffContent diffContent = Normal (searchContent, replaceContent) ->
    let hybridHash := generateHybridHash decoded (fileStats options) in
    let cacheKey := getCacheKey hybridHash diffContent in
    let hot := hotGet now cacheKey (hotCache self) in
    fst hot = None ->
    applyDiff self heap now originalContent diffContent options =
    (recompute (mkSmartHybridStrategy (snd hot) (warmCache self)) now
       (fst (allocate heap)) hybridHash cacheKey decoded searchContent
       replaceContent (collectMetrics options),
     snd (allocate heap)).
Proof.
  intros Hreach. pose proof (reachable_wellFormed _ _ Hreach) as Hwf.
  split; [by apply warm_lookup_misses|].
  intros now originalContent diffContent decoded searchContent replaceContent
    options Hdecode Hparse hybridHash cacheKey hot Hmiss.
  rewrite (applyDiff_parsed _ _ _ _ _ _ _ _ _ Hdecode Hparse).
  fold hybridHash cacheKey hot. rewrite Hmiss.
  by rewrite (warm_lookup_misses _ _ Hwf).
Qed.

(** The Smart Hybrid half of the rejection property. *)
Lemma search_not_found (self : SmartHybridStrategy) (heap : Heap) (now : Z)
  (originalContent diffContent decoded searchContent replaceContent : string)
  (options : ApplyOptions) :
  wellFormed self heap ->
  decodeOriginal originalContent = Normal decoded ->
  parseDiffContent diffContent = Normal (searchContent, replaceContent) ->
  fst (hotGet now
         (getCacheKey (generateHybridHash decoded (fileStats options))
            diffContent) (hotCache self)) = None ->
  includes (normalizeLineEndings decoded) (normalizeLineEndings searchContent)
  = false ->
  fst (fst (applyDiff self heap now originalContent diffContent options))
  = Failure "Search content not found in original content" None.
Proof.
  intros Hwf Hdecode Hparse Hmiss Hnot.
  rewrite (applyDiff_parsed _ _ _ _ _ _ _ _ _ Hdecode Hparse).
  rewrite Hmiss, (warm_lookup_misses _ _ Hwf).
  unfold recompute. by rewrite Hnot.
Qed.

(** The Smart Hybrid half of the exactness property: in every state, a
    search text that occurs in the document makes [applyDiff] succeed, with
    accuracy 1 in the metrics. *)
Lemma search_found (self : SmartHybridStrategy) (heap : Heap) (now : Z)
  (originalContent diffContent decoded searchContent replaceContent : string)
  (options : ApplyOptions) :
  decodeOriginal originalContent = Normal decoded ->
  parseDiffContent diffContent = Normal (searchContent, replaceContent) ->
  includes (normalizeLineEndings decoded) (normalizeLineEndings searchContent)
  = true ->
  exists (content : string) (appliedLines : Z),
    fst (fst (applyDiff self heap now originalContent diffContent options))
    = Success content appliedLines
        (if collectMetrics options then Some (mkDiffMetrics 1) else None).
Proof.
  intros Hdecode Hparse Hfound.
  rewrite (applyDiff_parsed _ _ _ _ _ _ _ _ _ Hdecode Hparse).
  unfold recompute, createSuccessResult. rewrite Hfound.
  destruct (fst (hotGet _ _ _)) as [entry|]; [by eexists; eexists|].
  destruct (warmCache self !! _) as [entry|]; [|by eexists; eexists].
  destruct (hashesMatch _ _); by eexists; eexists.
Qed.

End Caches.

End SmartHybridFacts.

(** ** Exact matches and missing search texts, across the strategies *)

Module StrategyFacts.
Import JS JSFacts.
Local Open Scope Z_scope.

Local Abbreviation LF := SearchReplace.LF.

Local Abbreviation block search replace :=
  ("<<<<<<< SEARCH" +:+ LF +:+ search +:+ LF +:+ "=======" +:+ LF +:+
   replace +:+ LF +:+ ">>>>>>> REPLACE").

Local Existing Instance LineNumbers.model.
Local Existing Instance Packages.crypto.
Local Existing Instance Packages.buffer.
Local Existing Instance Packages.lru.

(** The claim as it stands fails for Search-Replace with its default
    threshold: the second line of the document is the search text, byte
    for byte, but the first line scores 1 - 1 / 44 >= 0.95, the scan stops
    there, and that score is below the threshold 1.0. *)
Lemma exact_match_early_exit_counterexample :
  let line1 := "const total = computeTotal(items, taxRate1);" in
  let line2 := "const total = computeTotal(items, taxRate2);" in
  splitLines (line1 +:+ LF +:+ line2)
  = [line1] ++ SearchReplace.sectionLines line2 ++ [] /\
  isSuccess
    (fst (SearchReplace.applyDiff (helpers := LineNumbers.model)
            (SearchReplace.new None None) SearchReplace.similarityCache0
            (line1 +:+ LF +:+ line2)
            (block line2 "const total = computeTotal(items, rate);")
            noOptions))
  = false.
Proof. split; vm_compute; reflexivity. Qed.

(** C3 (amended). Search-Replace, scanning the whole document (no line
    range), with a cache whose entries for this search text are the scores
    of their pairs: when the search section, as it is after the removal of
    line numbers (done when every line of both sections carries one), is
    not empty and is, byte for byte, a window of whole lines of the
    original, and no window at an earlier index divisible by 3 scores 0.95
    or more (in binary64 arithmetic, on text with white space collapsed),
    [applyDiff] succeeds with similarity score 1, for every threshold up
    to 1.0, the default included. Smart Hybrid: when the search text occurs
    in the original (line endings normalised), [applyDiff] succeeds with
    accuracy score 1. *)
Theorem exact_match_succeeds :
  (forall (helpers : ExtractText)
          (self : SearchReplace.SearchReplaceDiffStrategy)
          (sc : SearchReplace.LRUCache string Q)
          (originalContent diffContent searchContent replaceContent : string)
          (options : ApplyOptions) (pre post : list string),
     SearchReplace.extractSections diffContent
     = Some (searchContent, replaceContent) ->
     searchContent <> EmptyString ->
     splitLines originalContent
     = pre ++ SearchReplace.sectionLines searchContent ++ post ->
     truthy (startLine options) && truthy (endLine options) = false ->
     SearchReplace.consistent
       (join LF (SearchReplace.sectionLines searchContent)) sc ->
     SearchReplace.noEarlierNearMatch (splitLines originalContent)
       (SearchReplace.sectionLines searchContent) (Z.of_nat (length pre)) ->
     (SearchReplace.fuzzyThreshold self <= 1)%Q ->
     exists (content : string) (appliedLines : Z)
            (best : SearchReplace.Candidate)
            (sc' : SearchReplace.LRUCache string Q),
       SearchReplace.locate self sc (splitLines originalContent)
         (SearchReplace.sectionLines searchContent)
         (startLine options) (endLine options) = (inr best, sc') /\
       0 <= SearchReplace.matchIndex best <= Z.of_nat (length pre) /\
       SearchReplace.bestMatchScore best = 1%Q /\
       SearchReplace.applyDiff self sc originalContent diffContent options
       = (Success content appliedLines
            (if collectMetrics options then Some (mkDiffMetrics 1) else None),
          sc')) /\
  (forall (crypto : NodeCrypto) (nodeBuffer : NodeBuffer)
          (lruPkg : LruCachePkg SmartHybrid.CacheEntry)
          (self : SmartHybrid.SmartHybridStrategy) (heap : SmartHybrid.Heap)
          (now : Z)
          (originalContent diffContent decoded searchContent replaceContent
           : string) (options : ApplyOptions),
     SmartHybrid.decodeOriginal originalContent = Normal decoded ->
     SmartHybrid.parseDiffContent diffContent
     = Normal (searchContent, replaceContent) ->
     includes (SmartHybrid.normalizeLineEndings decoded)
       (SmartHybrid.normalizeLineEndings searchContent) = true ->
     exists (content : string) (appliedLines : Z),
       fst (fst (SmartHybrid.applyDiff self heap now originalContent
                   diffContent options))
       = Success content appliedLines
           (if collectMetrics options then Some (mkDiffMetrics 1) else None)).
Proof.
  split.
  - intros. by eapply SearchReplaceFacts.exact_window_found.
  - intros. by eapply SmartHybridFacts.search_found.
Qed.

Lemma exact_match_succeeds_witness :
  (exists (content : string) (appliedLines : Z)
          (best : SearchReplace.Candidate)
          (sc' : SearchReplace.LRUCache string Q),
     SearchReplace.locate (SearchReplace.new None None)
       SearchReplace.similarityCache0
       (splitLines ("let a = 1;" +:+ LF +:+ "return true;"))
       (SearchReplace.sectionLines "return true;") None None
     = (inr best, sc') /\
     0 <= SearchReplace.matchIndex best <= 1 /\
     SearchReplace.bestMatchScore best = 1%Q /\
     SearchReplace.applyDiff (helpers := LineNumbers.model)
       (SearchReplace.new None None) SearchReplace.similarityCache0
       ("let a = 1;" +:+ LF +:+ "return true;")
       (block "return true;" "return false;") noOptions
     = (Success content appliedLines None, sc')) /\
  (exists (content : string) (appliedLines : Z),
     fst (fst (SmartHybrid.applyDiff (crypto := Packages.crypto)
                 (nodeBuffer := Packages.buffer) (lruPkg := Packages.lru)
                 SmartHybrid.new (SmartHybrid.mkHeap 0%nat) 0
                 ("let a = 1;" +:+ LF +:+ "return true;")
                 (block "return true;" "return false;") noOptions))
     = Success content appliedLines None).
Proof.
  split.
  - apply (proj1 exact_match_succeeds LineNumbers.model
             (SearchReplace.new None None) SearchReplace.similarityCache0
             ("let a = 1;" +:+ LF +:+ "return true;")
             (block "return true;" "return false;")
             "return true;" "return false;" noOptions ["let a = 1;"] []).
    + vm_compute. reflexivity.
    + discriminate.
    + vm_compute. reflexivity.
    + reflexivity.
    + apply SearchReplaceFacts.consistent_empty.
    + intros k Hk Hrem. assert (k = 0) as -> by (simpl in Hk; lia).
      vm_compute. reflexivity.
    + vm_compute. discriminate.
  - apply (proj2 exact_match_succeeds Packages.crypto Packages.buffer
             Packages.lru SmartHybrid.new (SmartHybrid.mkHeap 0%nat) 0
             ("let a = 1;" +:+ LF +:+ "return true;")
             (block "return true;" "return false;")
             ("let a = 1;" +:+ LF +:+ "return true;")
             "return true;" "return false;" noOptions).
    + vm_compute. reflexivity.
    + vm_compute. reflexivity.
    + vm_compute. reflexivity.
Defined.

(** The claim as it stands fails for Search-Replace with its default
    threshold: the document does not contain the search text (it has two
    spaces where the search text has one), but scores are computed on text
    with white space collapsed, the window scores 1, and the call
    succeeds. For the same reason a block that replaces "if (x) {" by the
    same text with two spaces succeeds twice in a row, although the result
    of its first application no longer contains the search text. *)
Lemma missing_search_text_counterexample :
  includes "if (x)  {" "if (x) {" = false /\
  fst (SearchReplace.applyDiff (helpers := LineNumbers.model)
         (SearchReplace.new None None) SearchReplace.similarityCache0
         "if (x)  {" (block "if (x) {" "if (y) {") noOptions)
  = Success "if (y) {" 1 None /\
  (let first :=
     SearchReplace.applyDiff (helpers := LineNumbers.model)
       (SearchReplace.new None None) SearchReplace.similarityCache0
       "if (x) {" (block "if (x) {" "if (x)  {") noOptions in
   fst first = Success "if (x)  {" 1 None /\
   fst (SearchReplace.applyDiff (helpers := LineNumbers.model)
          (SearchReplace.new None None) (snd first)
          "if (x)  {" (block "if (x) {" "if (x)  {") noOptions)
   = Success "if (x)  {" 1 None).
Proof. repeat split; vm_compute; reflexivity. Qed.

(** C5 (amended). A search text that is not found gives a failure result,
    never an exception. Smart Hybrid, in every state that an instance can
    reach: when the hot cache has no entry for the call and the decoded
    original, line endings normalised, does not contain the search text,
    line endings normalised, the result is the failure "Search content not
    found in original content"; so a second application of a block fails
    this way when the result of the first application no longer contains
    the search text. Search-Replace, scanning the whole document (no line
    range) for a search section that is not empty, with a cache whose
    entries for this search text are the scores of their pairs: when no
    window of the document has the hash of the search text and no window
    at an index divisible by 3 scores the threshold or more, the result is
    the failure "No sufficiently similar match found" with its diagnostic.
    The scores are taken on text with white space collapsed, in binary64
    arithmetic. *)
Theorem missing_search_text_fails :
  (forall (crypto : NodeCrypto) (nodeBuffer : NodeBuffer)
          (lruPkg : LruCachePkg SmartHybrid.CacheEntry)
          (self : SmartHybrid.SmartHybridStrategy) (heap : SmartHybrid.Heap)
          (now : Z)
          (originalContent diffContent decoded searchContent replaceContent
           : string) (options : ApplyOptions),
     SmartHybrid.reachable self heap ->
     SmartHybrid.decodeOriginal originalContent = Normal decoded ->
     SmartHybrid.parseDiffContent diffContent
     = Normal (searchContent, replaceContent) ->
     fst (hotGet now
            (SmartHybrid.getCacheKey
               (SmartHybrid.generateHybridHash decoded (fileStats options))
               diffContent) (SmartHybrid.hotCache self)) = None ->
     includes (SmartHybrid.normalizeLineEndings decoded)
       (SmartHybrid.normalizeLineEndings searchContent) = false ->
     fst (fst (SmartHybrid.applyDiff self heap now originalContent
                 diffContent options))
     = Failure "Search content not found in original content" None) /\
  (forall (crypto : NodeCrypto) (nodeBuffer : NodeBuffer)
          (lruPkg : LruCachePkg SmartHybrid.CacheEntry)
          (self : SmartHybrid.SmartHybridStrategy) (heap : SmartHybrid.Heap)
          (now now' : Z)
          (originalContent diffContent searchContent replaceContent content
           decoded : string) (appliedLines : Z)
          (metrics : option DiffMetrics) (options options' : ApplyOptions),
     SmartHybrid.reachable self heap ->
     SmartHybrid.parseDiffContent diffContent
     = Normal (searchContent, replaceContent) ->
     let first :=
       SmartHybrid.applyDiff self heap now originalContent diffContent
         options in
     fst (fst first) = Success content appliedLines metrics ->
     SmartHybrid.decodeOriginal content = Normal decoded ->
     fst (hotGet now'
            (SmartHybrid.getCacheKey
               (SmartHybrid.generateHybridHash decoded (fileStats options'))
               diffContent) (SmartHybrid.hotCache (snd (fst first)))) = None ->
     includes (SmartHybrid.normalizeLineEndings decoded)
       (SmartHybrid.normalizeLineEndings searchContent) = false ->
     fst (fst (SmartHybrid.applyDiff (snd (fst first)) (snd first) now'
                 content diffContent options'))
     = Failure "Search content not found in original content" None) /\
  (forall (helpers : ExtractText)
          (self : SearchReplace.SearchReplaceDiffStrategy)
          (sc : SearchReplace.LRUCache string Q)
          (originalContent diffContent searchContent replaceContent : string)
          (options : ApplyOptions),
     SearchReplace.extractSections diffContent
     = Some (searchContent, replaceContent) ->
     searchContent <> EmptyString ->
     truthy (startLine options) && truthy (endLine options) = false ->
     SearchReplace.consistent
       (join LF (SearchReplace.sectionLines searchContent)) sc ->
     SearchReplace.noWindowPasses
       (double (SearchReplace.fuzzyThreshold self))
       (splitLines originalContent)
       (SearchReplace.sectionLines searchContent) ->
     exists (best : SearchReplace.Candidate) (details : string),
       fst (SearchReplace.applyDiff self sc originalContent diffContent
              options)
       = Failure
           (SearchReplace.noMatchError self (startLine options)
              (endLine options) (splitLines originalContent)
              (join LF (SearchReplace.sectionLines searchContent)) best)
           None /\
       SearchReplace.noMatchError self (startLine options)
         (endLine options) (splitLines originalContent)
         (join LF (SearchReplace.sectionLines searchContent)) best
       = "No sufficiently similar match found" +:+ details).
Proof.
  split; [|split].
  - intros ? ? ? self heap now ? ? ? ? ? options Hreach ? ? ? ?.
    apply SmartHybridFacts.reachable_wellFormed in Hreach.
    by eapply SmartHybridFacts.search_not_found.
  - intros ? ? ? self heap now now' originalContent diffContent ? ? ? ? ? ?
      options options' Hreach Hparse first _ Hdecode Hmiss Hnot.
    eapply SmartHybridFacts.search_not_found; [|done..].
    apply SmartHybridFacts.reachable_wellFormed.
    by apply SmartHybrid.reachable_applyDiff.
  - intros helpers self sc originalContent diffContent searchContent
      replaceContent options Hextract Hne Hhint Hsc Hwin.
    destruct (SearchReplaceFacts.no_window_fails self sc originalContent
                diffContent searchContent replaceContent options Hextract
                Hne Hhint Hsc Hwin) as [best Hfail].
    exists best. eexists. split; [exact Hfail|reflexivity].
Qed.

(** The scenario of the spec (the search text "nonexistent content"
    against "function test() {}") and the second application of a block
    whose first application has removed the search text. *)
Lemma missing_search_text_fails_witness :
  fst (fst (SmartHybrid.applyDiff (crypto := Packages.crypto)
              (nodeBuffer := Packages.buffer) (lruPkg := Packages.lru)
              SmartHybrid.new (SmartHybrid.mkHeap 0%nat) 0
              "function test() {}"
              (block "nonexistent content" "new content") noOptions))
  = Failure "Search content not found in original content" None /\
  (let first :=
     SmartHybrid.applyDiff (crypto := Packages.crypto)
       (nodeBuffer := Packages.buffer) (lruPkg := Packages.lru)
       SmartHybrid.new (SmartHybrid.mkHeap 0%nat) 0 "return true;"
       (block "return true;" "return false;") noOptions in
   fst (fst first) = Success "return false;" 1 None /\
   fst (fst (SmartHybrid.applyDiff (snd (fst first)) (snd first) 1
               "return false;" (block "return true;" "return false;")
               noOptions))
   = Failure "Search content not found in original content" None) /\
  (exists (best : SearchReplace.Candidate) (details : string),
     fst (SearchReplace.applyDiff (helpers := LineNumbers.model)
            (SearchReplace.new None None) SearchReplace.similarityCache0
            "function test() {}"
            (block "nonexistent content" "new content") noOptions)
     = Failure
         (SearchReplace.noMatchError (SearchReplace.new None None) None None
            (splitLines "function test() {}")
            (join LF (SearchReplace.sectionLines "nonexistent content"))
            best) None /\
     SearchReplace.noMatchError (SearchReplace.new None None) None None
       (splitLines "function test() {}")
       (join LF (SearchReplace.sectionLines "nonexistent content")) best
     = "No sufficiently similar match found" +:+ details) /\
  SearchReplace.applyDiff (helpers := LineNumbers.model)
    (SearchReplace.new None None) SearchReplace.similarityCache0
    "return true;" (block "return true;" "return false;") noOptions
  = (Success "return false;" 1 None, SearchReplace.similarityCache0) /\
  (exists (best : SearchReplace.Candidate) (details : string),
     fst (SearchReplace.applyDiff (helpers := LineNumbers.model)
            (SearchReplace.new None None) SearchReplace.similarityCache0
            "return false;" (block "return true;" "return false;") noOptions)
     = Failure
         (SearchReplace.noMatchError (SearchReplace.new None None) None None
            (splitLines "return false;")
            (join LF (SearchReplace.sectionLines "return true;"))
            best) None /\
     SearchReplace.noMatchError (SearchReplace.new None None) None None
       (splitLines "return false;")
       (join LF (SearchReplace.sectionLines "return true;")) best
     = "No sufficiently similar match found" +:+ details).
Proof.
  pose proof missing_search_text_fails as (Hhybrid & Htwice & Hscan).
  split; [|split; [|split; [|split]]].
  - apply (Hhybrid Packages.crypto Packages.buffer Packages.lru
             SmartHybrid.new (SmartHybrid.mkHeap 0%nat) 0
             "function test() {}" (block "nonexistent content" "new content")
             "function test() {}" "nonexistent content" "new content"
             noOptions).
    + apply SmartHybrid.reachable_new.
    + vm_compute. reflexivity.
    + vm_compute. reflexivity.
    + vm_compute. reflexivity.
    + vm_compute. reflexivity.
  - cbv zeta. split; [vm_compute; reflexivity|].
    apply (Htwice Packages.crypto Packages.buffer Packages.lru
             SmartHybrid.new (SmartHybrid.mkHeap 0%nat) 0 1
             "return true;" (block "return true;" "return false;")
             "return true;" "return false;" "return false;" "return false;"
             1 None noOptions noOptions).
    + apply SmartHybrid.reachable_new.
    + vm_compute. reflexivity.
    + vm_compute. reflexivity.
    + vm_compute. reflexivity.
    + vm_compute. reflexivity.
    + vm_compute. reflexivity.
  - apply (Hscan LineNumbers.model (SearchReplace.new None None)
             SearchReplace.similarityCache0 "function test() {}"
             (block "nonexistent content" "new content")
             "nonexistent content" "new content" noOptions).
    + vm_compute. reflexivity.
    + discriminate.
    + reflexivity.
    + apply SearchReplaceFacts.consistent_empty.
    + intros i Hi. assert (i = 0) as -> by (simpl in Hi; lia).
      split; [vm_compute; discriminate|intros _; vm_compute; reflexivity].
  - vm_compute. reflexivity.
  - apply (Hscan LineNumbers.model (SearchReplace.new None None)
             SearchReplace.similarityCache0 "return false;"
             (block "return true;" "return false;")
             "return true;" "return false;" noOptions).
    + vm_compute. reflexivity.
    + discriminate.
    + reflexivity.
    + apply SearchReplaceFacts.consistent_empty.
    + intros i Hi. assert (i = 0) as -> by (simpl in Hi; lia).
      split; [vm_compute; discriminate|intros _; vm_compute; reflexivity].
Defined.

(** After a first call the [WeakMap] holds an entry, under the object of
    that call; the object of the next call is another one. *)
Lemma warm_cache_never_hits_witness :
  let first :=
    SmartHybrid.applyDiff (crypto := Packages.crypto)
      (nodeBuffer := Packages.buffer) (lruPkg := Packages.lru)
      SmartHybrid.new (SmartHybrid.mkHeap 0%nat) 0 "const x = 1;"
      (block "const x = 1;" "const x = 2;") noOptions in
  SmartHybrid.warmCache (snd (fst first))
    !! fst (SmartHybrid.allocate (snd first)) = None.
Proof.
  cbv zeta.
  apply (proj1 (SmartHybridFacts.warm_cache_never_hits
                  (crypto := Packages.crypto) (nodeBuffer := Packages.buffer)
                  (lruPkg := Packages.lru) _ _
                  (SmartHybrid.reachable_applyDiff _ _ _ _ _ _
                     (SmartHybrid.reachable_new _)))).
Defined.

End StrategyFacts.

(** ** Arrays, lines and slices *)

Module TextFacts.
Import JS JSFacts.
Local Open Scope Z_scope.

Lemma slice_nat {A} (l : list A) (s e : nat) :
  slice l (Z.of_nat s) (Z.of_nat e) = take (e - s) (drop s l).
Proof.
  unfold slice. rewrite !relIndex_nonneg by lia. rewrite !Nat2Z.id.
  destruct (decide (s <= length l)%nat).
  - rewrite (Nat.min_l s) by lia.
    destruct (decide (e <= length l)%nat).
    + by rewrite Nat.min_l by lia.
    + rewrite Nat.min_r by lia.
      rewrite !take_ge; [done|rewrite length_drop; lia..].
  - rewrite (Nat.min_r s) by lia. rewrite !drop_ge by lia.
    by rewrite !take_nil.
Qed.

Lemma sliceFrom_nat {A} (l : list A) (s : nat) :
  sliceFrom l (Z.of_nat s) = drop s l.
Proof.
  unfold sliceFrom. rewrite relIndex_nonneg by lia. rewrite Nat2Z.id.
  destruct (decide (s <= length l)%nat).
  - by rewrite Nat.min_l by lia.
  - rewrite Nat.min_r by lia. by rewrite !drop_ge by lia.
Qed.

Lemma splice_nat {A} (l items : list A) (st dc : nat) :
  splice l (Z.of_nat st) (Z.of_nat dc) items
  = take st l ++ items ++ drop (st + dc) l.
Proof.
  unfold splice. rewrite relIndex_nonneg by lia. rewrite Nat2Z.id.
  destruct (decide (st <= length l)%nat).
  - rewrite (Nat.min_l st) by lia. do 2 f_equal.
    destruct (decide (st + dc <= length l)%nat).
    + f_equal. lia.
    + rewrite !drop_ge; [done|lia..].
  - rewrite (Nat.min_r st) by lia.
    rewrite (take_ge l st) by lia. rewrite take_ge by lia.
    do 2 f_equal. rewrite !drop_ge; [done|lia..].
Qed.

Lemma join_empty_cons (x : string) (l : list string) :
  join EmptyString (x :: l) = x +:+ join EmptyString l.
Proof.
  unfold join. destruct l as [|y l]; simpl; [by rewrite append_nil_r|done].
Qed.

Lemma join_empty_app (l1 l2 : list string) :
  join EmptyString (l1 ++ l2) = join EmptyString l1 +:+ join EmptyString l2.
Proof.
  induction l1 as [|x l1 IH]; [done|].
  rewrite <- app_comm_cons, !join_empty_cons, IH. by rewrite append_assoc.
Qed.

Lemma join_cons_cons (sep x y : string) (l : list string) :
  join sep (x :: y :: l) = x +:+ sep +:+ join sep (y :: l).
Proof. done. Qed.

Lemma split_nonempty (sep : ascii) (s : string) : split sep s <> [].
Proof.
  destruct s as [|c s]; [done|]. cbn [split].
  destruct (Ascii.eqb c sep); [done|]. by destruct (split sep s).
Qed.

Lemma join_split (sep : ascii) (s : string) :
  join (String sep EmptyString) (split sep s) = s.
Proof.
  induction s as [|c s IH]; [done|]. cbn [split].
  pose proof (split_nonempty sep s) as Hne.
  destruct (Ascii.eqb_spec c sep) as [->|_].
  - destruct (split sep s) as [|l ls]; [done|].
    rewrite join_cons_cons, IH. done.
  - destruct (split sep s) as [|l ls]; [done|].
    destruct ls as [|l' ls].
    + unfold join in *. simpl in *. by rewrite IH.
    + rewrite join_cons_cons in *. rewrite append_cons. by rewrite IH.
Qed.

Lemma join_app_nonempty (sep : string) (l1 l2 : list string) :
  l1 <> [] -> l2 <> [] ->
  join sep (l1 ++ l2) = join sep l1 +:+ sep +:+ join sep l2.
Proof.
  intros H1 H2. induction l1 as [|x l1 IH]; [done|].
  destruct l1 as [|y l1].
  - destruct l2 as [|z l2]; [done|]. done.
  - rewrite <- !app_comm_cons. rewrite join_cons_cons.
    rewrite app_comm_cons, IH by done.
    rewrite join_cons_cons. by rewrite !append_assoc.
Qed.

Lemma strTake_ge (n : nat) (s : string) :
  (String.length s <= n)%nat -> strTake n s = s.
Proof.
  revert n. induction s as [|c s IH]; intros [|n] Hn; simpl in *; try done.
  - lia.
  - f_equal. apply IH. lia.
Qed.

Lemma strDrop_ge (n : nat) (s : string) :
  (String.length s <= n)%nat -> strDrop n s = EmptyString.
Proof.
  revert n. induction s as [|c s IH]; intros [|n] Hn; simpl in *; try done.
  - lia.
  - apply IH. lia.
Qed.

Lemma strSlice_0 (s : string) (pos : Z) :
  0 <= pos -> strSlice s 0 pos = strTake (Z.to_nat pos) s.
Proof.
  intros Hpos. unfold strSlice. rewrite !relIndex_nonneg by lia.
  change (Z.to_nat 0 `min` String.length s)%nat with 0%nat.
  cbn [strDrop]. rewrite Nat.sub_0_r.
  destruct (decide (Z.to_nat pos <= String.length s)%nat).
  - by rewrite Nat.min_l by lia.
  - rewrite Nat.min_r by lia. rewrite !strTake_ge; [done|lia..].
Qed.

Lemma strSliceFrom_nonneg (s : string) (pos : Z) :
  0 <= pos -> strSliceFrom s pos = strDrop (Z.to_nat pos) s.
Proof.
  intros Hpos. unfold strSliceFrom. rewrite relIndex_nonneg by lia.
  destruct (decide (Z.to_nat pos <= String.length s)%nat).
  - by rewrite Nat.min_l by lia.
  - rewrite Nat.min_r by lia. rewrite !strDrop_ge; [done|lia..].
Qed.

Lemma strTake_strDrop (n : nat) (s : string) :
  strTake n s +:+ strDrop n s = s.
Proof.
  revert s. induction n as [|n IH]; intros [|c s]; try done.
  cbn [strTake strDrop]. by rewrite append_cons, IH.
Qed.

Lemma length_strDrop (n : nat) (s : string) :
  String.length (strDrop n s) = (String.length s - n)%nat.
Proof.
  revert s. induction n as [|n IH]; intros [|c s]; try done.
  cbn [strDrop String.length]. by rewrite IH.
Qed.

Lemma length_strTake (n : nat) (s : string) :
  String.length (strTake n s) = (n `min` String.length s)%nat.
Proof.
  revert s. induction n as [|n IH]; intros [|c s]; try done.
  cbn [strTake String.length]. by rewrite IH.
Qed.

Lemma strDrop_app_length (m rest : string) :
  strDrop (String.length m) (m +:+ rest) = rest.
Proof. induction m as [|c m IH]; [done|]. by rewrite append_cons. Qed.

End TextFacts.

(** ** The gap buffer *)

Module GapBufferFacts.
Import JS JSFacts TextFacts OptimizedUnified.
Local Open Scope Z_scope.

(** The buffer as three nat-indexed pieces. *)
Lemma gapText_nat (b : GapBuffer) (s e : nat) :
  gapStart b = Z.of_nat s -> gapEnd b = Z.of_nat e ->
  gapText b = take s (buffer b) ++ drop e (buffer b).
Proof.
  intros Hs He. unfold gapText. rewrite Hs, He.
  change 0 with (Z.of_nat 0). rewrite slice_nat, sliceFrom_nat.
  by rewrite drop_0, Nat.sub_0_r.
Qed.

Lemma moveGap_nat (l : list string) (s e p : nat) :
  (s <= e <= length l)%nat -> (p <= s + (length l - e))%nat ->
  let b' := moveGap (mkGapBuffer l (Z.of_nat s) (Z.of_nat e)) (Z.of_nat p) in
  gapStart b' = Z.of_nat p /\ gapEnd b' = Z.of_nat (p + (e - s)) /\
  length (buffer b') = length l /\
  take p (buffer b') ++ drop (p + (e - s)) (buffer b')
  = take s l ++ drop e l.
Proof.
  intros Hse Hp. unfold moveGap. cbn [gapStart gapEnd buffer].
  destruct (Z.eqb_spec (Z.of_nat p) (Z.of_nat s)) as [E|NE].
  { apply Nat2Z.inj in E. subst p. cbn [gapStart gapEnd buffer].
    repeat split; [lia|]. by replace (s + (e - s))%nat with e by lia. }
  destruct (Z.ltb_spec (Z.of_nat p) (Z.of_nat s)) as [Hlt|Hge];
    cbn [gapStart gapEnd buffer].
  - replace (Z.of_nat e - (Z.of_nat s - Z.of_nat p))
      with (Z.of_nat (e - (s - p))) by lia.
    replace (Z.of_nat s - Z.of_nat p) with (Z.of_nat (s - p)) by lia.
    rewrite slice_nat, splice_nat.
    split; [done|]. split; [lia|].
    split.
    + rewrite !length_app, !length_take, !length_drop. lia.
    + rewrite take_app_le by (rewrite length_take; lia).
      rewrite take_take. rewrite Nat.min_l by lia.
      rewrite drop_app_ge by (rewrite length_take; lia).
      rewrite length_take.
      replace (p + (e - s) - (e - (s - p)) `min` length l)%nat with 0%nat by lia.
      rewrite drop_0.
      replace (e - (s - p) + (s - p))%nat with e by lia.
      rewrite app_assoc. f_equal.
      rewrite take_take_drop. f_equal. lia.
  - replace (Z.of_nat p - Z.of_nat s) with (Z.of_nat (p - s)) by lia.
    replace (Z.of_nat e + Z.of_nat (p - s)) with (Z.of_nat (e + (p - s))) by lia.
    rewrite slice_nat, splice_nat.
    split; [done|]. split; [lia|].
    replace (e + (p - s) - e)%nat with (p - s)%nat by lia.
    replace (s + (p - s))%nat with p by lia.
    split.
    + rewrite !length_app, !length_take, !length_drop. lia.
    + rewrite app_assoc.
      assert (length (take s l ++ take (p - s) (drop e l)) = p) as Hlen.
      { rewrite length_app, !length_take, length_drop. lia. }
      rewrite take_app_length' by done.
      rewrite drop_app_ge by lia. rewrite Hlen.
      rewrite drop_drop. rewrite <- app_assoc. f_equal.
      replace (p + (p + (e - s) - p))%nat with (e + (p - s))%nat by lia.
      rewrite <- drop_drop. apply take_drop.
Qed.

Lemma gapInside_nat (b : GapBuffer) :
  gapInside b ->
  exists s e : nat,
    gapStart b = Z.of_nat s /\ gapEnd b = Z.of_nat e /\
    (s <= e <= length (buffer b))%nat.
Proof.
  intros [[? ?] ?].
  exists (Z.to_nat (gapStart b)), (Z.to_nat (gapEnd b)). lia.
Qed.

Lemma moveGap_spec (b : GapBuffer) (pos : Z) :
  gapInside b -> 0 <= pos <= Z.of_nat (length (gapText b)) ->
  gapInside (moveGap b pos) /\ gapStart (moveGap b pos) = pos /\
  gapEnd (moveGap b pos) - pos = gapEnd b - gapStart b /\
  gapText (moveGap b pos) = gapText b.
Proof.
  intros Hin Hpos. destruct (gapInside_nat b Hin) as (s & e & Hs & He & Hse).
  destruct b as [l gs ge]. cbn [gapStart gapEnd buffer] in *. subst gs ge.
  rewrite (gapText_nat _ s e) in Hpos by done.
  cbn [buffer] in Hpos.
  rewrite length_app, length_take, length_drop in Hpos.
  pose proof (moveGap_nat l s e (Z.to_nat pos)) as H.
  rewrite Z2Nat.id in H by lia.
  destruct H as (Hgs & Hge & Hlen & Htext); [lia|lia|].
  split; [|split; [done|split]].
  - unfold gapInside. rewrite Hgs, Hge, Hlen. lia.
  - rewrite Hge. lia.
  - rewrite (gapText_nat _ (Z.to_nat pos) (Z.to_nat pos + (e - s)))
      by (rewrite ?Hgs, ?Hge; lia).
    rewrite Htext. by rewrite (gapText_nat _ s e).
Qed.

(** [insert] on a buffer whose gap already starts at the position. *)
Lemma insert_raw (l1 cs : list string) (p g : nat) :
  (p + g <= length l1)%nat ->
  let n := Z.of_nat (length cs) in
  let b1 := mkGapBuffer l1 (Z.of_nat p) (Z.of_nat (p + g)) in
  let b2 :=
    if gapEnd b1 - gapStart b1 <? n then
      let extra := n - (gapEnd b1 - gapStart b1) in
      {| buffer := splice (buffer b1) (gapEnd b1) 0
                     (replicate (Z.to_nat extra) EmptyString);
         gapStart := gapStart b1;
         gapEnd := gapEnd b1 + extra |}
    else b1 in
  let b3 := {| buffer := splice (buffer b2) (gapStart b2) n cs;
               gapStart := gapStart b2 + n;
               gapEnd := gapEnd b2 |} in
  gapInside b3 /\
  gapText b3 = take p l1 ++ cs ++ drop (p + g) l1.
Proof.
  intros Hlen n b1. subst b1. cbn [gapStart gapEnd buffer].
  replace (Z.of_nat (p + g) - Z.of_nat p) with (Z.of_nat g) by lia.
  destruct (Z.ltb_spec (Z.of_nat g) n) as [Hlt|Hge];
    cbv zeta; cbn [gapStart gapEnd buffer].
  - change 0 with (Z.of_nat 0). unfold n in *.
    rewrite !splice_nat.
    replace (Z.to_nat (Z.of_nat (length cs) - Z.of_nat g))
      with (length cs - g)%nat by lia.
    rewrite Nat.add_0_r.
    set (R := replicate (length cs - g)%nat EmptyString).
    assert (length R = (length cs - g)%nat) as HR
      by apply length_replicate.
    rewrite take_app_le by (rewrite length_take; lia).
    rewrite take_take, Nat.min_l by lia.
    rewrite drop_app_ge by (rewrite length_take; lia).
    rewrite length_take, Nat.min_l by lia.
    rewrite drop_app_ge by lia. rewrite HR.
    replace (p + length cs - (p + g) - (length cs - g))%nat with 0%nat by lia.
    rewrite drop_0.
    split.
    + unfold gapInside. cbn [gapStart gapEnd buffer].
      rewrite !length_app, length_take, length_drop. lia.
    + rewrite (gapText_nat _ (p + length cs) (p + length cs))
        by (cbn [gapStart gapEnd]; lia).
      cbn [buffer]. apply take_drop.
  - unfold n in *. rewrite splice_nat.
    split.
    + unfold gapInside. cbn [gapStart gapEnd buffer].
      rewrite !length_app, length_take, length_drop. lia.
    + rewrite (gapText_nat _ (p + length cs) (p + g))
        by (cbn [gapStart gapEnd]; lia).
      cbn [buffer]. rewrite app_assoc.
      assert (length (take p l1 ++ cs) = (p + length cs)%nat) as Hl.
      { rewrite length_app, length_take. lia. }
      rewrite take_app_length' by done.
      rewrite drop_app_ge by lia. rewrite Hl.
      rewrite drop_drop. rewrite <- app_assoc. do 3 f_equal. lia.
Qed.

Lemma insert_spec (b : GapBuffer) (pos : Z) (content : string) :
  gapInside b -> 0 <= pos <= Z.of_nat (length (gapText b)) ->
  gapInside (insert b pos content) /\
  gapText (insert b pos content)
  = take (Z.to_nat pos) (gapText b) ++ chars content
    ++ drop (Z.to_nat pos) (gapText b).
Proof.
  intros Hin Hpos.
  destruct (moveGap_spec b pos Hin Hpos) as (Hin1 & Hgs1 & Hge1 & Htext1).
  unfold insert. revert Hin1 Hgs1 Hge1 Htext1.
  generalize (moveGap b pos). intros [l1 gs1 ge1].
  cbn [gapStart gapEnd buffer]. intros Hin1 -> Hge1 Htext1.
  destruct (gapInside_nat _ Hin1) as (p & e & Hp & He & Hpe).
  cbn [gapStart gapEnd buffer] in Hp, He, Hpe.
  subst pos ge1.
  replace e with (p + (e - p))%nat in * by lia.
  set (g := (e - p)%nat) in *.
  destruct (insert_raw l1 (chars content) p g) as [Hin3 Htext3]; [lia|].
  cbv zeta in Hin3, Htext3. cbn [gapStart gapEnd buffer] in Hin3, Htext3.
  split; [exact Hin3|].
  rewrite Htext3. rewrite <- Htext1.
  rewrite (gapText_nat _ p (p + g)) by done. cbn [buffer].
  rewrite Nat2Z.id.
  rewrite take_app_le by (rewrite length_take; lia).
  rewrite take_take, Nat.min_l by lia.
  rewrite drop_app_ge by (rewrite length_take; lia).
  rewrite length_take, Nat.min_l by lia.
  by rewrite Nat.sub_diag, drop_0.
Qed.

Lemma replace_spec (b : GapBuffer) (start end_ : Z) (content : string) :
  gapInside b -> 0 <= start <= end_ ->
  end_ <= Z.of_nat (length (gapText b)) ->
  gapInside (replace b start end_ content) /\
  gapText (replace b start end_ content)
  = take (Z.to_nat start) (gapText b) ++ chars content
    ++ drop (Z.to_nat end_) (gapText b).
Proof.
  intros Hin Hse Hend.
  destruct (moveGap_spec b start Hin) as (Hin1 & Hgs1 & Hge1 & Htext1);
    [lia|].
  unfold replace. revert Hin1 Hgs1 Hge1 Htext1.
  generalize (moveGap b start). intros [l1 gs1 ge1].
  cbn [gapStart gapEnd buffer]. intros Hin1 -> Hge1 Htext1.
  destruct (gapInside_nat _ Hin1) as (p & e & Hp & He & Hpe).
  cbn [gapStart gapEnd buffer] in Hp, He, Hpe.
  subst start ge1.
  rewrite <- Htext1 in *.
  rewrite (gapText_nat _ p e) in * by done. cbn [buffer] in *.
  rewrite length_app, length_take, length_drop in Hend.
  set (d := Z.to_nat (end_ - Z.of_nat p)).
  replace (end_ - Z.of_nat p) with (Z.of_nat d) by lia.
  replace (Z.to_nat end_) with (p + d)%nat by lia.
  rewrite splice_nat. cbn [app].
  set (b2 := {| buffer := take p l1 ++ drop (p + d) l1;
                gapStart := Z.of_nat p; gapEnd := Z.of_nat e |}).
  assert (gapInside b2) as Hin2.
  { unfold gapInside, b2. cbn [gapStart gapEnd buffer].
    rewrite length_app, length_take, length_drop. lia. }
  assert (gapText b2 = take p l1 ++ drop (e + d) l1) as Htext2.
  { rewrite (gapText_nat _ p e) by done. unfold b2. cbn [buffer].
    rewrite take_app_le by (rewrite length_take; lia).
    rewrite take_take, Nat.min_l by lia.
    rewrite drop_app_ge by (rewrite length_take; lia).
    rewrite length_take, Nat.min_l by lia.
    rewrite drop_drop. do 2 f_equal. lia. }
  destruct (insert_spec b2 (Z.of_nat p) content Hin2) as [Hin3 Htext3].
  { rewrite Htext2, length_app, length_take, length_drop. lia. }
  split; [exact Hin3|].
  rewrite Htext3, Htext2. rewrite !Nat2Z.id.
  rewrite (gapText_nat _ p e) by done. cbn [buffer].
  rewrite !take_app_le by (rewrite length_take; lia).
  rewrite !take_take, !Nat.min_l by lia.
  rewrite !drop_app_ge by (rewrite length_take; lia).
  rewrite !length_take, !Nat.min_l by lia.
  rewrite Nat.sub_diag, drop_0. rewrite drop_drop.
  do 3 f_equal. lia.
Qed.

(** *** From items to strings *)

Lemma chars_units (content : string) :
  Forall (fun item => String.length item = 1%nat) (chars content).
Proof. induction content; simpl; by constructor. Qed.

Lemma units_length (items : list string) :
  Forall (fun item => String.length item = 1%nat) items ->
  String.length (join EmptyString items) = length items.
Proof.
  induction 1 as [|x l Hx _ IH]; [done|].
  rewrite join_empty_cons, length_append, Hx, IH. done.
Qed.

Lemma units_take (n : nat) (items : list string) :
  Forall (fun item => String.length item = 1%nat) items ->
  join EmptyString (take n items) = strTake n (join EmptyString items).
Proof.
  intros H. revert n. induction H as [|x l Hx _ IH]; intros [|n]; try done.
  cbn [take]. rewrite !join_empty_cons, IH.
  destruct x as [|c [|c' x]]; try discriminate. done.
Qed.

Lemma units_drop (n : nat) (items : list string) :
  Forall (fun item => String.length item = 1%nat) items ->
  join EmptyString (drop n items) = strDrop n (join EmptyString items).
Proof.
  intros H. revert n. induction H as [|x l Hx _ IH]; intros [|n]; try done.
  cbn [drop]. rewrite !join_empty_cons, IH.
  destruct x as [|c [|c' x]]; try discriminate. done.
Qed.

Lemma toString_gapText (b : GapBuffer) :
  toString b = join EmptyString (gapText b).
Proof. done. Qed.

Lemma coherent_length (b : GapBuffer) :
  coherent b -> strLength (toString b) = Z.of_nat (length (gapText b)).
Proof.
  intros [_ Hunits]. unfold strLength.
  by rewrite toString_gapText, units_length.
Qed.

Lemma coherent_fresh (content : string) (gapSize : Z) :
  0 <= gapSize ->
  coherent {| buffer := replicate (Z.to_nat gapSize) EmptyString
                        ++ chars content;
              gapStart := 0; gapEnd := gapSize |}.
Proof.
  intros Hg. split.
  - unfold gapInside. cbn [gapStart gapEnd buffer].
    rewrite length_app, length_replicate. lia.
  - rewrite (gapText_nat _ 0 (Z.to_nat gapSize))
      by (cbn [gapStart gapEnd]; lia).
    cbn [buffer take app].
    rewrite drop_app_length'; [apply chars_units|by rewrite length_replicate].
Qed.

(** X1. Moving the gap changes the place of the gap and nothing of the text:
    for a buffer in a coherent state and a position [pos] inside the text,
    [moveGap(pos)] leaves [toString()] as it was, puts the gap at [pos],
    and keeps the state coherent. *)
Theorem gap_buffer_move_gap (b : GapBuffer) (pos : Z) :
  coherent b -> 0 <= pos <= strLength (toString b) ->
  coherent (moveGap b pos) /\
  gapStart (moveGap b pos) = pos /\
  gapEnd (moveGap b pos) - gapStart (moveGap b pos) = gapEnd b - gapStart b /\
  toString (moveGap b pos) = toString b.
Proof.
  intros Hco Hpos. rewrite (coherent_length b Hco) in Hpos.
  destruct Hco as [Hin Hunits].
  destruct (moveGap_spec b pos Hin Hpos) as (Hin' & Hgs & Hge & Htext).
  split; [split; [done|by rewrite Htext]|].
  split; [done|]. split; [by rewrite Hgs|].
  by rewrite !toString_gapText, Htext.
Qed.

(** X2. [insert(pos, content)] puts [content] between the first [pos] code
    units of the text and the rest, also when [content] is longer than the
    gap: [toString()] becomes
    [text.slice(0, pos) + content + text.slice(pos)]. *)
Theorem gap_buffer_insert (b : GapBuffer) (pos : Z) (content : string) :
  coherent b -> 0 <= pos <= strLength (toString b) ->
  coherent (insert b pos content) /\
  toString (insert b pos content)
  = strSlice (toString b) 0 pos +:+ content +:+ strSliceFrom (toString b) pos.
Proof.
  intros Hco Hpos. rewrite (coherent_length b Hco) in Hpos.
  destruct Hco as [Hin Hunits].
  destruct (insert_spec b pos content Hin Hpos) as [Hin' Htext].
  split.
  - split; [done|]. rewrite Htext.
    apply Forall_app. split; [by apply Forall_take|].
    apply Forall_app. split; [apply chars_units|by apply Forall_drop].
  - rewrite strSlice_0, strSliceFrom_nonneg by lia.
    rewrite !toString_gapText, Htext, !join_empty_app.
    by rewrite units_take, units_drop, join_chars.
Qed.

Lemma replace_text (b : GapBuffer) (start end_ : Z) (content : string) :
  coherent b -> 0 <= start <= end_ -> end_ <= strLength (toString b) ->
  toString (replace b start end_ content)
  = strSlice (toString b) 0 start +:+ content
    +:+ strSliceFrom (toString b) end_.
Proof.
  intros Hco Hse Hend. rewrite (coherent_length b Hco) in Hend.
  destruct Hco as [Hin Hunits].
  destruct (replace_spec b start end_ content Hin Hse Hend) as [Hin' Htext].
  rewrite strSlice_0, strSliceFrom_nonneg by lia.
  rewrite !toString_gapText, Htext, !join_empty_app.
  by rewrite units_take, units_drop, join_chars.
Qed.

(** X3. [replace(start, end, content)] puts [content] in the place of the
    code units from [start] up to [end]: [toString()] becomes
    [text.slice(0, start) + content + text.slice(end)], and the buffer
    stays in a coherent state. *)
Theorem gap_buffer_replace (b : GapBuffer) (start end_ : Z)
  (content : string) :
  coherent b -> 0 <= start <= end_ -> end_ <= strLength (toString b) ->
  coherent (replace b start end_ content) /\
  toString (replace b start end_ content)
  = strSlice (toString b) 0 start +:+ content
    +:+ strSliceFrom (toString b) end_.
Proof.
  intros Hco Hse Hend. split; [|by apply replace_text].
  rewrite (coherent_length b Hco) in Hend.
  destruct Hco as [Hin Hunits].
  destruct (replace_spec b start end_ content Hin Hse Hend) as [Hin' Htext].
  split; [done|]. rewrite Htext.
  apply Forall_app. split; [by apply Forall_take|].
  apply Forall_app. split; [apply chars_units|by apply Forall_drop].
Qed.

Lemma gap_buffer_move_gap_witness :
  toString
    (moveGap {| buffer := replicate 4 EmptyString ++ chars "hello";
                gapStart := 0; gapEnd := 4 |} 3)
  = "hello".
Proof.
  apply (gap_buffer_move_gap
           {| buffer := replicate 4 EmptyString ++ chars "hello";
              gapStart := 0; gapEnd := 4 |} 3).
  - apply (coherent_fresh "hello" 4). lia.
  - vm_compute. split; discriminate.
Defined.

Lemma gap_buffer_insert_witness :
  toString
    (insert {| buffer := replicate 4 EmptyString ++ chars "hello";
               gapStart := 0; gapEnd := 4 |} 2 "ABCDEF")
  = "heABCDEFllo".
Proof.
  apply (gap_buffer_insert
           {| buffer := replicate 4 EmptyString ++ chars "hello";
              gapStart := 0; gapEnd := 4 |} 2 "ABCDEF").
  - apply (coherent_fresh "hello" 4). lia.
  - vm_compute. split; discriminate.
Defined.

Lemma gap_buffer_replace_witness :
  toString
    (replace {| buffer := replicate 4 EmptyString ++ chars "hello";
                gapStart := 0; gapEnd := 4 |} 1 3 "XY")
  = "hXYlo".
Proof.
  apply (gap_buffer_replace
           {| buffer := replicate 4 EmptyString ++ chars "hello";
              gapStart := 0; gapEnd := 4 |} 1 3 "XY").
  - apply (coherent_fresh "hello" 4). lia.
  - lia.
  - vm_compute. discriminate.
Defined.

End GapBufferFacts.

(** ** Optimized Unified strategy: hunks, headers and counts *)

Module UnifiedDiffFacts.
Import JS JSFacts TextFacts OptimizedUnified OptimizedUnifiedFacts
  GapBufferFacts.
Local Open Scope Z_scope.

(** *** The hunks as offsets of code units *)

Lemma applyDiff_sequential (self : OptimizedUnifiedStrategy)
  (hardwareConcurrency : Z) (originalContent diffContent : string)
  (options : ApplyOptions) (hunks : list DiffHunk) :
  1 <= hardwareConcurrency ->
  parseUnifiedDiff diffContent = Normal hunks ->
  applyDiff self hardwareConcurrency originalContent diffContent options =
  match processHunksSequentially hunks
          {| buffer := replicate (Z.to_nat GAP_BUFFER_SIZE) EmptyString
                       ++ chars originalContent;
             gapStart := 0; gapEnd := GAP_BUFFER_SIZE |} with
  | Normal b' =>
      Success (toString b')
        (foldl (fun sum hunk => sum + Z.of_nat (length (added hunk))) 0 hunks)
        (if collectMetrics options then Some (mkDiffMetrics 1) else None)
  | Throw msg => Failure ("Failed to apply unified diff: " +:+ msg) (Some [])
  end.
Proof.
  intros Hhc Hparse. unfold applyDiff, applyDiffBody.
  rewrite newGapBuffer_normal by (unfold GAP_BUFFER_SIZE; lia).
  rewrite Hparse. cbn [mbind completion_bind].
  rewrite processHunksInParallel_sequential by done.
  destruct (largeFile options);
    by destruct (processHunksSequentially hunks _).
Qed.

(** X4. The numbers of a hunk header are offsets of code units. A diff of one
    hunk without context lines, whose header gives [start] and whose
    [end] is [start] plus the second number of the header, replaces the
    code units of the document from [start] up to [end] by the added
    lines: the result is
    [original.slice(0, start) + added.join("\n") + original.slice(end)]. *)
Theorem single_hunk_replaces_code_units (self : OptimizedUnifiedStrategy)
  (hardwareConcurrency : Z) (originalContent diffContent : string)
  (options : ApplyOptions) (hunk : DiffHunk) :
  1 <= hardwareConcurrency ->
  parseUnifiedDiff diffContent = Normal [hunk] ->
  context hunk = [] ->
  0 <= start hunk <= end_ hunk ->
  end_ hunk <= strLength originalContent ->
  applyDiff self hardwareConcurrency originalContent diffContent options
  = Success
      (strSlice originalContent 0 (start hunk)
       +:+ join (String "010" EmptyString) (added hunk)
       +:+ strSliceFrom originalContent (end_ hunk))
      (Z.of_nat (length (added hunk)))
      (if collectMetrics options then Some (mkDiffMetrics 1) else None).
Proof.
  intros Hhc Hparse Hctx Hse Hend.
  rewrite (applyDiff_sequential _ _ _ _ _ _ Hhc Hparse).
  cbn [processHunksSequentially]. unfold verifyContext. rewrite Hctx.
  cbn [everyContext foldl].
  assert (0 <= GAP_BUFFER_SIZE) as Hg by (unfold GAP_BUFFER_SIZE; lia).
  pose proof (coherent_fresh originalContent _ Hg) as Hco.
  pose proof (toString_fresh originalContent _ Hg) as Hstr.
  rewrite (replace_text _ (start hunk) (end_ hunk)
             (join (String "010" EmptyString) (added hunk)) Hco Hse)
    by by rewrite Hstr.
  rewrite Hstr. by rewrite Z.add_0_l.
Qed.

(** *** The context check on the new buffer *)

Lemma gapSlice_in_gap (b : GapBuffer) (start end_ : Z) :
  gapInside b ->
  gapStart b <= start < gapEnd b -> gapStart b <= end_ < gapEnd b ->
  gapSlice b start end_ = EmptyString.
Proof.
  intros [[H0 Hle] Hlen] Hs He. unfold gapSlice, intoGap.
  rewrite !(proj2 (Z.leb_le _ _)) by lia.
  rewrite !(proj2 (Z.ltb_lt _ _)) by lia. cbn [andb].
  replace (gapEnd b) with (Z.of_nat (Z.to_nat (gapEnd b))) by lia.
  rewrite slice_nat. by rewrite Nat.sub_diag, take_0.
Qed.

(** X5. The context check reads the buffer at the numbers of the header, and
    on the new buffer these fall into the gap of 1024 items when they are
    below 1024: the check sees one empty line. A diff whose first hunk has
    both numbers below 1024 and a first context line that is not blank is
    rejected, whatever the document holds. *)
Theorem first_hunk_context_read_in_gap (self : OptimizedUnifiedStrategy)
  (hardwareConcurrency : Z) (originalContent diffContent : string)
  (options : ApplyOptions) (hunk : DiffHunk) (rest : list DiffHunk)
  (line : string) (more : list string) :
  1 <= hardwareConcurrency ->
  parseUnifiedDiff diffContent = Normal (hunk :: rest) ->
  0 <= start hunk < GAP_BUFFER_SIZE ->
  0 <= end_ hunk < GAP_BUFFER_SIZE ->
  context hunk = line :: more ->
  trim line <> EmptyString ->
  applyDiff self hardwareConcurrency originalContent diffContent options
  = Failure "Failed to apply unified diff: Context mismatch in hunk"
      (Some []).
Proof.
  intros Hhc Hparse Hs He Hctx Hline.
  rewrite (applyDiff_sequential _ _ _ _ _ _ Hhc Hparse).
  cbn [processHunksSequentially]. unfold verifyContext.
  assert (0 <= GAP_BUFFER_SIZE) as Hg by (unfold GAP_BUFFER_SIZE; lia).
  rewrite gapSlice_in_gap;
    [|apply (coherent_fresh originalContent _ Hg)|done..].
  rewrite Hctx. cbn [split everyContext lookup list_lookup].
  change (trim EmptyString) with EmptyString.
  destruct (String.eqb_spec EmptyString (trim line)) as [E|_]; [|done].
  by destruct Hline.
Qed.

(** *** Hunk headers *)

Lemma unified_parseLines_invalid_header (lines : list string) (line : string)
  (hunks : list DiffHunk) (currentHunk : option DiffHunk) :
  line ∈ lines -> startsWith line "@@" = true ->
  hunkHeaderMatch line = None ->
  parseLines lines hunks currentHunk = Throw "Invalid hunk header format".
Proof.
  intros Hin Hat Hno. revert hunks currentHunk.
  induction lines as [|l lines IH]; intros hunks currentHunk.
  { by apply elem_of_nil in Hin. }
  cbn [parseLines].
  destruct (startsWith l "@@") eqn:Hl.
  - unfold parseHunkHeader.
    destruct (hunkHeaderMatch l) as [[g1 g2]|] eqn:Hm; [|done].
    apply elem_of_cons in Hin as [->|Hin]; [congruence|]. by apply IH.
  - apply elem_of_cons in Hin as [->|Hin]; [congruence|].
    destruct currentHunk as [h|]; [|by apply IH].
    destruct (startsWith l "-"); [by apply IH|].
    destruct (startsWith l "+"); [by apply IH|].
    destruct (startsWith l " "); by apply IH.
Qed.

(** X6. A line of the diff that starts with [@@] and does not hold a header
    [@@ -N[,N] +N[,N] @@] makes the whole call fail with
    "Invalid hunk header format", wherever the line stands and whatever
    the document and the other hunks are. *)
Theorem unified_invalid_hunk_header_fails (self : OptimizedUnifiedStrategy)
  (hardwareConcurrency : Z) (originalContent diffContent : string)
  (options : ApplyOptions) (line : string) :
  line ∈ split "010" diffContent ->
  startsWith line "@@" = true ->
  hunkHeaderMatch line = None ->
  applyDiff self hardwareConcurrency originalContent diffContent options
  = Failure "Failed to apply unified diff: Invalid hunk header format"
      (Some []).
Proof.
  intros Hin Hat Hno. unfold applyDiff, applyDiffBody.
  rewrite newGapBuffer_normal by (unfold GAP_BUFFER_SIZE; lia).
  cbn [mbind completion_bind]. unfold parseUnifiedDiff.
  by rewrite (unified_parseLines_invalid_header _ line).
Qed.

(** *** The size of the file *)

(** X7. The size in the file statistics selects the "parallel" path, which
    applies the same hunks in the same order to the same buffer: with at
    least one worker, the result of [applyDiff] does not depend on the file
    statistics. *)
Theorem file_stats_do_not_matter (self : OptimizedUnifiedStrategy)
  (hardwareConcurrency : Z) (originalContent diffContent : string)
  (options : ApplyOptions) (stats : option FileStats) :
  1 <= hardwareConcurrency ->
  applyDiff self hardwareConcurrency originalContent diffContent options
  = applyDiff self hardwareConcurrency originalContent diffContent
      (mkApplyOptions (startLine options) (endLine options) stats
         (collectMetrics options)).
Proof.
  intros Hhc.
  destruct (parseUnifiedDiff diffContent) as [hunks|msg] eqn:Hparse.
  - by rewrite !(applyDiff_sequential _ _ _ _ _ _ Hhc Hparse).
  - unfold applyDiff, applyDiffBody.
    rewrite newGapBuffer_normal by (unfold GAP_BUFFER_SIZE; lia).
    by rewrite Hparse.
Qed.

(** *** The count of applied lines *)

Lemma foldl_added (hunks : list DiffHunk) (acc : Z) :
  foldl (fun sum hunk => sum + Z.of_nat (length (added hunk))) acc hunks
  = acc + foldl (fun sum hunk => sum + Z.of_nat (length (added hunk))) 0 hunks.
Proof.
  revert acc. induction hunks as [|h hunks IH]; intros acc; cbn [foldl];
    [lia|].
  rewrite (IH (acc + _)), (IH (0 + _)). lia.
Qed.

Lemma parseLines_added (lines : list string) (hunks result : list DiffHunk)
  (currentHunk : option DiffHunk) :
  parseLines lines hunks currentHunk = Normal result ->
  foldl (fun sum hunk => sum + Z.of_nat (length (added hunk))) 0 result
  = foldl (fun sum hunk => sum + Z.of_nat (length (added hunk))) 0
      (pushCurrent hunks currentHunk)
    + plusLines (bool_decide (is_Some currentHunk)) lines.
Proof.
  revert hunks currentHunk.
  induction lines as [|l lines IH]; intros hunks currentHunk Hparse.
  { cbn in Hparse. injection Hparse as <-. cbn [plusLines]. lia. }
  cbn [parseLines plusLines] in *.
  destruct (startsWith l "@@") eqn:Hat.
  - destruct (parseHunkHeader l) as [[st count]|msg]; [|done].
    apply IH in Hparse. rewrite Hparse.
    cbn [pushCurrent]. rewrite foldl_app. cbn [foldl added length].
    rewrite bool_decide_eq_true_2 by done. lia.
  - destruct currentHunk as [h|].
    + rewrite bool_decide_eq_true_2 by done. cbn [andb].
      assert (startsWith l "+" = true -> startsWith l "-" = false) as Hpm.
      { destruct l as [|c l]; [done|]. unfold startsWith.
        cbn [String.prefix].
        destruct (ascii_dec "+"%char c) as [<-|]; [|done].
        by destruct (ascii_dec "-"%char "+"%char). }
      destruct (startsWith l "-") eqn:Hminus.
      * destruct (startsWith l "+") eqn:Hplus; [by specialize (Hpm eq_refl)|].
        apply IH in Hparse. rewrite Hparse.
        rewrite bool_decide_eq_true_2 by done.
        cbn [pushCurrent]. by rewrite !foldl_app.
      * destruct (startsWith l "+") eqn:Hplus.
        -- apply IH in Hparse. rewrite Hparse.
           rewrite bool_decide_eq_true_2 by done.
           cbn [pushCurrent]. rewrite !foldl_app. cbn [foldl added].
           rewrite length_app. simpl length. lia.
        -- destruct (startsWith l " ").
           ++ apply IH in Hparse. rewrite Hparse.
              rewrite bool_decide_eq_true_2 by done.
              cbn [pushCurrent]. by rewrite !foldl_app.
           ++ apply IH in Hparse. rewrite Hparse.
              by rewrite bool_decide_eq_true_2 by done.
    + apply IH in Hparse. rewrite Hparse.
      rewrite bool_decide_eq_false_2 by (by intros [? ?]). done.
Qed.

(** X8. When [applyDiff] succeeds, [appliedLines] is the number of lines of the
    diff that start with [+] and stand after the first hunk header,
    whatever the hunks did to the document. *)
Theorem applied_lines_counts_plus_lines (self : OptimizedUnifiedStrategy)
  (hardwareConcurrency : Z) (originalContent diffContent content : string)
  (options : ApplyOptions) (appliedLines : Z)
  (metrics : option DiffMetrics) :
  applyDiff self hardwareConcurrency originalContent diffContent options
  = Success content appliedLines metrics ->
  appliedLines = plusLines false (split "010" diffContent).
Proof.
  unfold applyDiff, applyDiffBody.
  rewrite newGapBuffer_normal by (unfold GAP_BUFFER_SIZE; lia).
  cbn [mbind completion_bind]. unfold parseUnifiedDiff.
  destruct (parseLines _ [] None) as [hunks|msg] eqn:Hparse; [|done].
  cbn [mbind completion_bind].
  apply parseLines_added in Hparse.
  rewrite bool_decide_eq_false_2 in Hparse by (by intros [? ?]).
  cbn in Hparse.
  destruct (if largeFile options then _ else _) as [b'|msg]; [|done].
  cbn [mbind completion_bind]. intros [= _ <- _]. exact Hparse.
Qed.

Lemma single_hunk_replaces_code_units_witness :
  applyDiff (new None) 4 "abcdefgh"
    ("@@ -2 +3 @@" +:+ String "010" "+XY") noOptions
  = Success "abXYfgh" 1 None.
Proof.
  apply (single_hunk_replaces_code_units (new None) 4 "abcdefgh"
           ("@@ -2 +3 @@" +:+ String "010" "+XY") noOptions
           (mkDiffHunk 2 5 [] ["XY"] [])).
  - lia.
  - vm_compute. reflexivity.
  - reflexivity.
  - simpl. lia.
  - vm_compute. discriminate.
Defined.

Lemma first_hunk_context_read_in_gap_witness :
  applyDiff (new None) 4 ("hello" +:+ String "010" "world")
    ("@@ -1,2 +1,2 @@" +:+ String "010" " hello" +:+ String "010" "-world"
     +:+ String "010" "+there") noOptions
  = Failure "Failed to apply unified diff: Context mismatch in hunk"
      (Some []).
Proof.
  apply (first_hunk_context_read_in_gap (new None) 4
           ("hello" +:+ String "010" "world") _ noOptions
           (mkDiffHunk 1 2 ["world"] ["there"] ["hello"]) [] "hello" []).
  - lia.
  - vm_compute. reflexivity.
  - vm_compute. split; [discriminate|reflexivity].
  - vm_compute. split; [discriminate|reflexivity].
  - reflexivity.
  - vm_compute. discriminate.
Defined.

Lemma unified_invalid_hunk_header_fails_witness :
  applyDiff (new None) 4 "hello"
    ("@@ ... @@" +:+ String "010" " hello") noOptions
  = Failure "Failed to apply unified diff: Invalid hunk header format"
      (Some []).
Proof.
  apply (unified_invalid_hunk_header_fails (new None) 4 "hello"
           ("@@ ... @@" +:+ String "010" " hello") noOptions "@@ ... @@").
  - vm_compute. apply list_elem_of_here.
  - reflexivity.
  - vm_compute. reflexivity.
Defined.

Lemma file_stats_do_not_matter_witness :
  applyDiff (new None) 4 "abcdefgh"
    ("@@ -2 +3 @@" +:+ String "010" "+XY")
    (mkApplyOptions None None (Some (mkFileStats 5000000 "a.py" None 0))
       false)
  = applyDiff (new None) 4 "abcdefgh"
      ("@@ -2 +3 @@" +:+ String "010" "+XY") noOptions.
Proof.
  apply (file_stats_do_not_matter (new None) 4 "abcdefgh"
           ("@@ -2 +3 @@" +:+ String "010" "+XY")
           (mkApplyOptions None None
              (Some (mkFileStats 5000000 "a.py" None 0)) false) None).
  lia.
Defined.

Lemma applied_lines_counts_plus_lines_witness :
  2 = plusLines false
        (split "010"
           ("@@ -2 +3 @@" +:+ String "010" "+XY" +:+ String "010" "+Z")).
Proof.
  apply (applied_lines_counts_plus_lines (new None) 4 "abcdefgh"
           ("@@ -2 +3 @@" +:+ String "010" "+XY" +:+ String "010" "+Z")
           ("abXY" +:+ String "010" "Zfgh") noOptions 2 None).
  vm_compute. reflexivity.
Defined.

End UnifiedDiffFacts.

(** ** Optimized Unified strategy: the context check *)

Module ContextCheckFacts.
Import JS JSFacts TextFacts OptimizedUnified OptimizedUnifiedFacts
  GapBufferFacts UnifiedDiffFacts.
Local Open Scope Z_scope.

Lemma strSlice_nat (s : string) (a b : nat) :
  strSlice s (Z.of_nat a) (Z.of_nat b) = strTake (b - a) (strDrop a s).
Proof.
  unfold strSlice. rewrite !relIndex_nonneg by lia. rewrite !Nat2Z.id.
  destruct (decide (a <= String.length s)%nat).
  - rewrite (Nat.min_l a) by lia.
    destruct (decide (b <= String.length s)%nat).
    + by rewrite Nat.min_l by lia.
    + rewrite Nat.min_r by lia.
      rewrite !strTake_ge; [done|rewrite length_strDrop; lia..].
  - rewrite (Nat.min_r a) by lia. rewrite !strDrop_ge by lia.
    by destruct (_ - _)%nat, (_ - _)%nat.
Qed.

(** What [slice] reads from the buffer that the constructor built: the
    code units of the document 1024 places before the two offsets. *)
Lemma gapSlice_fresh (content : string) (start end_ : Z) :
  0 <= start -> 0 <= end_ ->
  gapSlice {| buffer := replicate (Z.to_nat GAP_BUFFER_SIZE) EmptyString
                        ++ chars content;
              gapStart := 0; gapEnd := GAP_BUFFER_SIZE |} start end_
  = strSlice content (Z.max (start - GAP_BUFFER_SIZE) 0)
      (Z.max (end_ - GAP_BUFFER_SIZE) 0).
Proof.
  intros Hs He. unfold gapSlice, intoGap. cbn [buffer gapStart gapEnd].
  assert (forall k, 0 <= k ->
            (if (0 <=? k) && (k <? GAP_BUFFER_SIZE) then GAP_BUFFER_SIZE
             else k) = Z.of_nat (Z.to_nat GAP_BUFFER_SIZE
                                 + Z.to_nat (Z.max (k - GAP_BUFFER_SIZE) 0)))
    as Hinto.
  { intros k Hk. unfold GAP_BUFFER_SIZE.
    destruct (Z.leb_spec 0 k); [|lia].
    destruct (Z.ltb_spec k 1024); cbn [andb]; lia. }
  rewrite !Hinto by done.
  set (s := Z.to_nat (Z.max (start - GAP_BUFFER_SIZE) 0)).
  set (e := Z.to_nat (Z.max (end_ - GAP_BUFFER_SIZE) 0)).
  replace (Z.max (start - GAP_BUFFER_SIZE) 0) with (Z.of_nat s) by lia.
  replace (Z.max (end_ - GAP_BUFFER_SIZE) 0) with (Z.of_nat e) by lia.
  rewrite slice_nat, strSlice_nat.
  replace (Z.to_nat GAP_BUFFER_SIZE + s)%nat
    with (length (replicate (Z.to_nat GAP_BUFFER_SIZE) EmptyString) + s)%nat
    by by rewrite length_replicate.
  rewrite drop_app_add'  by done.
  replace (length (replicate (Z.to_nat GAP_BUFFER_SIZE) EmptyString) + e
           - (length (replicate (Z.to_nat GAP_BUFFER_SIZE) EmptyString) + s))%nat
    with (e - s)%nat by lia.
  pose proof (chars_units content) as Hu.
  rewrite units_take by by apply Forall_drop.
  rewrite units_drop by done. by rewrite join_chars.
Qed.

Lemma Normal_inj {A} (x y : A) : Normal x = Normal y -> x = y.
Proof. by intros [= ->]. Qed.

Lemma everyContext_mismatch (contextLines ctx : list string) (k i : nat)
  (line : string) :
  ctx !! i = Some line ->
  (forall seen : string,
     contextLines !! (k + i)%nat = Some seen -> trim seen <> trim line) ->
  (everyContext contextLines ctx k = Normal false \/
   everyContext contextLines ctx k
   = Throw "Cannot read properties of undefined (reading 'trim')") /\
  (is_Some (contextLines !! (k + i)%nat) ->
   everyContext contextLines ctx k = Normal false).
Proof.
  revert k i. induction ctx as [|l ctx IH]; intros k i Hi Hdiff; [done|].
  cbn [everyContext].
  destruct (contextLines !! k) as [cl|] eqn:Hk.
  - destruct i as [|i].
    + injection Hi as ->. rewrite Nat.add_0_r in *.
      destruct (String.eqb_spec (trim cl) (trim line)) as [E|_]; [|by split; [left|]].
      by destruct (Hdiff cl Hk).
    + destruct (String.eqb (trim cl) (trim l)); [|by split; [left|]].
      replace (k + S i)%nat with (S k + i)%nat in * by lia.
      by apply IH.
  - split; [by right|]. intros Hsome.
    apply lookup_lt_is_Some in Hsome.
    apply lookup_ge_None in Hk. lia.
Qed.

(** The hunk at which the check does not pass ends the run. *)
Lemma processHunksSequentially_rejects (pre post : list DiffHunk)
  (hunk : DiffHunk) (b0 b : GapBuffer) (i : nat) (line : string) :
  processHunksSequentially pre b0 = Normal b ->
  context hunk !! i = Some line ->
  (forall seen : string,
     split "010" (gapSlice b (start hunk) (end_ hunk)) !! i = Some seen ->
     trim seen <> trim line) ->
  exists msg : string,
    (msg = "Context mismatch in hunk" \/
     msg = "Cannot read properties of undefined (reading 'trim')") /\
    (is_Some (split "010" (gapSlice b (start hunk) (end_ hunk)) !! i) ->
     msg = "Context mismatch in hunk") /\
    processHunksSequentially (pre ++ hunk :: post) b0 = Throw msg.
Proof.
  intros Hpre Hi Hdiff.
  rewrite processHunksSequentially_app, Hpre.
  cbn [processHunksSequentially]. unfold verifyContext.
  destruct (everyContext_mismatch
              (split "010" (gapSlice b (start hunk) (end_ hunk)))
              (context hunk) 0 i line Hi Hdiff) as [[E|E] Hsome].
  - rewrite E. exists "Context mismatch in hunk". by split; [left|].
  - rewrite E.
    exists "Cannot read properties of undefined (reading 'trim')".
    split; [by right|]. split; [|done].
    intros Hs. specialize (Hsome Hs). congruence.
Qed.

(** What the check does reject. It compares the context lines of a hunk,
    trimmed and in order, with the lines of the text that
    [GapBuffer.slice(start, end)] returns when the hunk is reached, the two
    numbers being read as indices of the array of the buffer. When a
    context line differs from the line of that text at the same index, or
    that text has no such line, [applyDiff] returns a failure, whatever
    the hunks before did to the buffer: the result carries the message
    "Context mismatch in hunk" (or that of the TypeError on a missing
    line) and no content. For the first hunk the text read is
    [original.slice(max(start - 1024, 0), max(end - 1024, 0))]. *)
Lemma context_mismatch_fails (self : OptimizedUnifiedStrategy)
  (hardwareConcurrency : Z) (originalContent diffContent : string)
  (options : ApplyOptions) :
  1 <= hardwareConcurrency ->
  (forall (pre post : list DiffHunk) (hunk : DiffHunk) (b0 b : GapBuffer)
          (i : nat) (line : string),
     parseUnifiedDiff diffContent = Normal (pre ++ hunk :: post) ->
     newGapBuffer originalContent GAP_BUFFER_SIZE = Normal b0 ->
     processHunksSequentially pre b0 = Normal b ->
     context hunk !! i = Some line ->
     (forall seen : string,
        split "010" (gapSlice b (start hunk) (end_ hunk)) !! i = Some seen ->
        trim seen <> trim line) ->
     exists msg : string,
       (msg = "Context mismatch in hunk" \/
        msg = "Cannot read properties of undefined (reading 'trim')") /\
       (is_Some (split "010" (gapSlice b (start hunk) (end_ hunk)) !! i) ->
        msg = "Context mismatch in hunk") /\
       applyDiff self hardwareConcurrency originalContent diffContent options
       = Failure ("Failed to apply unified diff: " +:+ msg) (Some [])) /\
  (forall (post : list DiffHunk) (hunk : DiffHunk) (i : nat) (line : string),
     parseUnifiedDiff diffContent = Normal (hunk :: post) ->
     0 <= start hunk -> 0 <= end_ hunk ->
     context hunk !! i = Some line ->
     let read :=
       strSlice originalContent (Z.max (start hunk - GAP_BUFFER_SIZE) 0)
         (Z.max (end_ hunk - GAP_BUFFER_SIZE) 0) in
     (forall seen : string,
        split "010" read !! i = Some seen -> trim seen <> trim line) ->
     exists msg : string,
       (msg = "Context mismatch in hunk" \/
        msg = "Cannot read properties of undefined (reading 'trim')") /\
       (is_Some (split "010" read !! i) ->
        msg = "Context mismatch in hunk") /\
       applyDiff self hardwareConcurrency originalContent diffContent options
       = Failure ("Failed to apply unified diff: " +:+ msg) (Some [])).
Proof.
  intros Hhc.
  assert (0 <= GAP_BUFFER_SIZE) as Hg by (unfold GAP_BUFFER_SIZE; lia).
  split.
  - intros pre post hunk b0 b i line Hparse Hnew Hpre Hi Hdiff.
    rewrite newGapBuffer_normal in Hnew by done.
    apply Normal_inj in Hnew. subst b0.
    destruct (processHunksSequentially_rejects pre post hunk _ b i line
                Hpre Hi Hdiff) as (msg & Hmsg & Hsome & Hthrow).
    exists msg. split; [done|]. split; [done|].
    rewrite (applyDiff_sequential _ _ _ _ _ _ Hhc Hparse).
    by rewrite Hthrow.
  - intros post hunk i line Hparse Hs He Hi read Hdiff. subst read.
    rewrite <- gapSlice_fresh in * by done.
    destruct (processHunksSequentially_rejects [] post hunk _ _ i line
                eq_refl Hi Hdiff) as (msg & Hmsg & Hsome & Hthrow).
    exists msg. split; [done|]. split; [done|].
    rewrite (applyDiff_sequential _ _ _ _ _ _ Hhc Hparse).
    change (hunk :: post) with ([] ++ hunk :: post).
    by rewrite Hthrow.
Qed.

(** C2. The check misses a context line that does not match: the one
    context line of the hunk is blank and matches no line of the document,
    whose lines are "hello" and "world", nor the code unit "e" that the
    hunk replaces. [verifyContext] reads [buffer.slice(1, 2)], both indices
    fall into the gap in front of the text, the text read is empty, its
    one empty line equals the blank context line, and the hunk is applied:
    [applyDiff] succeeds with a modified document. *)
Theorem context_mismatch_accepted :
  let original := "hello" +:+ String "010" "world" in
  let diff := "@@ -1,1 +1,1 @@" +:+ String "010" " " +:+ String "010" "+new" in
  parseUnifiedDiff diff = Normal [mkDiffHunk 1 2 [] ["new"] [EmptyString]] /\
  Forall (fun l => trim l <> trim EmptyString) (split "010" original) /\
  strSlice original 1 2 = "e" /\
  applyDiff (new None) 4 original diff noOptions
  = Success ("hnewllo" +:+ String "010" "world") 1 None.
Proof.
  cbv zeta. split; [vm_compute; reflexivity|].
  split; [|split; vm_compute; reflexivity].
  repeat constructor; vm_compute; discriminate.
Qed.

(** A second hunk that is rejected after a first hunk was applied to the
    buffer, and a first hunk that is rejected. *)
Lemma context_mismatch_fails_example :
  applyDiff (new None) 4
    ("hello" +:+ String "010" "world")
    ("@@ -0,0 +0,0 @@" +:+ String "010" "+X" +:+ String "010"
     "@@ -1,1 +1,1 @@" +:+ String "010" " goodbye") noOptions
  = Failure "Failed to apply unified diff: Context mismatch in hunk" (Some [])
  /\
  applyDiff (new None) 4
    ("hello" +:+ String "010" "world")
    ("@@ -1,3 +1,3 @@" +:+ String "010" " goodbye" +:+ String "010" "-old"
     +:+ String "010" "+new") noOptions
  = Failure "Failed to apply unified diff: Context mismatch in hunk" (Some []).
Proof.
  split.
  - pose (b0 := {| buffer := replicate (Z.to_nat GAP_BUFFER_SIZE) EmptyString
                             ++ chars ("hello" +:+ String "010" "world");
                   gapStart := 0; gapEnd := GAP_BUFFER_SIZE |}).
    destruct (proj1 (context_mismatch_fails (new None) 4
                       ("hello" +:+ String "010" "world")
                       ("@@ -0,0 +0,0 @@" +:+ String "010" "+X"
                        +:+ String "010" "@@ -1,1 +1,1 @@"
                        +:+ String "010" " goodbye") noOptions
                       ltac:(lia))
                [mkDiffHunk 0 0 [] ["X"] []] []
                (mkDiffHunk 1 2 [] [] ["goodbye"]) b0 (replace b0 0 0 "X")
                0%nat "goodbye"
                ltac:(vm_compute; reflexivity)
                ltac:(apply newGapBuffer_normal; unfold GAP_BUFFER_SIZE; lia)
                ltac:(reflexivity)
                ltac:(reflexivity)
                ltac:(intros seen [= <-]; vm_compute; discriminate))
      as (msg & _ & Hmsg & Happly).
    rewrite Happly, Hmsg; [reflexivity|].
    exists EmptyString. vm_compute. reflexivity.
  - destruct (proj2 (context_mismatch_fails (new None) 4
                       ("hello" +:+ String "010" "world")
                       ("@@ -1,3 +1,3 @@" +:+ String "010" " goodbye"
                        +:+ String "010" "-old" +:+ String "010" "+new")
                       noOptions ltac:(lia))
                [] (mkDiffHunk 1 2 ["old"] ["new"] ["goodbye"])
                0%nat "goodbye"
                ltac:(vm_compute; reflexivity)
                ltac:(simpl; lia) ltac:(simpl; lia)
                ltac:(reflexivity)
                ltac:(intros seen [= <-]; vm_compute; discriminate))
      as (msg & _ & Hmsg & Happly).
    rewrite Happly, Hmsg; [reflexivity|].
    exists EmptyString. vm_compute. reflexivity.
Defined.

End ContextCheckFacts.

(** ** Parallel strategy *)

Module ParallelFacts.
Import JS JSFacts TextFacts Parallel.
Local Open Scope Z_scope.

(** The chunks, joined again, are the lines from the index on. *)
Lemma join_chunkLoop (lines : list string) (chunkSize : Z) (fuel : nat)
  (i : Z) :
  1 <= chunkSize -> 0 <= i < Z.of_nat (length lines) ->
  Z.of_nat (length lines) - i <= Z.of_nat fuel ->
  chunkLoop fuel i chunkSize lines <> [] /\
  join LF (chunkLoop fuel i chunkSize lines)
  = join LF (drop (Z.to_nat i) lines).
Proof.
  intros Hc. revert i. induction fuel as [|fuel IH]; intros i Hi Hfuel;
    [lia|].
  cbn [chunkLoop]. rewrite (proj2 (Z.ltb_lt _ _)) by lia.
  split; [done|].
  rewrite OptimizedUnifiedFacts.slice_take_drop by lia.
  destruct (decide (i + chunkSize < Z.of_nat (length lines))) as [Hlt|Hge].
  - destruct (IH (i + chunkSize)) as [Hne Hjoin]; [lia|lia|].
    destruct (chunkLoop fuel (i + chunkSize) chunkSize lines) as [|c cs] eqn:E;
      [done|].
    rewrite join_cons_cons, Hjoin.
    replace (Z.to_nat (i + chunkSize))
      with (Z.to_nat i + Z.to_nat chunkSize)%nat by lia.
    rewrite <- drop_drop.
    rewrite <- join_app_nonempty.
    + by rewrite take_drop.
    + intros E'. apply (f_equal length) in E'.
      rewrite length_take, length_drop in E'. simpl in E'. lia.
    + intros E'. apply (f_equal length) in E'.
      rewrite !length_drop in E'. simpl in E'. lia.
  - assert (chunkLoop fuel (i + chunkSize) chunkSize lines = []) as ->.
    { destruct fuel; [done|]. cbn [chunkLoop].
      by rewrite (proj2 (Z.ltb_ge _ _)) by lia. }
    rewrite take_ge by (rewrite length_drop; lia). done.
Qed.

Lemma splitIntoChunks_join (maxWorkers : Z) (content : string) :
  1 <= maxWorkers ->
  splitIntoChunks maxWorkers content <> [] /\
  join LF (splitIntoChunks maxWorkers content) = content.
Proof.
  intros Hw. unfold splitIntoChunks.
  pose proof (split_nonempty "010" content) as Hne.
  assert (1 <= Z.of_nat (length (split "010" content))) as Hlen.
  { destruct (split "010" content); [done|]. simpl. lia. }
  destruct (join_chunkLoop (split "010" content)
              (OptimizedUnified.ceilDiv
                 (Z.of_nat (length (split "010" content))) maxWorkers)
              (length (split "010" content)) 0) as [Hne' Hjoin].
  - unfold OptimizedUnified.ceilDiv. apply Z.div_le_lower_bound; lia.
  - lia.
  - lia.
  - split; [done|]. rewrite Hjoin. cbn [Z.to_nat drop]. apply join_split.
Qed.

(** *** A diff of which no hunk reaches a chunk *)

Lemma parseUnifiedDiff_empty : parseUnifiedDiff EmptyString = Normal [].
Proof. done. Qed.

Lemma processChunk_untouched (chunk : string) :
  processChunk chunk EmptyString
  = Normal (mkChunkResult chunk 0 (Some (mkDiffMetrics 1))).
Proof.
  unfold processChunk. rewrite parseUnifiedDiff_empty.
  cbn [mbind completion_bind applyHunks]. unfold LF. by rewrite join_split.
Qed.

Lemma processChunks_untouched (chunks : list string) (n index : nat) :
  (index + length chunks <= n)%nat ->
  processChunks chunks (replicate n EmptyString) index
  = Normal (map (fun chunk =>
                   mkChunkResult chunk 0 (Some (mkDiffMetrics 1))) chunks).
Proof.
  revert index. induction chunks as [|chunk chunks IH]; intros index Hn;
    [done|].
  cbn [processChunks]. simpl length in Hn.
  rewrite lookup_replicate_2 by lia.
  rewrite processChunk_untouched. cbn [mbind completion_bind].
  rewrite IH by lia. done.
Qed.

Lemma meanAccuracy_untouched (chunks : list string) :
  chunks <> [] ->
  meanAccuracy (map (fun chunk =>
                       mkChunkResult chunk 0 (Some (mkDiffMetrics 1))) chunks)
  = 1%Q.
Proof.
  intros Hne. unfold meanAccuracy.
  change 1%Q with (Qred 1). apply Qred_complete.
  rewrite length_map.
  assert (forall (acc : Q),
            foldl (fun sum r =>
                     sum + from_option accuracyScore 0 (chunkMetrics r))%Q acc
              (map (fun chunk =>
                      mkChunkResult chunk 0 (Some (mkDiffMetrics 1))) chunks)
            == acc + inject_Z (Z.of_nat (length chunks)))%Q as Hsum.
  { induction chunks as [|c cs IH]; [by destruct Hne|]. intros acc.
    cbn [map foldl chunkMetrics from_option accuracyScore].
    destruct cs as [|c' cs].
    - cbn [map foldl length]. reflexivity.
    - rewrite IH by done. simpl length.
      rewrite !Nat2Z.inj_succ. unfold Z.succ. rewrite !inject_Z_plus.
      ring. }
  rewrite Hsum. rewrite Qplus_0_l.
  apply Qmult_inv_r.
  destruct chunks; [done|]. simpl length. rewrite Nat2Z.inj_succ.
  unfold Qeq. simpl. lia.
Qed.

Lemma foldl_applied_untouched (chunks : list string) (acc : Z) :
  foldl (fun sum r => sum + chunkAppliedLines r) acc
    (map (fun chunk =>
            mkChunkResult chunk 0 (Some (mkDiffMetrics 1))) chunks) = acc.
Proof.
  revert acc. induction chunks as [|c cs IH]; intros acc; [done|].
  cbn [map foldl chunkAppliedLines]. rewrite IH. lia.
Qed.

Lemma mergeResults_untouched (chunks : list string) :
  mergeResults (map (fun chunk =>
                       mkChunkResult chunk 0 (Some (mkDiffMetrics 1))) chunks)
  = join LF chunks.
Proof.
  unfold mergeResults. rewrite map_map. cbn [chunkContent].
  by rewrite map_id.
Qed.

Lemma applyDiff_untouched (self : ParallelDiffStrategy)
  (hardwareConcurrency : option Z) (originalContent diffContent : string)
  (options : ApplyOptions) :
  1 <= MAX_WORKERS hardwareConcurrency ->
  (forall n : nat,
     splitDiff diffContent (Z.of_nat n) = Normal (replicate n EmptyString)) ->
  applyDiff self hardwareConcurrency originalContent diffContent options
  = Success originalContent 0
      (if collectMetrics options then Some (mkDiffMetrics 1) else None).
Proof.
  intros Hw Hsplit. unfold applyDiff, applyDiffBody.
  destruct (splitIntoChunks_join _ originalContent Hw) as [Hne Hjoin].
  rewrite Hsplit. cbn [mbind completion_bind].
  rewrite processChunks_untouched by lia. cbn [mbind completion_bind].
  rewrite mergeResults_untouched, Hjoin, foldl_applied_untouched.
  by rewrite meanAccuracy_untouched.
Qed.

Lemma parallel_parseLines_no_header (lines : list string) (hunks : list Hunk) :
  Forall (fun line => startsWith line "@@" = false) lines ->
  parseLines lines hunks None = Normal hunks.
Proof.
  induction 1 as [|line lines Hline _ IH]; [done|].
  cbn [parseLines]. by rewrite Hline.
Qed.

(** X9. Cutting the document into chunks and joining them again loses nothing:
    on a diff without a hunk header, [applyDiff] returns the document as
    it is, with no line applied, for any number of workers. *)
Theorem diff_without_hunk_returns_document (self : ParallelDiffStrategy)
  (hardwareConcurrency : option Z) (originalContent diffContent : string)
  (options : ApplyOptions) :
  1 <= MAX_WORKERS hardwareConcurrency ->
  Forall (fun line => startsWith line "@@" = false)
    (split "010" diffContent) ->
  join LF (splitIntoChunks (MAX_WORKERS hardwareConcurrency) originalContent)
  = originalContent /\
  applyDiff self hardwareConcurrency originalContent diffContent options
  = Success originalContent 0
      (if collectMetrics options then Some (mkDiffMetrics 1) else None).
Proof.
  intros Hw Hlines. split; [by apply splitIntoChunks_join|].
  apply applyDiff_untouched; [done|]. intros n.
  unfold splitDiff, parseUnifiedDiff.
  rewrite (parallel_parseLines_no_header _ _ Hlines).
  cbn [mbind completion_bind foldl]. by rewrite Nat2Z.id.
Qed.

(** *** Hunks beyond the last chunk *)

(** The size of a chunk, [CHUNK_SIZE / numChunks] as a binary64 number. *)
Lemma chunkSize_bounds (numChunks : Z) :
  1 <= numChunks ->
  let size := round53 (inject_Z CHUNK_SIZE / inject_Z numChunks) in
  (0 < size)%Q /\
  (inject_Z CHUNK_SIZE * (1 - (1 # 2 ^ 53))
   <= size * inject_Z numChunks
   <= inject_Z CHUNK_SIZE * (1 + (1 # 2 ^ 53)))%Q.
Proof.
  intros Hn size.
  assert (0 < inject_Z numChunks)%Q as Hnq.
  { change 0%Q with (inject_Z 0). rewrite <- Zlt_Qlt. lia. }
  assert (0 < inject_Z CHUNK_SIZE / inject_Z numChunks)%Q as Hpos.
  { apply Qlt_shift_div_l; [done|]. rewrite Qmult_0_l. done. }
  pose proof (round53_error _ Hpos) as [Hlo Hhi]. fold size in Hlo, Hhi.
  assert (inject_Z CHUNK_SIZE / inject_Z numChunks * inject_Z numChunks
          == inject_Z CHUNK_SIZE)%Q as Hq by (field; lra).
  set (c := (inject_Z CHUNK_SIZE / inject_Z numChunks)%Q) in *.
  change (1 # 2 ^ 53)%Q with (1 # 9007199254740992)%Q in *.
  change (inject_Z CHUNK_SIZE) with (1048576 # 1)%Q in *.
  split; [nra|]. split; nra.
Qed.

Lemma chunkIndexOf_large (start numChunks : Z) :
  1 <= numChunks -> CHUNK_SIZE < start ->
  numChunks <= chunkIndexOf start numChunks.
Proof.
  intros Hn Hstart. unfold chunkIndexOf.
  destruct (chunkSize_bounds numChunks Hn) as (Hsize & _ & Hhi).
  set (size := round53 (inject_Z CHUNK_SIZE / inject_Z numChunks)) in *.
  assert (0 < inject_Z numChunks)%Q as Hnq.
  { change 0%Q with (inject_Z 0). rewrite <- Zlt_Qlt. lia. }
  assert (inject_Z CHUNK_SIZE + 1 <= inject_Z start)%Q as Hs.
  { change 1%Q with (inject_Z 1). rewrite <- inject_Z_plus, <- Zle_Qle. lia. }
  assert (0 < inject_Z start / size)%Q as Hpos.
  { apply Qlt_shift_div_l; [done|]. rewrite Qmult_0_l.
    change (inject_Z CHUNK_SIZE) with (1048576 # 1)%Q in Hs. lra. }
  pose proof (round53_error _ Hpos) as [Hlo _].
  assert (inject_Z start / size * size == inject_Z start)%Q as Hq
    by (field; lra).
  set (t := (inject_Z start / size)%Q) in *.
  rewrite <- (Qfloor_Z numChunks) at 1. apply Qfloor_resp_le.
  eapply Qle_trans; [|exact Hlo].
  change (1 # 2 ^ 53)%Q with (1 # 9007199254740992)%Q in *.
  change (inject_Z CHUNK_SIZE) with (1048576 # 1)%Q in *.
  apply (Qmult_le_r _ _ size); [done|].
  nra.
Qed.

Lemma splitDiff_all_beyond (hunks : list Hunk) (numChunks : Z)
  (diffChunks : list string) :
  1 <= numChunks ->
  Forall (fun hunk => CHUNK_SIZE < start hunk) hunks ->
  foldl (fun diffChunks hunk =>
           let chunkIndex := chunkIndexOf (start hunk) numChunks in
           if chunkIndex <? numChunks then
             alter (fun chunk => chunk +:+ formatHunk hunk)
               (Z.to_nat chunkIndex) diffChunks
           else diffChunks) diffChunks hunks = diffChunks.
Proof.
  intros Hn Hall. revert diffChunks.
  induction Hall as [|h hunks Hh _ IH]; intros diffChunks; [done|].
  cbn [foldl]. cbv zeta.
  pose proof (chunkIndexOf_large _ _ Hn Hh).
  rewrite (proj2 (Z.ltb_ge _ _)) by lia. apply IH.
Qed.

(** X10. A hunk is handed to the chunk of index
    [floor(start / (1048576 / numChunks))] and is dropped when that is not
    below the number of chunks: a hunk whose header gives a line number
    above 1048576 reaches no chunk. A diff of such hunks only leaves the
    document as it is, and [applyDiff] reports a success with no line
    applied. *)
Theorem hunks_beyond_chunk_size_are_dropped (self : ParallelDiffStrategy)
  (hardwareConcurrency : option Z) (originalContent diffContent : string)
  (options : ApplyOptions) (hunks : list Hunk) :
  1 <= MAX_WORKERS hardwareConcurrency ->
  parseUnifiedDiff diffContent = Normal hunks ->
  Forall (fun hunk => CHUNK_SIZE < start hunk) hunks ->
  applyDiff self hardwareConcurrency originalContent diffContent options
  = Success originalContent 0
      (if collectMetrics options then Some (mkDiffMetrics 1) else None).
Proof.
  intros Hw Hparse Hall. unfold applyDiff, applyDiffBody.
  destruct (splitIntoChunks_join _ originalContent Hw) as [Hne Hjoin].
  unfold splitDiff. rewrite Hparse. cbn [mbind completion_bind].
  rewrite splitDiff_all_beyond.
  - rewrite Nat2Z.id.
    rewrite processChunks_untouched by lia. cbn [mbind completion_bind].
    rewrite mergeResults_untouched, Hjoin, foldl_applied_untouched.
    by rewrite meanAccuracy_untouched.
  - destruct (splitIntoChunks _ _); [done|]. simpl length. lia.
  - done.
Qed.

(** *** Hunks of the first chunk *)

Lemma chunkIndexOf_small (start numChunks : Z) :
  1 <= numChunks -> 0 <= start -> start * numChunks < CHUNK_SIZE ->
  chunkIndexOf start numChunks = 0.
Proof.
  intros Hn H0 Hlt. unfold chunkIndexOf.
  destruct (Z.eq_dec start 0) as [->|Hne].
  { reflexivity. }
  destruct (chunkSize_bounds numChunks Hn) as (Hsize & Hlo & _).
  set (size := round53 (inject_Z CHUNK_SIZE / inject_Z numChunks)) in *.
  assert (0 < inject_Z numChunks)%Q as Hnq.
  { change 0%Q with (inject_Z 0). rewrite <- Zlt_Qlt. lia. }
  assert (1 <= inject_Z start)%Q as Hs.
  { change 1%Q with (inject_Z 1). rewrite <- Zle_Qle. lia. }
  assert (inject_Z start * inject_Z numChunks + 1 <= inject_Z CHUNK_SIZE)%Q
    as Hsn.
  { change 1%Q with (inject_Z 1).
    rewrite <- inject_Z_mult, <- inject_Z_plus, <- Zle_Qle. lia. }
  assert (0 < inject_Z start / size)%Q as Hpos.
  { apply Qlt_shift_div_l; [done|]. rewrite Qmult_0_l. lra. }
  pose proof (round53_error _ Hpos) as [Hlo' Hhi'].
  assert (inject_Z start / size * size == inject_Z start)%Q as Hq
    by (field; lra).
  set (t := (inject_Z start / size)%Q) in *.
  set (q := round53 t) in *.
  change (1 # 2 ^ 53)%Q with (1 # 9007199254740992)%Q in *.
  change (inject_Z CHUNK_SIZE) with (1048576 # 1)%Q in *.
  assert (0 <= q)%Q as Hq0 by nra.
  assert (q < 1)%Q as Hq1.
  { eapply Qle_lt_trans; [exact Hhi'|].
    apply (Qmult_lt_r _ _ (size * inject_Z numChunks));
      [by apply Qmult_lt_0_compat|].
    nra. }
  pose proof (Qfloor_resp_le _ _ Hq0) as Hfl.
  change (Qfloor 0) with 0 in Hfl.
  pose proof (Qfloor_le q) as Hle.
  assert (inject_Z (Qfloor q) < inject_Z 1)%Q as Hhi
    by (eapply Qle_lt_trans; [exact Hle|exact Hq1]).
  rewrite <- Zlt_Qlt in Hhi. lia.
Qed.

Lemma splitDiff_all_first (hunks : list Hunk) (numChunks : Z)
  (first : string) (others : list string) :
  1 <= numChunks ->
  Forall (fun hunk => 0 <= start hunk /\ start hunk * numChunks < CHUNK_SIZE)
    hunks ->
  foldl (fun diffChunks hunk =>
           if chunkIndexOf (start hunk) numChunks <? numChunks then
             alter (fun chunk => chunk +:+ formatHunk hunk)
               (Z.to_nat (chunkIndexOf (start hunk) numChunks)) diffChunks
           else diffChunks) (first :: others) hunks
  = (first +:+ join EmptyString (map formatHunk hunks)) :: others.
Proof.
  intros Hn Hall. revert first.
  induction Hall as [|h hunks [Hh0 Hh] _ IH]; intros first.
  { cbn [foldl map]. by rewrite append_nil_r. }
  cbn [foldl map].
  rewrite (chunkIndexOf_small _ _ Hn Hh0 Hh).
  rewrite (proj2 (Z.ltb_lt _ _)) by lia.
  replace (alter _ (Z.to_nat 0) (first :: others))
    with ((first +:+ formatHunk h) :: others) by done.
  rewrite IH.
  by rewrite join_empty_cons, append_assoc.
Qed.

(** X11. The diff is not spread over the chunks by the lines that its hunks
    address: a hunk goes to the chunk of index
    [floor(start / (1048576 / numChunks))], which is 0 as long as
    [start * numChunks] is below 1048576. All such hunks are handed, in
    their order, to the first chunk, and the other chunks get an empty
    diff. *)
Theorem hunks_below_chunk_size_go_to_first_chunk (diffContent : string)
  (numChunks : Z) (hunks : list Hunk) :
  1 <= numChunks ->
  parseUnifiedDiff diffContent = Normal hunks ->
  Forall (fun hunk => 0 <= start hunk /\ start hunk * numChunks < CHUNK_SIZE)
    hunks ->
  splitDiff diffContent numChunks
  = Normal (join EmptyString (map formatHunk hunks)
              :: replicate (Z.to_nat numChunks - 1) EmptyString).
Proof.
  intros Hn Hparse Hall. unfold splitDiff. rewrite Hparse.
  cbn [mbind completion_bind].
  replace (Z.to_nat numChunks) with (S (Z.to_nat numChunks - 1)) at 1 by lia.
  cbn [replicate]. cbv zeta. by rewrite splitDiff_all_first.
Qed.

(** *** Hunk headers *)

Lemma parallel_parseLines_invalid_header (lines : list string) (line : string)
  (hunks : list Hunk) (currentHunk : option Hunk) :
  line ∈ lines -> startsWith line "@@" = true ->
  OptimizedUnified.hunkHeaderMatch line = None ->
  parseLines lines hunks currentHunk = Throw "Invalid hunk header format".
Proof.
  intros Hin Hat Hno. revert hunks currentHunk.
  induction lines as [|l lines IH]; intros hunks currentHunk.
  { by apply elem_of_nil in Hin. }
  cbn [parseLines].
  destruct (startsWith l "@@") eqn:Hl.
  - unfold parseHunkHeader.
    destruct (OptimizedUnified.hunkHeaderMatch l) as [[g1 g2]|] eqn:Hm;
      [|done].
    apply elem_of_cons in Hin as [->|Hin]; [congruence|]. by apply IH.
  - apply elem_of_cons in Hin as [->|Hin]; [congruence|].
    destruct currentHunk as [h|]; by apply IH.
Qed.

(** X12. A line of the diff that starts with [@@] and does not hold a header
    [@@ -N[,N] +N[,N] @@] makes the whole call fail with
    "Invalid hunk header format": no chunk is processed. *)
Theorem parallel_invalid_hunk_header_fails (self : ParallelDiffStrategy)
  (hardwareConcurrency : option Z) (originalContent diffContent : string)
  (options : ApplyOptions) (line : string) :
  line ∈ split "010" diffContent ->
  startsWith line "@@" = true ->
  OptimizedUnified.hunkHeaderMatch line = None ->
  applyDiff self hardwareConcurrency originalContent diffContent options
  = Failure "Failed to apply parallel diff: Invalid hunk header format"
      (Some []).
Proof.
  intros Hin Hat Hno. unfold applyDiff, applyDiffBody, splitDiff.
  unfold parseUnifiedDiff.
  by rewrite (parallel_parseLines_invalid_header _ line).
Qed.

Lemma diff_without_hunk_returns_document_witness :
  join LF
    (splitIntoChunks (MAX_WORKERS (Some 2))
       ("a" +:+ LF +:+ "b" +:+ LF +:+ "c"))
  = "a" +:+ LF +:+ "b" +:+ LF +:+ "c" /\
  applyDiff (new None) (Some 2) ("a" +:+ LF +:+ "b" +:+ LF +:+ "c")
    "no hunk in this diff" noOptions
  = Success ("a" +:+ LF +:+ "b" +:+ LF +:+ "c") 0 None.
Proof.
  apply (diff_without_hunk_returns_document (new None) (Some 2)
           ("a" +:+ LF +:+ "b" +:+ LF +:+ "c") "no hunk in this diff"
           noOptions).
  - vm_compute. discriminate.
  - vm_compute. repeat constructor.
Defined.

Lemma hunks_beyond_chunk_size_are_dropped_witness :
  applyDiff (new None) (Some 2) ("a" +:+ LF +:+ "b" +:+ LF +:+ "c")
    ("@@ -2000000,1 +2000000,2 @@" +:+ LF +:+ "+x") noOptions
  = Success ("a" +:+ LF +:+ "b" +:+ LF +:+ "c") 0 None.
Proof.
  apply (hunks_beyond_chunk_size_are_dropped (new None) (Some 2)
           ("a" +:+ LF +:+ "b" +:+ LF +:+ "c")
           ("@@ -2000000,1 +2000000,2 @@" +:+ LF +:+ "+x") noOptions
           [mkHunk 2000000 2000001
              ("@@ -2000000,1 +2000000,2 @@" +:+ LF +:+ "+x" +:+ LF)]).
  - vm_compute. discriminate.
  - vm_compute. reflexivity.
  - repeat constructor.
Defined.

Lemma hunks_below_chunk_size_go_to_first_chunk_witness :
  splitDiff ("@@ -3,1 +3,2 @@" +:+ LF +:+ "+x" +:+ LF +:+ "@@ -9 +10 @@"
             +:+ LF +:+ "-y") 3
  = Normal [ "@@ -3,1 +3,2 @@" +:+ LF +:+ "+x" +:+ LF +:+ "@@ -9 +10 @@"
             +:+ LF +:+ "-y" +:+ LF; EmptyString; EmptyString ].
Proof.
  apply (hunks_below_chunk_size_go_to_first_chunk
           ("@@ -3,1 +3,2 @@" +:+ LF +:+ "+x" +:+ LF +:+ "@@ -9 +10 @@"
            +:+ LF +:+ "-y") 3
           [mkHunk 3 4 ("@@ -3,1 +3,2 @@" +:+ LF +:+ "+x" +:+ LF);
            mkHunk 9 9 ("@@ -9 +10 @@" +:+ LF +:+ "-y" +:+ LF)]).
  - lia.
  - vm_compute. reflexivity.
  - repeat constructor; simpl; lia.
Defined.

Lemma parallel_invalid_hunk_header_fails_witness :
  applyDiff (new None) (Some 2) "hello"
    ("@@ ... @@" +:+ LF +:+ " hello") noOptions
  = Failure "Failed to apply parallel diff: Invalid hunk header format"
      (Some []).
Proof.
  apply (parallel_invalid_hunk_header_fails (new None) (Some 2) "hello"
           ("@@ ... @@" +:+ LF +:+ " hello") noOptions "@@ ... @@").
  - vm_compute. apply list_elem_of_here.
  - reflexivity.
  - vm_compute. reflexivity.
Defined.

End ParallelFacts.

(** ** The replacement policy of the cache of scores *)

Module LRUPolicyFacts.
Import JS JSFacts SearchReplace LRUCacheFacts.
Local Open Scope Z_scope.

Section Policy.
Context {K V : Type} `{EqDecision K}.
Implicit Types (entries : list (K * V)) (c : LRUCache K V).

Lemma mapDelete_absent (key : K) entries :
  key ∉ entries.*1 -> mapDelete key entries = entries.
Proof.
  induction entries as [|[k v] rest IH]; [done|]. intros Hnot.
  rewrite fmap_cons, not_elem_of_cons in Hnot. destruct Hnot as [Hne Hrest].
  unfold mapDelete in *.
  rewrite filter_cons_True by (simpl; intros E; by apply Hne).
  by rewrite IH.
Qed.

Lemma mapDelete_head (key : K) (value : V) entries :
  key ∉ entries.*1 -> mapDelete key ((key, value) :: entries) = entries.
Proof.
  intros Hnot. unfold mapDelete.
  rewrite filter_cons_False by (simpl; tauto).
  by apply mapDelete_absent.
Qed.

Lemma mapDelete_app (key : K) entries entries' :
  mapDelete key (entries ++ entries')
  = mapDelete key entries ++ mapDelete key entries'.
Proof. unfold mapDelete. apply filter_app. Qed.

Lemma mapSet_absent (key : K) (value : V) entries :
  key ∉ entries.*1 -> mapSet key value entries = entries ++ [(key, value)].
Proof.
  induction entries as [|[k v] rest IH]; [done|]. intros Hnot.
  rewrite fmap_cons, not_elem_of_cons in Hnot. destruct Hnot as [Hne Hrest].
  cbn [mapSet]. destruct (decide (k = key)); [by subst|].
  by rewrite IH.
Qed.

Lemma mapSet_present (key : K) (value old : V) entries entries' :
  key ∉ entries.*1 ->
  mapSet key value (entries ++ (key, old) :: entries')
  = entries ++ (key, value) :: entries'.
Proof.
  induction entries as [|[k v] rest IH]; intros Hnot.
  - cbn [app mapSet]. by destruct (decide (key = key)).
  - rewrite fmap_cons, not_elem_of_cons in Hnot.
    destruct Hnot as [Hne Hrest]. cbn [app mapSet].
    destruct (decide (k = key)); [by subst|]. by rewrite IH.
Qed.

Lemma mapDelete_keys (key : K) entries :
  key ∉ (mapDelete key entries).*1.
Proof.
  unfold mapDelete. intros Hin. apply list_elem_of_fmap in Hin.
  destruct Hin as ([k v] & -> & Hin). apply list_elem_of_filter in Hin.
  by destruct Hin.
Qed.

(** X13. A value that was stored is read back: [set(key, value)] followed by
    [get(key)] returns [value], whatever the cache held and whatever its
    capacity is. *)
Theorem lru_get_after_set (key : K) (value : V) c :
  fst (lruGet key (lruSet key value c)) = Some value.
Proof.
  unfold lruGet, lruSet. cbn [cache]. by rewrite mapGet_mapSet.
Qed.

(** [set] of a key that the cache does not hold makes it the newest entry;
    when the cache is full ([size >= maxSize]) the oldest entry, and only
    that one, is removed first. *)
Lemma lruSet_fresh (key : K) (value : V) c :
  NoDup (cache c).*1 -> key ∉ (cache c).*1 ->
  cache (lruSet key value c)
  = (if maxSize c <=? lruSize c then tail (cache c) else cache c)
    ++ [(key, value)].
Proof.
  intros Hnodup Hfresh. unfold lruSet. cbn [cache].
  destruct (maxSize c <=? lruSize c).
  - destruct (cache c) as [|[firstKey v] rest] eqn:E; [done|].
    rewrite fmap_cons in Hnodup, Hfresh.
    apply NoDup_cons in Hnodup as [Hfirst _].
    apply not_elem_of_cons in Hfresh as [_ Hfresh].
    rewrite mapDelete_head by done. by apply mapSet_absent.
  - by apply mapSet_absent.
Qed.

Lemma lruGet_hit (key : K) (value : V) c :
  mapGet key (cache c) = Some value ->
  lruGet key c
  = (Some value,
     mkLRUCache (mapDelete key (cache c) ++ [(key, value)]) (maxSize c)).
Proof.
  intros Hget. unfold lruGet. rewrite Hget.
  by rewrite mapSet_absent by apply mapDelete_keys.
Qed.

(** X14. The cache is least-recently-used, not first-in-first-out: [get] of the
    oldest entry makes it the newest, so that the next [set] of a new key
    on the full cache removes the entry that was second. *)
Theorem lru_get_protects_from_eviction (k0 k1 key : K) (v0 v1 value : V)
  (rest : list (K * V)) c :
  cache c = (k0, v0) :: (k1, v1) :: rest ->
  NoDup (cache c).*1 -> key ∉ (cache c).*1 ->
  maxSize c <= lruSize c ->
  fst (lruGet k0 c) = Some v0 /\
  cache (lruSet key value (snd (lruGet k0 c)))
  = rest ++ [(k0, v0); (key, value)].
Proof.
  intros Hcache Hnodup Hfresh Hfull.
  assert (mapGet k0 (cache c) = Some v0) as Hget.
  { rewrite Hcache. cbn [mapGet]. by destruct (decide (k0 = k0)). }
  rewrite (lruGet_hit _ _ _ Hget). cbn [fst snd]. split; [done|].
  rewrite Hcache in Hnodup, Hfresh |- *.
  rewrite !fmap_cons in Hnodup, Hfresh.
  apply NoDup_cons in Hnodup as [Hk0 Hnodup].
  apply NoDup_cons in Hnodup as [Hk1 Hnodup].
  apply not_elem_of_cons in Hk0 as [Hk01 Hk0].
  apply not_elem_of_cons in Hfresh as [Hkey0 Hfresh].
  apply not_elem_of_cons in Hfresh as [Hkey1 Hfresh].
  rewrite mapDelete_head
    by (rewrite fmap_cons, not_elem_of_cons; by split).
  unfold lruSet, lruSize in *. rewrite Hcache in Hfull.
  cbn [cache maxSize length app] in *.
  rewrite length_app. cbn [length].
  rewrite (proj2 (Z.leb_le _ _)) by lia.
  rewrite mapDelete_head.
  - rewrite mapSet_absent; [by rewrite <- app_assoc|].
    rewrite fmap_app, elem_of_app. cbn.
    rewrite list_elem_of_singleton. intros [?|?]; [done|]. by subst.
  - rewrite fmap_app, elem_of_app. cbn.
    rewrite list_elem_of_singleton. intros [?|?]; [done|]. by subst.
Qed.

(** X15. [set] on a full cache removes the oldest entry before it looks whether
    the key is already there: giving a new value to a key that the cache
    holds drops the oldest entry all the same, and leaves the key at its
    place in the order. *)
Theorem lru_update_in_full_cache_evicts (k0 key : K) (v0 old value : V)
  (before after : list (K * V)) c :
  cache c = (k0, v0) :: before ++ (key, old) :: after ->
  NoDup (cache c).*1 ->
  maxSize c <= lruSize c ->
  cache (lruSet key value c) = before ++ (key, value) :: after /\
  lruSize (lruSet key value c) = lruSize c - 1.
Proof.
  intros Hcache Hnodup Hfull.
  assert (cache (lruSet key value c) = before ++ (key, value) :: after)
    as Hres.
  { unfold lruSet. cbn [cache].
    rewrite (proj2 (Z.leb_le _ _)) by done.
    rewrite Hcache in Hnodup |- *.
    rewrite fmap_cons, fmap_app, fmap_cons in Hnodup.
    apply NoDup_cons in Hnodup as [Hk0 Hnodup].
    rewrite mapDelete_head by (by rewrite fmap_app, fmap_cons).
    apply mapSet_present.
    apply NoDup_app in Hnodup as (_ & Hdisj & _).
    intros Hin. apply (Hdisj _ Hin). cbn. apply list_elem_of_here. }
  split; [done|]. unfold lruSize. rewrite Hres, Hcache.
  cbn [length]. rewrite !length_app. cbn [length]. lia.
Qed.

End Policy.

(** *** The key of the similarity cache *)

Lemma getSimilarity_stores (sc : LRUCache string Q) (original search : string) :
  search <> EmptyString ->
  mapGet (cacheKey original search)
    (cache (snd (getSimilarity sc original search)))
  = Some (fst (getSimilarity sc original search)).
Proof.
  intros Hne. unfold getSimilarity.
  destruct (String.eqb_spec search EmptyString) as [E|_]; [done|].
  unfold lruGet.
  destruct (mapGet _ (cache sc)) as [v|] eqn:Hget; cbn [fst snd cache].
  - apply mapGet_mapSet.
  - unfold lruSet. cbn [cache]. apply mapGet_mapSet.
Qed.

(** X16. The key of the cache is [original + "|" + search], which does not tell
    where the original ends: the pairs [(x + "|" + y, z)] and
    [(x, y + "|" + z)] share a key. After the score of the first pair has
    been computed, a call for the second pair returns that score, whatever
    the two texts of the second pair are. *)
Theorem similarity_cache_key_is_ambiguous (sc : LRUCache string Q)
  (x y z : string) :
  z <> EmptyString ->
  cacheKey (x +:+ "|" +:+ y) z = cacheKey x (y +:+ "|" +:+ z) /\
  fst (getSimilarity (snd (getSimilarity sc (x +:+ "|" +:+ y) z))
         x (y +:+ "|" +:+ z))
  = fst (getSimilarity sc (x +:+ "|" +:+ y) z).
Proof.
  intros Hz.
  assert (cacheKey (x +:+ "|" +:+ y) z = cacheKey x (y +:+ "|" +:+ z))
    as Hkey by (unfold cacheKey; by rewrite !append_assoc).
  split; [done|].
  pose proof (getSimilarity_stores sc (x +:+ "|" +:+ y) z Hz) as Hstored.
  rewrite Hkey in Hstored.
  unfold getSimilarity at 1.
  destruct (String.eqb_spec (y +:+ "|" +:+ z) EmptyString) as [E|_].
  { apply (f_equal String.length) in E. rewrite length_append in E.
    simpl in E. lia. }
  unfold lruGet. by rewrite Hstored.
Qed.

Lemma lru_get_protects_from_eviction_witness :
  fst (lruGet "a" (mkLRUCache [("a", 1); ("b", 2); ("c", 3)] 3)) = Some 1 /\
  cache (lruSet "d" 4
           (snd (lruGet "a" (mkLRUCache [("a", 1); ("b", 2); ("c", 3)] 3))))
  = [("c", 3)] ++ [("a", 1); ("d", 4)].
Proof.
  apply (lru_get_protects_from_eviction "a" "b" "d" 1 2 4 [("c", 3)]
           (mkLRUCache [("a", 1); ("b", 2); ("c", 3)] 3)).
  - reflexivity.
  - apply (bool_decide_unpack _). vm_compute. reflexivity.
  - apply (bool_decide_unpack _). vm_compute. reflexivity.
  - vm_compute. discriminate.
Defined.

Lemma lru_update_in_full_cache_evicts_witness :
  cache (lruSet "c" 9 (mkLRUCache [("a", 1); ("b", 2); ("c", 3)] 3))
  = [("b", 2)] ++ [("c", 9)] /\
  lruSize (lruSet "c" 9 (mkLRUCache [("a", 1); ("b", 2); ("c", 3)] 3))
  = lruSize (mkLRUCache [("a", 1); ("b", 2); ("c", 3)] 3) - 1.
Proof.
  apply (lru_update_in_full_cache_evicts "a" "c" 1 3 9 [("b", 2)] []
           (mkLRUCache [("a", 1); ("b", 2); ("c", 3)] 3)).
  - reflexivity.
  - apply (bool_decide_unpack _). vm_compute. reflexivity.
  - vm_compute. discriminate.
Defined.

Lemma similarity_cache_key_is_ambiguous_witness :
  cacheKey ("foo" +:+ "|" +:+ "bar") "baz"
  = cacheKey "foo" ("bar" +:+ "|" +:+ "baz") /\
  fst (getSimilarity
         (snd (getSimilarity similarityCache0 ("foo" +:+ "|" +:+ "bar") "baz"))
         "foo" ("bar" +:+ "|" +:+ "baz"))
  = fst (getSimilarity similarityCache0 ("foo" +:+ "|" +:+ "bar") "baz").
Proof.
  apply (similarity_cache_key_is_ambiguous similarityCache0 "foo" "bar" "baz").
  discriminate.
Defined.

End LRUPolicyFacts.

(** ** Regular expressions *)

Module RegexFacts.
Import JS JSFacts.

Lemma stripPrefix_Some (m s rest : string) :
  stripPrefix m s = Some rest <-> s = m +:+ rest.
Proof.
  revert s. induction m as [|c m IH]; intros s; cbn [stripPrefix].
  - split; [by intros [= ->]|by intros ->].
  - destruct s as [|d s]; [done|].
    destruct (Ascii.eqb_spec c d) as [->|Hne].
    + rewrite IH, append_cons. split; [by intros ->|by intros [= ->]].
    + rewrite append_cons. split; [done|]. intros [= ? _]. by subst.
Qed.

Lemma stripPrefix_app (m rest : string) :
  stripPrefix m (m +:+ rest) = Some rest.
Proof. by apply stripPrefix_Some. Qed.

Lemma lit_Some {A} (m : string) (k : string -> option A) (s : string) (r : A) :
  lit m k s = Some r -> exists rest, s = m +:+ rest /\ k rest = Some r.
Proof.
  unfold lit. destruct (stripPrefix m s) as [rest|] eqn:E; [|done].
  intros Hk. exists rest. split; [by apply stripPrefix_Some|done].
Qed.

Lemma lit_app {A} (m : string) (k : string -> option A) (rest : string) :
  lit m k (m +:+ rest) = k rest.
Proof. unfold lit. by rewrite stripPrefix_app. Qed.

Lemma lazyStar_Some {A} (p : ascii -> bool) (k : string -> string -> option A)
  (s : string) (r : A) :
  lazyStar p k s = Some r ->
  exists g rest, s = g +:+ rest /\ k g rest = Some r.
Proof.
  revert k. induction s as [|c s IH]; intros k; cbn [lazyStar].
  - destruct (k EmptyString EmptyString) eqn:E; [|done].
    intros [= <-]. by exists EmptyString, EmptyString.
  - destruct (k EmptyString (String c s)) eqn:E.
    + intros [= <-]. by exists EmptyString, (String c s).
    + destruct (p c); [|done]. intros Hrec.
      apply IH in Hrec as (g & rest & -> & Hk).
      by exists (String c g), rest.
Qed.

(** The lazy star stops at the shortest run after which the rest of the
    pattern matches. *)
Lemma lazyStar_first {A} (p : ascii -> bool)
  (k : string -> string -> option A) (g rest : string) (r : A) :
  (forall c, p c = true) ->
  (forall g1 g2, g = g1 +:+ g2 -> g2 <> EmptyString ->
                 k g1 (g2 +:+ rest) = None) ->
  k g rest = Some r ->
  lazyStar p k (g +:+ rest) = Some r.
Proof.
  intros Hp. revert k. induction g as [|c g IH]; intros k Hshort Hk.
  - change (EmptyString +:+ rest) with rest.
    destruct rest; cbn [lazyStar]; by rewrite Hk.
  - pose proof (Hshort EmptyString (String c g) eq_refl ltac:(done)) as H0.
    rewrite append_cons in *. cbn [lazyStar].
    rewrite H0, Hp. apply IH; [|done].
    intros g1 g2 -> Hne. by apply (Hshort (String c g1) g2).
Qed.

Lemma search_Some {A} (m : string -> option A) (s : string) (r : A) :
  search m s = Some r ->
  exists pre rest, s = pre +:+ rest /\ m rest = Some r.
Proof.
  induction s as [|c s IH]; cbn [search].
  - destruct (m EmptyString) eqn:E; [|done]. intros [= <-].
    by exists EmptyString, EmptyString.
  - destruct (m (String c s)) eqn:E.
    + intros [= <-]. by exists EmptyString, (String c s).
    + intros Hrec. apply IH in Hrec as (pre & rest & -> & Hm).
      by exists (String c pre), rest.
Qed.

Lemma search_here {A} (m : string -> option A) (s : string) (r : A) :
  m s = Some r -> search m s = Some r.
Proof. intros Hm. destruct s; cbn [search]; by rewrite Hm. Qed.

Lemma prefix_app (m rest : string) : String.prefix m (m +:+ rest) = true.
Proof.
  induction m as [|c m IH]; [by destruct rest|].
  rewrite append_cons. cbn [String.prefix].
  by destruct (ascii_dec c c).
Qed.

Lemma includes_app (pre m post : string) :
  includes (pre +:+ m +:+ post) m = true.
Proof.
  induction pre as [|c pre IH].
  - change (EmptyString +:+ m +:+ post) with (m +:+ post).
    destruct (m +:+ post) eqn:E; cbn [includes];
      rewrite <- E, prefix_app; done.
  - rewrite append_cons. cbn [includes]. rewrite IH. apply orb_true_r.
Qed.

Lemma includes_app_r (pre s m : string) :
  includes s m = true -> includes (pre +:+ s) m = true.
Proof.
  intros Hs. induction pre as [|c pre IH]; [done|].
  rewrite append_cons. cbn [includes]. rewrite IH. apply orb_true_r.
Qed.

End RegexFacts.

(** ** The block format of the Search-Replace strategy *)

Module BlockFormatFacts.
Import JS JSFacts RegexFacts SearchReplace.
Local Open Scope Z_scope.

Lemma eol_Some {A} (k : string -> option A) (s : string) (r : A) :
  eol k s = Some r ->
  exists e rest, (e = LF \/ e = CRLF) /\ s = e +:+ rest /\ k rest = Some r.
Proof.
  unfold eol. intros Hk.
  destruct s as [|c s]; [done|].
  destruct (Ascii.eqb_spec c "010") as [->|Hc].
  - exists LF, s. auto.
  - destruct (Ascii.eqb_spec c "013") as [->|Hc'].
    + destruct s as [|d s]; [done|].
      destruct (Ascii.eqb_spec d "010") as [->|Hd].
      * exists CRLF, s. auto.
      * exfalso. revert Hk.
        destruct d as [[] [] [] [] [] [] [] []]; try done.
    + exfalso. revert Hk.
      destruct c as [[] [] [] [] [] [] [] []]; try done.
Qed.

Lemma includes_prefix (s m : string) :
  String.prefix m s = true -> includes s m = true.
Proof. intros Hp. destruct s; cbn [includes]; by rewrite Hp. Qed.

Lemma includes_suffix (pre s m : string) :
  includes (pre +:+ s) m = false -> includes s m = false.
Proof.
  intros Hno. destruct (includes s m) eqn:E; [|done].
  by rewrite includes_app_r in Hno.
Qed.

(** A literal that matches across the end of a text of which it holds no
    code unit of the continuation lies within the text. *)
Lemma stripPrefix_within (m t u rest : string) (c : ascii) :
  includes m (String c EmptyString) = false ->
  stripPrefix m (t +:+ String c u) = Some rest ->
  String.prefix m t = true.
Proof.
  revert t. induction m as [|a m IH]; intros t Hc Hm.
  { by destruct t. }
  cbn [includes String.prefix] in Hc.
  destruct (ascii_dec c a) as [->|Hne].
  { by destruct m. }
  apply orb_false_iff in Hc as [_ Hc].
  destruct t as [|d t].
  - cbn [stripPrefix] in Hm. change (EmptyString +:+ String c u)
      with (String c u) in Hm. cbn [stripPrefix] in Hm.
    destruct (Ascii.eqb_spec a c); [by subst|done].
  - rewrite append_cons in Hm. cbn [stripPrefix] in Hm.
    destruct (Ascii.eqb_spec a d) as [->|]; [|done].
    cbn [String.prefix]. destruct (ascii_dec d d); [|done].
    by apply IH.
Qed.

Lemma lit_within {A} (m t u : string) (c : ascii)
  (k : string -> option A) :
  includes m (String c EmptyString) = false ->
  includes t m = false ->
  lit m k (t +:+ String c u) = None.
Proof.
  intros Hc Ht. unfold lit.
  destruct (stripPrefix m (t +:+ String c u)) as [rest|] eqn:E; [|done].
  apply stripPrefix_within in E; [|done].
  apply includes_prefix in E. congruence.
Qed.

(** After a proper part of a section the line end and the marker that
    close the section do not match. *)
Lemma eol_marker_not_inside {A} (marker g2 tail : string)
  (k : string -> option A) :
  includes marker LF = false ->
  includes g2 marker = false ->
  g2 <> EmptyString ->
  g2 <> String "013" EmptyString ->
  eol (lit marker k) (g2 +:+ LF +:+ tail) = None.
Proof.
  intros Hm Hg2 Hne Hcr.
  destruct g2 as [|c g2]; [done|]. rewrite append_cons.
  unfold eol.
  assert (forall t, t = g2 \/ (exists d, g2 = String d t) ->
                    lit marker k (t +:+ LF +:+ tail) = None) as Hlit.
  { intros t [->|[d ->]].
    - apply lit_within; [done|].
      by apply (includes_suffix (String c EmptyString)).
    - apply lit_within; [done|].
      by apply (includes_suffix (String c (String d EmptyString))). }
  destruct (Ascii.eqb_spec c "010") as [->|Hc].
  { apply Hlit; auto. }
  destruct (Ascii.eqb_spec c "013") as [->|Hc'].
  - destruct g2 as [|d g2]; [done|]. rewrite append_cons.
    destruct (Ascii.eqb_spec d "010") as [->|Hd].
    + apply (Hlit g2); eauto.
    + destruct d as [[] [] [] [] [] [] [] []]; try done.
  - destruct c as [[] [] [] [] [] [] [] []]; try done.
Qed.

Lemma lastCodeUnit_app (t : string) (c : ascii) :
  lastCodeUnit (t +:+ String c EmptyString) = Some c.
Proof.
  induction t as [|d t IH]; [done|]. rewrite append_cons.
  cbn [lastCodeUnit]. rewrite IH.
  by destruct (t +:+ String c EmptyString) eqn:E; [destruct t|].
Qed.

Lemma section_then_marker {A} (marker content tail : string)
  (k : string -> string -> option A) (r : A) :
  includes marker LF = false ->
  includes content marker = false ->
  lastCodeUnit content <> Some "013"%char ->
  k content tail = Some r ->
  lazyStar anyChar
    (fun g => eol (lit marker (k g)))
    (content +:+ LF +:+ marker +:+ tail) = Some r.
Proof.
  intros Hm Hcontent Hend Hk.
  apply lazyStar_first; [done| |].
  - intros g1 g2 -> Hne. rewrite <- append_assoc.
    rewrite append_assoc.
    apply eol_marker_not_inside; [done| |done|].
    + by apply (includes_suffix g1).
    + intros ->. by rewrite lastCodeUnit_app in Hend.
  - unfold LF. rewrite append_cons. cbn [eol].
    change (EmptyString +:+ marker +:+ tail) with (marker +:+ tail).
    by rewrite lit_app.
Qed.

(** X17. The documented block, with line feeds, parses back into its two
    sections: for a search section that does not hold the divider and a
    replace section that does not hold the end marker, neither ending
    with a carriage return, the regular expression of [applyDiff] captures
    exactly the two sections. *)
Theorem block_parses_back (searchContent replaceContent : string) :
  includes searchContent dividerMarker = false ->
  includes replaceContent replaceMarker = false ->
  lastCodeUnit searchContent <> Some "013"%char ->
  lastCodeUnit replaceContent <> Some "013"%char ->
  diffMatch
    (searchMarker +:+ LF +:+ searchContent +:+ LF +:+ dividerMarker +:+ LF
     +:+ replaceContent +:+ LF +:+ replaceMarker)
  = Some (searchContent, replaceContent).
Proof.
  intros Hs Hr Hsend Hrend. unfold diffMatch. apply search_here.
  rewrite lit_app. unfold LF at 1. rewrite append_cons. cbn [eol].
  change (EmptyString +:+ ?x) with x.
  apply (section_then_marker dividerMarker searchContent
           (LF +:+ replaceContent +:+ LF +:+ replaceMarker)
           (fun g rest =>
              eol (lazyStar anyChar (fun rc =>
                eol (lit replaceMarker (fun _ => Some (g, rc))))) rest));
    [done..|].
  unfold LF at 1. rewrite append_cons. cbn [eol].
  change (EmptyString +:+ ?x) with x.
  replace (replaceContent +:+ LF +:+ replaceMarker)
    with (replaceContent +:+ LF +:+ replaceMarker +:+ EmptyString)
    by (by rewrite append_nil_r).
  by apply (section_then_marker replaceMarker replaceContent EmptyString
              (fun g _ => Some (searchContent, g))).
Qed.

(** What a match of the regular expression says about the diff. *)
Lemma diffMatch_sound (diffContent searchContent replaceContent : string) :
  diffMatch diffContent = Some (searchContent, replaceContent) ->
  exists pre e1 e2 e3 e4 post : string,
    diffContent
    = pre +:+ searchMarker +:+ e1 +:+ searchContent +:+ e2
      +:+ dividerMarker +:+ e3 +:+ replaceContent +:+ e4
      +:+ replaceMarker +:+ post.
Proof.
  unfold diffMatch. intros Hm.
  apply search_Some in Hm as (pre & s0 & -> & Hm).
  apply lit_Some in Hm as (s1 & -> & Hm).
  apply eol_Some in Hm as (e1 & s2 & _ & -> & Hm).
  apply lazyStar_Some in Hm as (sc & s3 & -> & Hm).
  apply eol_Some in Hm as (e2 & s4 & _ & -> & Hm).
  apply lit_Some in Hm as (s5 & -> & Hm).
  apply eol_Some in Hm as (e3 & s6 & _ & -> & Hm).
  apply lazyStar_Some in Hm as (rc & s7 & -> & Hm).
  apply eol_Some in Hm as (e4 & s8 & _ & -> & Hm).
  apply lit_Some in Hm as (post & -> & Hm).
  injection Hm as <- <-.
  by exists pre, e1, e2, e3, e4, post.
Qed.

Lemma diffMatch_markers (diffContent : string) :
  is_Some (diffMatch diffContent) ->
  includes diffContent searchMarker = true /\
  includes diffContent dividerMarker = true /\
  includes diffContent replaceMarker = true.
Proof.
  intros [[searchContent replaceContent] Hm].
  apply diffMatch_sound in Hm as (pre & e1 & e2 & e3 & e4 & post & ->).
  split; [apply includes_app|]. split.
  - rewrite <- !(append_assoc _ _ (dividerMarker +:+ _)).
    apply includes_app.
  - rewrite <- !(append_assoc _ _ (replaceMarker +:+ _)).
    apply includes_app.
Qed.

Section Format.
Context {helpers : ExtractText}.

(** X18. A diff that lacks one of the three markers is not searched for at
    all: [applyDiff] returns the failure "Invalid diff format", and the
    cache of scores is left as it was. *)
Theorem missing_marker_is_invalid_format (self : SearchReplaceDiffStrategy)
  (sc : LRUCache string Q) (originalContent diffContent : string)
  (options : ApplyOptions) :
  includes diffContent searchMarker = false \/
  includes diffContent dividerMarker = false \/
  includes diffContent replaceMarker = false ->
  applyDiff self sc originalContent diffContent options
  = (Failure (invalidFormatError diffContent) None, sc).
Proof.
  intros Hmissing. unfold applyDiff, extractSections.
  destruct (diffMatch diffContent) as [[searchContent replaceContent]|]
    eqn:Hm; [|done].
  destruct (diffMatch_markers diffContent) as (H1 & H2 & H3);
    [by rewrite Hm|].
  destruct Hmissing as [?|[?|?]]; congruence.
Qed.

End Format.

Local Abbreviation block search replace :=
  (searchMarker +:+ LF +:+ search +:+ LF +:+ dividerMarker +:+ LF +:+
   replace +:+ LF +:+ replaceMarker).

Lemma block_parses_back_witness :
  diffMatch (block "old line" "new line") = Some ("old line", "new line").
Proof.
  apply (block_parses_back "old line" "new line").
  - reflexivity.
  - reflexivity.
  - vm_compute. discriminate.
  - vm_compute. discriminate.
Defined.

Lemma missing_marker_is_invalid_format_witness :
  applyDiff (helpers := LineNumbers.model) (new None None) similarityCache0
    "hello" "replace hello by goodbye" noOptions
  = (Failure (invalidFormatError "replace hello by goodbye") None,
     similarityCache0).
Proof.
  apply (missing_marker_is_invalid_format (helpers := LineNumbers.model)
           (new None None) similarityCache0 "hello"
           "replace hello by goodbye" noOptions).
  left. reflexivity.
Defined.

End BlockFormatFacts.

(** ** Search-Replace strategy: line ranges and insertions *)

Module SearchReplaceMoreFacts.
Import JS JSFacts TextFacts SearchReplace LRUCacheFacts SearchReplaceFacts.
Local Open Scope Z_scope.

Lemma join_parts (sep middle : string) (before after : list string) :
  join sep
    ((if decide (before = []) then [] else [join sep before]) ++
     [middle] ++
     (if decide (after = []) then [] else [join sep after]))
  = join sep (before ++ [middle] ++ after).
Proof.
  destruct (decide (before = [])) as [->|Hb],
           (decide (after = [])) as [->|Ha]; cbn [app].
  - done.
  - destruct after as [|a after]; [done|]. by rewrite !join_cons_cons.
  - by rewrite (join_app_nonempty sep before [middle]).
  - rewrite (join_app_nonempty sep before (middle :: after)) by done.
    destruct after as [|a after]; [done|]. by rewrite !join_cons_cons.
Qed.

Lemma uncachedScore_same (text : string) : uncachedScore text text = 1%Q.
Proof.
  unfold uncachedScore, similarity.
  destruct (String.eqb text EmptyString); [done|].
  by rewrite String.eqb_refl.
Qed.

Section More.
Context {helpers : ExtractText}.

(** X19. A line range that starts before line 1, that ends more than one line
    after the last line, or that ends before it starts, is rejected before
    any search: the failure names the range and the number of lines of the
    file, and the cache of scores is left as it was. (An end line one past
    the last line passes this check.) *)
Theorem invalid_line_range_is_rejected (self : SearchReplaceDiffStrategy)
  (sc : LRUCache string Q) (originalContent diffContent searchContent
   replaceContent : string) (options : ApplyOptions) (sl el : Z) :
  extractSections diffContent = Some (searchContent, replaceContent) ->
  startLine options = Some sl -> endLine options = Some el ->
  sl <> 0 -> el <> 0 ->
  searchContent <> EmptyString \/ sl = el ->
  sl < 1 \/ Z.of_nat (length (splitLines originalContent)) + 1 < el
  \/ el < sl ->
  applyDiff self sc originalContent diffContent options
  = (Failure
       (invalidRangeError sl el
          (Z.of_nat (length (splitLines originalContent)))) None, sc).
Proof.
  intros Hextract Hs He Hsl Hel Hguard Hrange.
  unfold applyDiff. rewrite Hextract.
  assert (emptySearchCheck (sectionLines searchContent) (startLine options)
            (endLine options) = None) as ->.
  { destruct Hguard as [Hne| ->].
    - by apply emptySearchCheck_nonempty, sectionLines_nonempty.
    - unfold emptySearchCheck. rewrite Hs, He.
      cbn [truthy default from_option id].
      destruct (Z.eqb_spec el 0); [done|]. cbn [negb].
      rewrite andb_false_r. rewrite Z.eqb_refl. cbn [negb].
      by rewrite andb_false_r. }
  unfold locate. rewrite Hs, He. cbn [truthy].
  destruct (Z.eqb_spec sl 0); [done|].
  destruct (Z.eqb_spec el 0); [done|]. cbn [negb andb].
  assert ((sl - 1 <? 0)
          || (Z.of_nat (length (splitLines originalContent)) <? el - 1)
          || (el - 1 <? sl - 1) = true) as ->; [|done].
  destruct Hrange as [H|[H|H]].
  - by rewrite (proj2 (Z.ltb_lt _ _)) by lia.
  - rewrite (proj2 (Z.ltb_lt _ (el - 1))) by lia. by rewrite orb_true_r.
  - rewrite (proj2 (Z.ltb_lt (el - 1) _)) by lia. by rewrite !orb_true_r.
Qed.

(** X20. An insertion. With an empty search section and the same start and end
    line [k], between 1 and one past the last line, the replace section is
    put in front of line [k] and nothing is removed: the result is the
    lines before [k], the replace lines (each with its leading blanks and
    without trailing white space), and the lines from [k] on, joined by
    the line ending of the document. No score is computed. *)
Theorem empty_search_inserts_before_line (self : SearchReplaceDiffStrategy)
  (sc : LRUCache string Q) (originalContent diffContent replaceContent
   : string) (options : ApplyOptions) (k : Z) :
  extractSections diffContent = Some (EmptyString, replaceContent) ->
  startLine options = Some k -> endLine options = Some k ->
  1 <= k <= Z.of_nat (length (splitLines originalContent)) + 1 ->
  (fuzzyThreshold self <= 1)%Q ->
  let lineEnding := if includes originalContent CRLF then CRLF else LF in
  let inserted :=
    map (fun line => getIndent line +:+ trim line)
      (sectionLines replaceContent) in
  applyDiff self sc originalContent diffContent options
  = (Success
       (join lineEnding
          (take (Z.to_nat (k - 1)) (splitLines originalContent)
           ++ [join lineEnding inserted]
           ++ drop (Z.to_nat (k - 1)) (splitLines originalContent)))
       (Z.of_nat (length (sectionLines replaceContent)))
       (if collectMetrics options then Some (mkDiffMetrics 1) else None),
     sc).
Proof.
  intros Hextract Hs He Hk Hthr lineEnding inserted.
  set (lines := splitLines originalContent) in *.
  assert (emptySearchCheck [] (Some k) (Some k) = None) as Hguard.
  { unfold emptySearchCheck. cbn [truthy default from_option id].
    destruct (Z.eqb_spec k 0); [lia|]. cbn [negb].
    rewrite andb_false_r. rewrite (Z.eqb_refl k). cbn [negb].
    by rewrite andb_false_r. }
  assert (locate self sc lines [] (Some k) (Some k)
          = (inr (mkCandidate (k - 1) 1%Q
                    (join LF (slice lines (k - 1) (k - 1 + 1)))), sc))
    as Hlocate.
  { unfold locate. cbn [truthy].
    destruct (Z.eqb_spec k 0); [lia|]. cbn [negb andb].
    rewrite (proj2 (Z.ltb_ge (k - 1) 0)) by lia.
    rewrite (proj2 (Z.ltb_ge _ (k - 1))) by (fold lines; lia).
    rewrite (proj2 (Z.ltb_ge (k - 1) (k - 1))) by lia. cbn [orb].
    unfold getSimilarity. cbn [join String.concat String.eqb].
    by rewrite threshold_reached by done. }
  unfold applyDiff. rewrite Hextract, sectionLines_empty.
  fold lineEnding lines. rewrite Hs, He, Hguard, Hlocate.
  cbn [matchIndex bestMatchScore].
  destruct (Z.eqb_spec (k - 1) (-1)); [lia|]. cbn [orb].
  rewrite threshold_not_above by done.
  unfold spliceReplacement. cbn [length Z.of_nat].
  rewrite !Z.add_0_r.
  replace (k - 1) with (Z.of_nat (Z.to_nat (k - 1))) by lia.
  rewrite Nat2Z.id.
  change 0 with (Z.of_nat 0) at 2.
  rewrite !slice_nat, sliceFrom_nat.
  rewrite Nat.sub_diag, take_0, drop_0, Nat.sub_0_r.
  cbn [head default from_option id getIndent strLength String.length
       Z.of_nat].
  rewrite (map_ext _ _ indentLine_base). fold inserted.
  replace (length inserted) with (length (sectionLines replaceContent))
    by (unfold inserted; by rewrite length_map).
  f_equal. f_equal.
  rewrite <- (join_parts lineEnding (join lineEnding inserted)
                (take (Z.to_nat (k - 1)) lines)
                (drop (Z.to_nat (k - 1)) lines)).
  f_equal. f_equal; [|f_equal].
  - destruct (Z.ltb_spec 0 (Z.of_nat (Z.to_nat (k - 1)))) as [Hlt|Hge].
    + destruct (decide _) as [E|_]; [|done].
      apply (f_equal length) in E. rewrite length_take in E.
      simpl in E. lia.
    + destruct (decide _) as [_|E]; [done|].
      destruct E. replace (Z.to_nat (k - 1)) with 0%nat by lia. done.
  - destruct (Z.ltb_spec (Z.of_nat (Z.to_nat (k - 1)))
                (Z.of_nat (length lines))) as [Hlt|Hge].
    + destruct (decide _) as [E|_]; [|done].
      apply (f_equal length) in E. rewrite length_drop in E.
      simpl in E. lia.
    + destruct (decide _) as [_|E]; [done|].
      destruct E. apply drop_ge. lia.
Qed.

(** X21. On a success [appliedLines] is the number of lines of the replace
    section, whatever was matched and wherever: 0 when the replace section
    is empty, that is, for a deletion. *)
Theorem applied_lines_is_replace_length (self : SearchReplaceDiffStrategy)
  (sc sc' : LRUCache string Q) (originalContent diffContent searchContent
   replaceContent content : string) (options : ApplyOptions)
  (appliedLines : Z) (metrics : option DiffMetrics) :
  extractSections diffContent = Some (searchContent, replaceContent) ->
  applyDiff self sc originalContent diffContent options
  = (Success content appliedLines metrics, sc') ->
  appliedLines = Z.of_nat (length (sectionLines replaceContent)).
Proof.
  intros Hextract. unfold applyDiff. rewrite Hextract.
  destruct (emptySearchCheck _ _ _); [done|].
  destruct (locate _ _ _ _ _ _) as [[err|best] sc'']; [done|].
  destruct (_ || _); [done|].
  unfold spliceReplacement. intros [= _ <- _ _].
  by rewrite length_map.
Qed.

(** X22. A line range that names the very window of the search text is taken
    at its word: when the lines [startLine .. endLine] of the document are
    the search lines, [applyDiff] replaces that window and succeeds with
    score 1, for every threshold up to 1, without scanning the document,
    so that no other window can stop the search. *)
Theorem hinted_window_is_replaced (self : SearchReplaceDiffStrategy)
  (sc : LRUCache string Q) (originalContent diffContent searchContent
   replaceContent : string) (options : ApplyOptions)
  (pre post : list string) :
  extractSections diffContent = Some (searchContent, replaceContent) ->
  searchContent <> EmptyString ->
  splitLines originalContent = pre ++ sectionLines searchContent ++ post ->
  startLine options = Some (Z.of_nat (length pre) + 1) ->
  endLine options
  = Some (Z.of_nat (length pre)
          + Z.of_nat (length (sectionLines searchContent))) ->
  consistent (join LF (sectionLines searchContent)) sc ->
  (fuzzyThreshold self <= 1)%Q ->
  exists sc' : LRUCache string Q,
    applyDiff self sc originalContent diffContent options
    = (Success
         (fst (spliceReplacement (splitLines originalContent)
                 (sectionLines searchContent) (sectionLines replaceContent)
                 (if includes originalContent CRLF then CRLF else LF)
                 (Z.of_nat (length pre))))
         (Z.of_nat (length (sectionLines replaceContent)))
         (if collectMetrics options then Some (mkDiffMetrics 1) else None),
       sc').
Proof.
  intros Hextract Hne Hlines Hs He Hsc Hthr.
  set (searchLines := sectionLines searchContent) in *.
  set (lines := splitLines originalContent) in *.
  assert (searchLines <> []) as Hsl by by apply sectionLines_nonempty.
  assert (1 <= Z.of_nat (length searchLines)) as Hw.
  { destruct searchLines; [done|]. simpl. lia. }
  exists (snd (getSimilarity sc (join LF searchLines) (join LF searchLines))).
  unfold applyDiff. rewrite Hextract. fold searchLines lines.
  rewrite emptySearchCheck_nonempty by done.
  unfold locate. rewrite Hs, He. cbn [truthy].
  destruct (Z.eqb_spec (Z.of_nat (length pre) + 1) 0); [lia|].
  destruct (Z.eqb_spec (Z.of_nat (length pre)
                        + Z.of_nat (length searchLines)) 0); [lia|].
  cbn [negb andb].
  assert (Z.of_nat (length lines)
          = Z.of_nat (length pre) + Z.of_nat (length searchLines)
            + Z.of_nat (length post)) as Hlen.
  { rewrite Hlines, !length_app. lia. }
  rewrite (proj2 (Z.ltb_ge _ 0)) by lia.
  rewrite (proj2 (Z.ltb_ge _ _)) by lia.
  rewrite (proj2 (Z.ltb_ge _ _)) by lia. cbn [orb].
  replace (Z.of_nat (length pre) + 1 - 1) with (Z.of_nat (length pre)) by lia.
  replace (Z.of_nat (length pre) + Z.of_nat (length searchLines) - 1 + 1)
    with (Z.of_nat (length pre) + Z.of_nat (length searchLines)) by lia.
  rewrite Hlines at 1. rewrite slice_middle.
  destruct (getSimilarity_consistent _ (join LF searchLines) sc Hsc)
    as [Hscore _].
  rewrite uncachedScore_same in Hscore.
  destruct (getSimilarity sc _ _) as [score sc'] eqn:Hget.
  cbn [fst snd] in *. subst score.
  rewrite threshold_reached by done.
  cbn [matchIndex bestMatchScore].
  destruct (Z.eqb_spec (Z.of_nat (length pre)) (-1)); [lia|]. cbn [orb].
  rewrite threshold_not_above by done.
  destruct (spliceReplacement _ _ _ _ _) as [finalContent indented] eqn:Hsp.
  cbn [fst]. do 2 f_equal.
  unfold spliceReplacement in Hsp. injection Hsp as _ <-.
  by rewrite length_map.
Qed.

End More.

Local Abbreviation block search replace :=
  (searchMarker +:+ LF +:+ search +:+ LF +:+ dividerMarker +:+ LF +:+
   replace +:+ LF +:+ replaceMarker).

Lemma invalid_line_range_is_rejected_witness :
  applyDiff (helpers := LineNumbers.model) (new None None) similarityCache0
    ("a" +:+ LF +:+ "b") (block "a" "x")
    (mkApplyOptions (Some 1) (Some 4) None false)
  = (Failure (invalidRangeError 1 4 2) None, similarityCache0).
Proof.
  apply (invalid_line_range_is_rejected (helpers := LineNumbers.model)
           (new None None) similarityCache0 ("a" +:+ LF +:+ "b")
           (block "a" "x") "a" "x"
           (mkApplyOptions (Some 1) (Some 4) None false) 1 4).
  - vm_compute. reflexivity.
  - reflexivity.
  - reflexivity.
  - lia.
  - lia.
  - left. discriminate.
  - right. left. vm_compute. reflexivity.
Defined.

Lemma empty_search_inserts_before_line_witness :
  applyDiff (helpers := LineNumbers.model) (new None None) similarityCache0
    ("a" +:+ LF +:+ "b") (block "" "  x  ")
    (mkApplyOptions (Some 2) (Some 2) None false)
  = (Success ("a" +:+ LF +:+ "  x" +:+ LF +:+ "b") 1 None, similarityCache0).
Proof.
  apply (empty_search_inserts_before_line (helpers := LineNumbers.model)
           (new None None) similarityCache0 ("a" +:+ LF +:+ "b")
           (block "" "  x  ") "  x  "
           (mkApplyOptions (Some 2) (Some 2) None false) 2).
  - vm_compute. reflexivity.
  - reflexivity.
  - reflexivity.
  - vm_compute. split; discriminate.
  - vm_compute. discriminate.
Defined.

Lemma applied_lines_is_replace_length_witness :
  2 = Z.of_nat (length (sectionLines ("x" +:+ LF +:+ "y"))).
Proof.
  apply (applied_lines_is_replace_length (helpers := LineNumbers.model)
           (new None None) similarityCache0
           (snd (applyDiff (helpers := LineNumbers.model) (new None None)
                   similarityCache0 ("a" +:+ LF +:+ "b")
                   (block "b" ("x" +:+ LF +:+ "y")) noOptions))
           ("a" +:+ LF +:+ "b") (block "b" ("x" +:+ LF +:+ "y")) "b"
           ("x" +:+ LF +:+ "y") ("a" +:+ LF +:+ "x" +:+ LF +:+ "y")
           noOptions 2 None).
  - vm_compute. reflexivity.
  - vm_compute. reflexivity.
Defined.

Lemma hinted_window_is_replaced_witness :
  exists sc' : LRUCache string Q,
    applyDiff (helpers := LineNumbers.model) (new None None) similarityCache0
      ("x" +:+ LF +:+ "foo" +:+ LF +:+ "y") (block "foo" "bar")
      (mkApplyOptions (Some 2) (Some 2) None false)
    = (Success ("x" +:+ LF +:+ "bar" +:+ LF +:+ "y") 1 None, sc').
Proof.
  apply (hinted_window_is_replaced (helpers := LineNumbers.model)
           (new None None) similarityCache0
           ("x" +:+ LF +:+ "foo" +:+ LF +:+ "y") (block "foo" "bar")
           "foo" "bar" (mkApplyOptions (Some 2) (Some 2) None false)
           ["x"] ["y"]).
  - vm_compute. reflexivity.
  - discriminate.
  - reflexivity.
  - reflexivity.
  - reflexivity.
  - apply consistent_empty.
  - vm_compute. discriminate.
Defined.

End SearchReplaceMoreFacts.

(** ** Smart Hybrid strategy: the block, the chunks and the replacement *)

Module SmartHybridMoreFacts.
Import JS JSFacts TextFacts RegexFacts SmartHybrid SmartHybridFacts.
Local Open Scope Z_scope.

(** *** Chunks *)

Lemma chunkLoop_join (fuel : nat) (content : string) :
  (String.length content <= fuel)%nat ->
  join EmptyString (chunkLoop fuel content) = content /\
  Forall (fun chunk => (1 <= String.length chunk <= 64)%nat)
    (chunkLoop fuel content).
Proof.
  revert content. induction fuel as [|fuel IH]; intros content Hlen.
  { destruct content; [done|simpl in Hlen; lia]. }
  cbn [chunkLoop]. destruct content as [|c content]; [done|].
  set (s := String c content) in *.
  destruct (IH (strDrop (Z.to_nat CHUNK_SIZE) s)) as [Hjoin Hall].
  { rewrite length_strDrop. unfold CHUNK_SIZE. simpl in *. lia. }
  split.
  - rewrite join_empty_cons, Hjoin. apply strTake_strDrop.
  - constructor; [|done]. rewrite length_strTake.
    unfold CHUNK_SIZE, s. simpl String.length. lia.
Qed.

(** X23. The chunks that are hashed are the document cut every 64 code units:
    joined again they give the document, none is empty and none is longer
    than 64. *)
Theorem chunks_cover_the_content (content : string) :
  join EmptyString (chunkContent content) = content /\
  Forall (fun chunk => (1 <= String.length chunk <= 64)%nat)
    (chunkContent content).
Proof. by apply chunkLoop_join. Qed.

(** *** The replacement *)

Lemma stripPrefix_None (m s : string) :
  stripPrefix m s = None <-> String.prefix m s = false.
Proof.
  revert s. induction m as [|c m IH]; intros s.
  - destruct s; split; done.
  - destruct s as [|d s]; [done|]. cbn [stripPrefix String.prefix].
    destruct (Ascii.eqb_spec c d) as [->|Hne].
    + destruct (ascii_dec d d); [apply IH|done].
    + by destruct (ascii_dec c d).
Qed.

Lemma rev_app_append (s acc : string) :
  String.rev_app s acc = String.rev s +:+ acc.
Proof.
  unfold String.rev. revert acc. induction s as [|c s IH]; intros acc; [done|].
  cbn [String.rev_app]. rewrite (IH (String c acc)), (IH (String c EmptyString)).
  by rewrite append_assoc.
Qed.

Lemma rev_cons (c : ascii) (s : string) :
  String.rev (String c s) = String.rev s +:+ String c EmptyString.
Proof. unfold String.rev at 1. cbn [String.rev_app]. apply rev_app_append. Qed.

Lemma prefix_stripPrefix (m s : string) :
  String.prefix m s = true -> exists rest, stripPrefix m s = Some rest.
Proof.
  intros Hp. destruct (stripPrefix m s) as [rest|] eqn:E; [by eexists|].
  apply stripPrefix_None in E. congruence.
Qed.

Lemma indexOf_includes (str pattern : string) (n : nat) :
  indexOf str pattern = Some n -> includes str pattern = true.
Proof.
  revert n. induction str as [|c str IH]; intros n; cbn [indexOf includes].
  - by destruct (String.prefix pattern EmptyString).
  - destruct (String.prefix pattern (String c str)); [done|].
    destruct (indexOf str pattern) as [n'|] eqn:E; [|done].
    intros _. by rewrite (IH n').
Qed.

Lemma replaceFrom_indexOf (acc str pattern replacement : string) (n : nat) :
  indexOf str pattern = Some n ->
  replaceFrom acc str pattern replacement
  = (String.rev acc +:+ strTake n str)
    +:+ expandReplacement (String.rev acc +:+ strTake n str) pattern
          (strDrop (n + String.length pattern) str) replacement
    +:+ strDrop (n + String.length pattern) str.
Proof.
  revert acc n. induction str as [|c str IH]; intros acc n.
  - cbn [indexOf].
    destruct (String.prefix pattern EmptyString) eqn:Hp; [|done].
    intros [= <-]. destruct pattern; [|done].
    cbn [replaceFrom stripPrefix strTake strDrop String.length Nat.add].
    by rewrite !append_nil_r.
  - cbn [indexOf].
    destruct (String.prefix pattern (String c str)) eqn:Hp.
    + intros [= <-].
      destruct (prefix_stripPrefix _ _ Hp) as [rest Hrest].
      cbn [replaceFrom]. rewrite Hrest.
      apply stripPrefix_Some in Hrest. rewrite Hrest.
      cbn [strTake Nat.add]. rewrite strDrop_app_length.
      by rewrite append_nil_r.
    + destruct (indexOf str pattern) as [n'|] eqn:E; [|done].
      intros [= <-]. cbn [replaceFrom].
      apply stripPrefix_None in Hp. rewrite Hp.
      rewrite (IH _ n') by done.
      cbn [strTake strDrop Nat.add]. rewrite rev_cons.
      by rewrite !append_assoc.
Qed.

Lemma expandReplacement_other (before matched after rest : string)
  (c : ascii) :
  c <> "$"%char ->
  expandReplacement before matched after (String c rest)
  = String c (expandReplacement before matched after rest).
Proof.
  intros Hc. destruct c as [[] [] [] [] [] [] [] []]; try done.
Qed.

Lemma expandReplacement_plain (before matched after replacement : string) :
  includes replacement "$" = false ->
  expandReplacement before matched after replacement = replacement.
Proof.
  induction replacement as [|c r IH]; [done|]. intros Hno.
  cbn [includes String.prefix] in Hno.
  destruct (ascii_dec "$" c) as [<-|Hne].
  { by destruct r. }
  apply orb_false_iff in Hno as [_ Hno].
  rewrite expandReplacement_other by done. by rewrite IH.
Qed.

Section More.
Context {crypto : NodeCrypto} {nodeBuffer : NodeBuffer}
  {lruPkg : LruCachePkg CacheEntry}.

Lemma decodeOriginal_normal (originalContent : string) :
  exists decoded, decodeOriginal originalContent = Normal decoded.
Proof.
  unfold decodeOriginal, isCborEncoded, decodeCbor.
  destruct (startsWith originalContent "base64:"); cbn [andb negb].
  - destruct (match fromBase64 _ with String _ _ => _ | _ => _ end);
      by eexists.
  - by eexists.
Qed.

Lemma searchMatch_sound (diffContent g : string) :
  searchMatch diffContent = Some g ->
  includes diffContent ("<<<<<<< SEARCH" +:+ LF) = true /\
  includes diffContent (LF +:+ "=======" +:+ LF) = true.
Proof.
  unfold searchMatch. intros Hm.
  apply search_Some in Hm as (pre & s0 & -> & Hm).
  apply lit_Some in Hm as (s1 & -> & Hm).
  apply lazyStar_Some in Hm as (g' & s2 & -> & Hm).
  apply lit_Some in Hm as (post & -> & Hm).
  split; [apply includes_app|].
  rewrite <- !(append_assoc _ _ ((LF +:+ "=======" +:+ LF) +:+ post)).
  apply includes_app.
Qed.

Lemma replaceMatch_sound (diffContent g : string) :
  replaceMatch diffContent = Some g ->
  includes diffContent (LF +:+ ">>>>>>> REPLACE") = true.
Proof.
  unfold replaceMatch. intros Hm.
  apply search_Some in Hm as (pre & s0 & -> & Hm).
  apply lit_Some in Hm as (s1 & -> & Hm).
  apply lazyStar_Some in Hm as (g' & s2 & -> & Hm).
  apply lit_Some in Hm as (post & -> & Hm).
  rewrite <- !(append_assoc _ _ ((LF +:+ ">>>>>>> REPLACE") +:+ post)).
  apply includes_app.
Qed.

(** X24. The markers are looked for with line feeds only. A diff without
    [<<<<<<< SEARCH] followed by a line feed, without [=======] between two
    line feeds, or without [>>>>>>> REPLACE] after a line feed (a block
    with CRLF line ends is such a diff) makes [applyDiff] fail with
    "Invalid diff format"; the caches and the heap are left as they
    were. *)
Theorem malformed_block_is_invalid_format (self : SmartHybridStrategy)
  (heap : Heap) (now : Z) (originalContent diffContent : string)
  (options : ApplyOptions) :
  includes diffContent ("<<<<<<< SEARCH" +:+ LF) = false \/
  includes diffContent (LF +:+ "=======" +:+ LF) = false \/
  includes diffContent (LF +:+ ">>>>>>> REPLACE") = false ->
  applyDiff self heap now originalContent diffContent options
  = (Failure "Invalid diff format" None, self, heap).
Proof.
  intros Hmissing. unfold applyDiff, applyDiffBody.
  destruct (decodeOriginal_normal originalContent) as [decoded ->].
  cbn [mbind completion_bind].
  assert (parseDiffContent diffContent = Throw "Invalid diff format") as ->;
    [|done].
  unfold parseDiffContent.
  destruct (searchMatch diffContent) as [g1|] eqn:H1; [|done].
  destruct (replaceMatch diffContent) as [g2|] eqn:H2; [|done].
  apply searchMatch_sound in H1 as [H1 H1'].
  apply replaceMatch_sound in H2.
  destruct Hmissing as [?|[?|?]]; congruence.
Qed.

(** X25. On every success, from a cache or computed, [appliedLines] is the
    number of lines of the whole resulting document, and the accuracy in
    the metrics is 1. *)
Theorem applied_lines_is_document_length (self : SmartHybridStrategy)
  (heap : Heap) (now : Z) (originalContent diffContent content : string)
  (options : ApplyOptions) (appliedLines : Z)
  (metrics : option DiffMetrics) :
  fst (fst (applyDiff self heap now originalContent diffContent options))
  = Success content appliedLines metrics ->
  appliedLines = Z.of_nat (length (split "010" content)) /\
  metrics = (if collectMetrics options then Some (mkDiffMetrics 1) else None).
Proof.
  destruct (decodeOriginal_normal originalContent) as [decoded Hdecode].
  destruct (parseDiffContent diffContent)
    as [[searchContent replaceContent]|msg] eqn:Hparse.
  2:{ unfold applyDiff, applyDiffBody. rewrite Hdecode.
      cbn [mbind completion_bind]. by rewrite Hparse. }
  rewrite (applyDiff_parsed _ _ _ _ _ _ _ _ _ Hdecode Hparse).
  assert (forall c, createSuccessResult c (collectMetrics options)
                    = Success content appliedLines metrics ->
                    appliedLines = Z.of_nat (length (split "010" content)) /\
                    metrics = (if collectMetrics options
                               then Some (mkDiffMetrics 1) else None))
    as Hcreate.
  { intros c. unfold createSuccessResult. by intros [= -> <- <-]. }
  destruct (fst (hotGet _ _ _)) as [entry|]; cbn [fst]; [apply Hcreate|].
  assert (forall self1 key,
            fst (recompute self1 now key
                   (generateHybridHash decoded (fileStats options))
                   (getCacheKey
                      (generateHybridHash decoded (fileStats options))
                      diffContent)
                   decoded searchContent replaceContent
                   (collectMetrics options))
            = Success content appliedLines metrics ->
            appliedLines = Z.of_nat (length (split "010" content)) /\
            metrics = (if collectMetrics options
                       then Some (mkDiffMetrics 1) else None)) as Hre.
  { intros self1 key. unfold recompute.
    destruct (includes _ _); cbn [fst]; [apply Hcreate|done]. }
  destruct (warmCache self !! _) as [entry|]; cbn [fst]; [|apply Hre].
  destruct (hashesMatch _ _); cbn [fst]; [apply Hcreate|apply Hre].
Qed.

(** X26. What a call that misses the caches computes. The document and the two
    sections get their CRLF pairs turned into line feeds; the first
    occurrence of the search text, at the index [n] that [indexOf] gives,
    is replaced, and only that one; and the replace text is read as a
    replacement pattern of [String.replace]: [$$] gives one dollar sign,
    [$&] the search text, and [$`] and [$'] the document before and after
    the match. A replace text without a dollar sign is put in as it
    is. *)
Theorem first_occurrence_is_replaced (self : SmartHybridStrategy)
  (heap : Heap) (now : Z) (originalContent diffContent decoded searchContent
   replaceContent : string) (options : ApplyOptions) (n : nat) :
  wellFormed self heap ->
  decodeOriginal originalContent = Normal decoded ->
  parseDiffContent diffContent = Normal (searchContent, replaceContent) ->
  fst (hotGet now
         (getCacheKey (generateHybridHash decoded (fileStats options))
            diffContent) (hotCache self)) = None ->
  indexOf (normalizeLineEndings decoded) (normalizeLineEndings searchContent)
  = Some n ->
  let search := normalizeLineEndings searchContent in
  let before := strTake n (normalizeLineEndings decoded) in
  let after :=
    strDrop (n + String.length search) (normalizeLineEndings decoded) in
  let replacement :=
    expandReplacement before search after
      (normalizeLineEndings replaceContent) in
  fst (fst (applyDiff self heap now originalContent diffContent options))
  = createSuccessResult (before +:+ replacement +:+ after)
      (collectMetrics options) /\
  (includes (normalizeLineEndings replaceContent) "$" = false ->
   replacement = normalizeLineEndings replaceContent).
Proof.
  intros Hwf Hdecode Hparse Hmiss Hindex search before after replacement.
  split; [|by apply expandReplacement_plain].
  rewrite (applyDiff_parsed _ _ _ _ _ _ _ _ _ Hdecode Hparse).
  rewrite Hmiss, (warm_lookup_misses _ _ Hwf). cbn [fst].
  unfold recompute. rewrite (indexOf_includes _ _ _ Hindex). cbn [fst].
  unfold strReplace. rewrite (replaceFrom_indexOf _ _ _ _ _ Hindex).
  done.
Qed.

End More.

Local Existing Instance Packages.crypto.
Local Existing Instance Packages.buffer.
Local Existing Instance Packages.lru.

Local Abbreviation block search replace :=
  ("<<<<<<< SEARCH" +:+ LF +:+ search +:+ LF +:+ "=======" +:+ LF +:+
   replace +:+ LF +:+ ">>>>>>> REPLACE").

Lemma malformed_block_is_invalid_format_witness :
  applyDiff new (mkHeap 0%nat) 0 "foo"
    ("<<<<<<< SEARCH" +:+ String "013" LF +:+ "foo" +:+ String "013" LF
     +:+ "=======" +:+ String "013" LF +:+ "bar" +:+ String "013" LF
     +:+ ">>>>>>> REPLACE") noOptions
  = (Failure "Invalid diff format" None, new, mkHeap 0%nat).
Proof.
  apply (malformed_block_is_invalid_format new (mkHeap 0%nat) 0 "foo" _
           noOptions).
  left. reflexivity.
Defined.

Lemma applied_lines_is_document_length_witness :
  3 = Z.of_nat (length (split "010" ("a" +:+ LF +:+ "B" +:+ LF +:+ "c"))) /\
  None = (if collectMetrics noOptions then Some (mkDiffMetrics 1) else None).
Proof.
  apply (applied_lines_is_document_length new (mkHeap 0%nat) 0
           ("a" +:+ LF +:+ "b" +:+ LF +:+ "c") (block "b" "B")
           ("a" +:+ LF +:+ "B" +:+ LF +:+ "c") noOptions 3 None).
  vm_compute. reflexivity.
Defined.

Lemma first_occurrence_is_replaced_witness :
  fst (fst (applyDiff new (mkHeap 0%nat) 0
              ("b" +:+ LF +:+ "a" +:+ LF +:+ "b") (block "b" "$$1 $&!")
              noOptions))
  = createSuccessResult ("" +:+ "$1 b!" +:+ (LF +:+ "a" +:+ LF +:+ "b")) false.
Proof.
  apply (first_occurrence_is_replaced new (mkHeap 0%nat) 0
           ("b" +:+ LF +:+ "a" +:+ LF +:+ "b") (block "b" "$$1 $&!")
           ("b" +:+ LF +:+ "a" +:+ LF +:+ "b") "b" "$$1 $&!" noOptions 0).
  - apply wellFormed_new.
  - reflexivity.
  - vm_compute. reflexivity.
  - reflexivity.
  - reflexivity.
Defined.

End SmartHybridMoreFacts.

(** ** File extensions and the language gate *)

Module ExtensionFacts.
Import JS JSFacts TextFacts RegexFacts Selector.
Local Open Scope Z_scope.

Lemma split_app_sep (sep : ascii) (p e : string) :
  split sep (p +:+ String sep e) = split sep p ++ split sep e.
Proof.
  induction p as [|c p IH].
  - change (EmptyString +:+ String sep e) with (String sep e).
    cbn [split]. by rewrite Ascii.eqb_refl.
  - rewrite append_cons. cbn [split]. rewrite IH.
    destruct (Ascii.eqb c sep); [done|].
    pose proof (split_nonempty sep p).
    by destruct (split sep p).
Qed.

Lemma split_no_sep (sep : ascii) (e : string) :
  includes e (String sep EmptyString) = false -> split sep e = [e].
Proof.
  induction e as [|c e IH]; [done|]. intros Hno.
  cbn [includes String.prefix] in Hno.
  destruct (ascii_dec sep c) as [->|Hne].
  { by destruct e. }
  apply orb_false_iff in Hno as [_ Hno].
  cbn [split]. destruct (Ascii.eqb_spec c sep); [by subst|].
  by rewrite IH.
Qed.

Lemma last_split_extension (p e : string) :
  includes e "." = false ->
  last (split "." (p +:+ "." +:+ e)) = Some e.
Proof.
  intros He. change ("." +:+ e) with (String "." e).
  rewrite split_app_sep, (split_no_sep "." e) by done. apply last_snoc.
Qed.

(** X27. The extension of a path is the text after its last dot, in lower case,
    and the whole path when it has no dot; the directories and the case of
    the letters do not matter. So the structural languages are recognised
    on the lower-cased text after the last dot. *)
Theorem extension_is_text_after_last_dot :
  (forall p e : string,
     includes e "." = false ->
     extensionOf (p +:+ "." +:+ e) = toLowerCase e) /\
  (forall e : string,
     includes e "." = false -> extensionOf e = toLowerCase e) /\
  (forall p e : string,
     includes e "." = false ->
     hasAstSupport (Some (p +:+ "." +:+ e))
     = bool_decide (toLowerCase e ∈ ["js"; "jsx"; "ts"; "tsx"; "go"])).
Proof.
  split; [|split].
  - intros p e He. unfold extensionOf. by rewrite last_split_extension.
  - intros e He. unfold extensionOf. by rewrite split_no_sep.
  - intros p e He. unfold hasAstSupport, extensionOf.
    rewrite last_split_extension by done. cbn [default from_option id].
    destruct (String.eqb_spec (p +:+ "." +:+ e) EmptyString) as [E|_];
      [|done].
    apply (f_equal String.length) in E. rewrite length_append in E.
    change ("." +:+ e) with (String "." e) in E. simpl in E. lia.
Qed.

(** X28. The language gate of the AST-Aware strategy. Without file statistics
    the document is taken for JavaScript and goes on to the parser. With a
    path whose extension is none of js, jsx, ts and tsx, [applyDiff] fails
    at once with "Language unknown is not supported", whatever the
    document, the diff and the rest of the strategy are. *)
Theorem ast_aware_language_gate
  (pipeline : AstAware.AstAwareStrategy -> string -> string -> string ->
              ApplyOptions -> completion DiffResult)
  (self : AstAware.AstAwareStrategy) (originalContent diffContent : string)
  (options : ApplyOptions) :
  (forall fs : FileStats,
     fileStats options = Some fs ->
     path fs <> EmptyString ->
     AstAware.extension (path fs) ∉ ["js"; "jsx"; "ts"; "tsx"] ->
     AstAware.applyDiff pipeline self originalContent diffContent options
     = Failure
         "Failed to apply AST-aware diff: Language unknown is not supported for AST-aware diffing"
         (Some [])) /\
  (fileStats options = None ->
   AstAware.applyDiff pipeline self originalContent diffContent options
   = match pipeline self originalContent diffContent "javascript" options with
     | Normal r => r
     | Throw msg =>
         Failure ("Failed to apply AST-aware diff: " +:+ msg) (Some [])
     end).
Proof.
  split.
  - intros fs Hfs Hpath Hext.
    unfold AstAware.applyDiff, AstAware.applyDiffBody.
    rewrite Hfs. cbn [fmap option_fmap option_map].
    unfold AstAware.detectLanguage.
    destruct (String.eqb_spec (path fs) EmptyString) as [E|_]; [done|].
    rewrite !not_elem_of_cons in Hext.
    destruct Hext as (H1 & H2 & H3 & H4 & _).
    destruct (String.eqb_spec (AstAware.extension (path fs)) "js"); [done|].
    destruct (String.eqb_spec (AstAware.extension (path fs)) "jsx"); [done|].
    destruct (String.eqb_spec (AstAware.extension (path fs)) "ts"); [done|].
    destruct (String.eqb_spec (AstAware.extension (path fs)) "tsx"); [done|].
    done.
  - intros Hfs. unfold AstAware.applyDiff, AstAware.applyDiffBody.
    by rewrite Hfs.
Qed.

Lemma extension_is_text_after_last_dot_witness :
  extensionOf ("src/v1.2/App" +:+ "." +:+ "TSX") = toLowerCase "TSX" /\
  extensionOf "Makefile" = toLowerCase "Makefile".
Proof.
  split.
  - apply (proj1 extension_is_text_after_last_dot "src/v1.2/App" "TSX").
    reflexivity.
  - apply (proj1 (proj2 extension_is_text_after_last_dot) "Makefile").
    reflexivity.
Defined.

Lemma ast_aware_language_gate_witness :
  AstAware.applyDiff
    (fun _ _ _ language _ => Throw ("no parser for " +:+ language))
    (AstAware.new None None) "x" "y"
    (mkApplyOptions None None (Some (mkFileStats 10 "main.py" None 0))
       false)
  = Failure
      "Failed to apply AST-aware diff: Language unknown is not supported for AST-aware diffing"
      (Some []).
Proof.
  apply (proj1 (ast_aware_language_gate
                  (fun _ _ _ language _ =>
                     Throw ("no parser for " +:+ language))
                  (AstAware.new None None)
                  "x" "y"
                  (mkApplyOptions None None
                     (Some (mkFileStats 10 "main.py" None 0)) false))
           (mkFileStats 10 "main.py" None 0)).
  - reflexivity.
  - discriminate.
  - apply (bool_decide_unpack _). vm_compute. reflexivity.
Defined.

End ExtensionFacts.

(** ** The cache of parsed documents *)

Module AstCacheFacts.
Import JS JSFacts SearchReplace LRUCacheFacts LRUPolicyFacts AstCache.
Local Open Scope Z_scope.

Section Cache.
Context {crypto : NodeCrypto} {File : Type}.
Implicit Types (c : AstCache File) (entries : list (string * Entry File)).

(** X29. A tree that was stored is found again: [set(content, ast)] followed
    by [get(content)] returns [ast], at any times and whatever the cache
    held and evicted. *)
Theorem ast_cache_get_after_set (now stored later : Z) (content : string)
  (tree : File) c :
  fst (get later content (set now stored content tree c)) = Some tree.
Proof.
  unfold get, set. cbn [cache]. by rewrite mapGet_mapSet.
Qed.

Lemma oldestOf_acc (oldest : Z) (oldestKey : string) entries :
  let r :=
    foldl (fun '(oldest, oldestKey) '(key, entry) =>
             if lastUsed entry <? oldest then (lastUsed entry, key)
             else (oldest, oldestKey))
      (oldest, oldestKey) entries in
  (forall key entry, (key, entry) ∈ entries -> fst r <= lastUsed entry) /\
  fst r <= oldest /\
  ((fst r = oldest /\ snd r = oldestKey
    /\ forall key entry, (key, entry) ∈ entries -> oldest <= lastUsed entry)
   \/ (fst r < oldest /\
       exists entry, (snd r, entry) ∈ entries /\ lastUsed entry = fst r)).
Proof.
  revert oldest oldestKey.
  induction entries as [|[k e] rest IH]; intros oldest oldestKey r.
  - subst r. cbn [foldl fst snd]. split; [by intros ? ? ?%elem_of_nil|].
    split; [lia|]. left. split; [done|]. split; [done|].
    by intros ? ? ?%elem_of_nil.
  - subst r. cbn [foldl].
    destruct (Z.ltb_spec (lastUsed e) oldest) as [Hlt|Hge].
    + destruct (IH (lastUsed e) k) as (Hall & Hle & Hcase).
      cbv zeta in Hall, Hle, Hcase.
      split; [|split; [lia|]].
      * intros key entry [[= -> ->]|Hin]%elem_of_cons; [done|].
        by apply (Hall key).
      * right. split; [lia|].
        destruct Hcase as [(Heq & Hkey & _)|(Hlt' & entry & Hin & Heq)].
        -- exists e. rewrite Hkey, Heq. split; [apply list_elem_of_here|done].
        -- exists entry. split; [by apply list_elem_of_further|done].
    + destruct (IH oldest oldestKey) as (Hall & Hle & Hcase).
      cbv zeta in Hall, Hle, Hcase.
      split; [|split; [done|]].
      * intros key entry [[= -> ->]|Hin]%elem_of_cons; [lia|].
        by apply (Hall key).
      * destruct Hcase as [(Heq & Hkey & Hrest)|(Hlt' & entry & Hin & Heq)].
        -- left. split; [done|]. split; [done|].
           intros key entry [[= -> ->]|Hin]%elem_of_cons; [done|].
           by apply (Hrest key).
        -- right. split; [done|]. exists entry.
           split; [by apply list_elem_of_further|done].
Qed.

(** X30. The eviction of [set] on a full cache. It removes an entry of least
    [lastUsed], provided that some entry was last used strictly before the
    time at which [set] reads the clock. When no entry is that old (all
    were used at that very time) nothing is removed and the new entry is
    added all the same: the cache then holds more than [maxSize]
    entries. *)
Theorem ast_cache_eviction (now stored : Z) (content : string) (tree : File)
  c :
  maxSize c <= Z.of_nat (length (cache c)) ->
  EmptyString ∉ (cache c).*1 ->
  ((exists key entry, (key, entry) ∈ cache c /\ lastUsed entry < now) ->
   exists key entry,
     (key, entry) ∈ cache c /\
     (forall key' entry', (key', entry') ∈ cache c ->
        lastUsed entry <= lastUsed entry') /\
     cache (set now stored content tree c)
     = mapSet (hashContent content) (mkEntry tree stored)
         (mapDelete key (cache c))) /\
  ((forall key entry, (key, entry) ∈ cache c -> now <= lastUsed entry) ->
   cache (set now stored content tree c)
   = mapSet (hashContent content) (mkEntry tree stored) (cache c) /\
   (hashContent content ∉ (cache c).*1 ->
    Z.of_nat (length (cache (set now stored content tree c)))
    = Z.of_nat (length (cache c)) + 1)).
Proof.
  intros Hfull Hkeys.
  pose proof (oldestOf_acc now EmptyString (cache c)) as Hold.
  cbv zeta in Hold. fold (oldestOf now (cache c)) in Hold.
  destruct Hold as (Hall & Hle & Hcase).
  unfold set. cbn [cache]. rewrite (proj2 (Z.leb_le _ _)) by done.
  split.
  - intros (key0 & entry0 & Hin0 & Hlt0).
    destruct Hcase as [(_ & _ & Hge)|(Hlt & entry & Hin & Heq)].
    { specialize (Hge _ _ Hin0). lia. }
    exists (snd (oldestOf now (cache c))), entry.
    split; [done|]. split.
    + intros key' entry' Hin'. rewrite Heq. by apply (Hall key').
    + destruct (String.eqb_spec (snd (oldestOf now (cache c))) EmptyString)
        as [E|_]; [|done].
      destruct Hkeys. rewrite <- E. apply list_elem_of_fmap.
      by exists (snd (oldestOf now (cache c)), entry).
  - intros Hnone.
    destruct Hcase as [(_ & Hkey & _)|(Hlt & entry & Hin & Heq)].
    2:{ specialize (Hnone _ _ Hin). lia. }
    rewrite Hkey. cbn [String.eqb negb]. split; [done|].
    intros Hfresh. rewrite mapSet_absent by done.
    rewrite length_app. simpl. lia.
Qed.

End Cache.

Local Existing Instance Packages.crypto.

Lemma ast_cache_eviction_witness :
  exists key entry,
    (key, entry) ∈ [("k1", mkEntry 1%nat 5); ("k2", mkEntry 2%nat 3)] /\
    (forall key' entry',
       (key', entry') ∈ [("k1", mkEntry 1%nat 5); ("k2", mkEntry 2%nat 3)] ->
       lastUsed entry <= lastUsed entry') /\
    cache (set 7 7 "text" 3%nat
             (mkAstCache [("k1", mkEntry 1%nat 5); ("k2", mkEntry 2%nat 3)] 2))
    = mapSet (hashContent "text") (mkEntry 3%nat 7)
        (mapDelete key [("k1", mkEntry 1%nat 5); ("k2", mkEntry 2%nat 3)]).
Proof.
  apply (proj1 (ast_cache_eviction 7 7 "text" 3%nat
                  (mkAstCache
                     [("k1", mkEntry 1%nat 5); ("k2", mkEntry 2%nat 3)] 2)
                  ltac:(vm_compute; discriminate)
                  ltac:(apply (bool_decide_unpack _); vm_compute;
                        reflexivity))).
  exists "k1", (mkEntry 1%nat 5). split; [apply list_elem_of_here|].
  simpl. lia.
Defined.

End AstCacheFacts.
